(** * Log-file parsing helpers of [arm9/source/utils/sysinfo.c]

    A shallow embedding of the text-log machinery used by [GetSysInfo_TWLN]:
    the streaming line splitter [SysInfo_ParseText], the comma tokenizer
    [SysInfo_CommaSplit], the digit predicate [SysInfo_IsOnlyDigits] and the
    two line consumers [SysInfoLineParser_InspectLog] and
    [SysInfoLineParser_ProductLog].

    Conventions.  A C [char] is an [ascii]; a region of memory
    [(pointer, length)] is the [list ascii] of its bytes; a pointer into a
    line is its offset ([nat]) from the start of that line; [size_t]
    arithmetic that can wrap is written out in [Z] modulo [2^32]. *)

From Stdlib Require Import Ascii String.
From Stdlib Require Import List ZArith Lia Bool Arith PeanoNat.
Import ListNotations.

Local Open Scope nat_scope.
Local Open Scope list_scope.

(** ** Characters and the C library *)

Definition NUL : ascii := "000"%char.
Definition CR : ascii := "013"%char.
Definition LF : ascii := "010"%char.
Definition SPACE : ascii := " "%char.
Definition COMMA : ascii := ","%char.
Definition DASH : ascii := "-"%char.

(** A string literal as the bytes it occupies (without its terminator). *)
Definition lit (s : string) : list ascii := list_ascii_of_string s.

(** [memchr s c n] on the region [s] of [n = length s] bytes: the offset of
    the first byte equal to [c], or [None] for the null pointer. *)
Fixpoint memchr (s : list ascii) (c : ascii) : option nat :=
  match s with
  | [] => None
  | x :: s' => if Ascii.eqb x c then Some 0 else option_map S (memchr s' c)
  end.

(** [memcmp a b n]: zero iff the first [n] bytes agree, otherwise the
    difference of the first pair of bytes that differ.  Every call in the
    source is guarded so that both regions hold at least [n] bytes; a
    region that ends early compares as equal from there on. *)
Fixpoint memcmp (a b : list ascii) (n : nat) {struct n} : Z :=
  match n with
  | 0 => 0%Z
  | S n' =>
      match a, b with
      | x :: a', y :: b' =>
          if Ascii.eqb x y then memcmp a' b' n'
          else (Z.of_nat (nat_of_ascii x) - Z.of_nat (nat_of_ascii y))%Z
      | _, _ => 0%Z
      end
  end.

(** [memcpy (dst + off) src (length src)] on the array [dst]. *)
Definition memcpy (dst : list ascii) (off : nat) (src : list ascii) : list ascii :=
  firstn off dst ++ src ++ skipn (off + length src) dst.

(** [a[i] = v] on an array held as a list. *)
Definition array_set {A : Type} (a : list A) (i : nat) (v : A) : list A :=
  firstn i a ++ v :: skipn (S i) a.

(** [isdigit] in the C locale. *)
Definition isdigit (c : ascii) : bool :=
  (48 <=? nat_of_ascii c) && (nat_of_ascii c <=? 57).

(** The value of a character array read as a C string. *)
Fixpoint cstring (a : list ascii) : list ascii :=
  match a with
  | [] => []
  | c :: a' => if Ascii.eqb c NUL then [] else c :: cstring a'
  end.

(** ** The chunk source *)

Inductive FRESULT : Type := FR_OK | FR_DISK_ERR.

(** What one call of the source's read function will meet: a batch of bytes
    that the stream has ready, or a failing read. *)
Inductive read_event : Type :=
  | Data (bytes : list ascii)
  | Failure.

(** An open file: the reads still to come.  The empty list is end of file. *)
Definition FIL : Type := list read_event.

(** Modelled from the spec: [fvx_read] (declared in [vff.h], not part of
    the sources at hand), the chunk source "read up to N bytes from a
    sequential byte stream, returning 0 at end-of-stream".  A call asking
    for [btr] bytes yields a status, the bytes actually read (never more
    than [btr], never more than the batch that is ready) and the file
    afterwards; bytes of a batch that did not fit stay in the file. *)
Definition fvx_read (file : FIL) (btr : nat) : FRESULT * list ascii * FIL :=
  match file with
  | [] => (FR_OK, [], [])
  | Failure :: rest => (FR_DISK_ERR, [], rest)
  | Data bytes :: rest =>
      if length bytes <=? btr then (FR_OK, bytes, rest)
      else (FR_OK, firstn btr bytes, Data (skipn btr bytes) :: rest)
  end.

(** The whole input handed over as one batch. *)
Definition whole (input : list ascii) : FIL := [Data input].

(** The input handed over in the given batches. *)
Definition chunked (chunks : list (list ascii)) : FIL := map Data chunks.

(** The input handed over one byte per read. *)
Definition bytewise (input : list ascii) : FIL := map (fun b => Data [b]) input.

(** ** The line splitter *)

(** [sizeof(buffer)] in [SysInfo_ParseText]. *)
Definition BUFFER_SIZE : nat := 512.

(** Equality of two possibly-null pointers into the same region. *)
Definition ptr_eqb (p q : option nat) : bool :=
  match p, q with
  | Some i, Some j => i =? j
  | None, None => true
  | _, _ => false
  end.

Section ParseText.

Variable Ctx : Type.
(** The callback [line_parser(context, line, length)]: the line is the
    region of [length] bytes, the context is threaded through. *)
Variable line_parser : Ctx -> list ascii -> Ctx.

(** The guard of the report, line 518. *)
Definition reports (skip_line : bool) (length : nat) (found newline : option nat)
           (prev_cr : bool) : bool :=
  negb skip_line && (negb (length =? 0) || negb (ptr_eqb found newline) || negb prev_cr).

(** The inner loop, lines 489-530.  [current] is the region of
    [remaining] bytes still to be searched.  The result is the unfinished
    line moved down to the start of the buffer and the two flags. *)
Fixpoint scan_lines (fuel : nat) (current : list ascii) (skip_line prev_cr : bool)
         (context : Ctx) : option (list ascii * bool * bool * Ctx) :=
  match fuel with
  | 0 => None
  | S fuel' =>
      let carriage := memchr current CR in
      let newline := memchr current LF in
      match carriage, newline with
      | None, None => Some (current, skip_line, prev_cr, context)
      | _, _ =>
          let found :=
            match carriage, newline with
            | None, _ => newline
            | _, None => carriage
            | Some c, Some n => Some (Nat.min c n)
            end in
          let length := match found with Some f => f | None => 0 end in
          let context' :=
            if reports skip_line length found newline prev_cr
            then line_parser context (firstn length current)
            else context in
          scan_lines fuel' (skipn (length + 1) current) false
                     (ptr_eqb found carriage) context'
      end
  end.

(** Lines 533-536: a partial line left in the buffer is reported. *)
Definition final_flush (buffer : list ascii) (context : Ctx) : Ctx :=
  if 0 <? length buffer then line_parser context buffer else context.

(** The main loop, lines 463-531, followed by the final report.  [buffer]
    holds the [filled] bytes at the start of the C buffer. *)
Fixpoint parse_loop (fuel : nat) (file : FIL) (buffer : list ascii)
         (skip_line prev_cr : bool) (context : Ctx) : option Ctx :=
  match fuel with
  | 0 => None
  | S fuel' =>
      let filled := length buffer in
      let now := BUFFER_SIZE - filled in
      if now =? 0 then parse_loop fuel' file [] true prev_cr context
      else
        match fvx_read file now with
        | (FR_OK, chunk, file') =>
            let actual := length chunk in
            if actual =? 0 then Some (final_flush buffer context)
            else
              let buffer := buffer ++ chunk in
              match scan_lines (S (length buffer)) buffer skip_line prev_cr context with
              | None => None
              | Some (buffer', skip_line', prev_cr', context') =>
                  parse_loop fuel' file' buffer' skip_line' prev_cr' context'
              end
        | (_, _, _) => Some (final_flush buffer context)
        end
  end.

(** Bytes and batches still in the file: every turn of the main loop that
    reads uses up at least one of them. *)
Fixpoint file_size (file : FIL) : nat :=
  match file with
  | [] => 0
  | Data bytes :: rest => S (length bytes + file_size rest)
  | Failure :: rest => S (file_size rest)
  end.

End ParseText.

Arguments scan_lines {Ctx} line_parser fuel current skip_line prev_cr context.
Arguments final_flush {Ctx} line_parser buffer context.
Arguments parse_loop {Ctx} line_parser fuel file buffer skip_line prev_cr context.

(** [SysInfo_ParseText(file, line_parser, context)].  The loop is given one
    turn per byte and batch of the file for reading and one for each reset
    of a full buffer in between; [ParseText_returns] shows that this is
    always enough. *)
Definition SysInfo_ParseText {Ctx : Type} (file : FIL)
           (line_parser : Ctx -> list ascii -> Ctx) (context : Ctx) : option Ctx :=
  parse_loop line_parser (2 * file_size file + 2) file [] false false context.

(** The consumer that only records its invocations: each line with its
    bytes (the length passed along is the length of the list). *)
Definition record_line (seen : list (list ascii)) (line : list ascii) : list (list ascii) :=
  seen ++ [line].

(** The sequence of consumer invocations made by [SysInfo_ParseText]. *)
Definition SysInfo_lines (file : FIL) : option (list (list ascii)) :=
  SysInfo_ParseText file record_line [].

(** ** The comma tokenizer *)

(** The region of [len] bytes at offset [start] of [text]. *)
Definition region (text : list ascii) (start len : nat) : list ascii :=
  firstn len (skipn start text).

(** [SysInfo_IsOnlyDigits(str, length)] on the region [str]. *)
Fixpoint SysInfo_IsOnlyDigits (str : list ascii) : bool :=
  match str with
  | [] => true
  | c :: str' => if negb (isdigit c) then false else SysInfo_IsOnlyDigits str'
  end.

(** The loop of [SysInfo_CommaSplit], lines 559-580.  [text] is the memory
    of the caller's line, [line] the offset the C pointer [line] has reached
    in it and [line_length] the bytes left from there.  The loop returns at
    the latest when [index] reaches [max_entries - 1], so [max_entries]
    turns are enough ([CommaSplit_returns]). *)
Fixpoint CommaSplit_loop (fuel : nat) (starts lengths : list nat) (max_entries index : nat)
         (text : list ascii) (line line_length : nat) : option (nat * list nat * list nat) :=
  match fuel with
  | 0 => None
  | S fuel' =>
      let comma := memchr (region text line line_length) COMMA in
      let starts := array_set starts index line in
      match comma with
      | Some c =>
          if index =? max_entries - 1
          then Some (index + 1, starts, array_set lengths index line_length)
          else
            let lengths := array_set lengths index c in
            CommaSplit_loop fuel' starts lengths max_entries (index + 1) text
                            (line + c + 1) (line_length - (1 + c))
      | None => Some (index + 1, starts, array_set lengths index line_length)
      end
  end.

(** [SysInfo_CommaSplit(starts, lengths, max_entries, line, line_length)]:
    the entry count and the two arrays afterwards.  [starts] holds offsets
    into [line]. *)
Definition SysInfo_CommaSplit (starts lengths : list nat) (max_entries : nat)
           (line : list ascii) : option (nat * list nat * list nat) :=
  if max_entries =? 0 then Some (0, starts, lengths)
  else CommaSplit_loop max_entries starts lengths max_entries 0 line 0 (length line).

(** The fields a result of [SysInfo_CommaSplit] describes: entry [i] of the
    two arrays for each [i] below the returned count. *)
Definition entries_of (result : nat * list nat * list nat) : list (nat * nat) :=
  let '(count, starts, lengths) := result in
  map (fun i => (nth i starts 0, nth i lengths 0)) (seq 0 count).

(** The bytes of a field of [line]. *)
Definition field_bytes (line : list ascii) (entry : nat * nat) : list ascii :=
  region line (fst entry) (snd entry).

(** ** The record the parsers fill in *)

(** [struct _SysInfo], restricted to the members the log parsers write:
    [char assembly_date[19 + 1]] and [char original_firmware[15 + 1]]. *)
Record SysInfo : Type := mkSysInfo {
  assembly_date : list ascii;
  original_firmware : list ascii
}.

(** The two members have the sizes of their declarations. *)
Definition SysInfo_sized (info : SysInfo) : Prop :=
  length (assembly_date info) = 20 /\ length (original_firmware info) = 16.

(** ** Line parser for inspect.log *)

Definition s_commentUpdated : list ascii := lit "CommentUpdated=".

Definition SysInfoLineParser_InspectLog (info : SysInfo) (line : list ascii) : SysInfo :=
  let length := List.length line in
  if length <? List.length s_commentUpdated then info
  else if negb (Z.eqb (memcmp line s_commentUpdated (List.length s_commentUpdated)) 0) then info
  else
    let length := length - List.length s_commentUpdated in
    let line := skipn (List.length s_commentUpdated) line in
    let length := Nat.min length (20 - 1) in
    let date := memcpy (assembly_date info) 0 (firstn length line) in
    let date := array_set date length NUL in
    {| assembly_date := date; original_firmware := original_firmware info |}.

(** ** Line parser for product.log *)

Definition SIZE_MAX : Z := (2 ^ 32 - 1)%Z.

(** Lines 641-644 and 661-664: advance while bytes remain and the byte
    under [verinfo] is not a space. *)
Fixpoint until_space (line : list ascii) (verinfo remaining : nat) : nat * nat :=
  match remaining with
  | 0 => (verinfo, 0)
  | S remaining' =>
      if negb (Ascii.eqb (nth verinfo line NUL) SPACE)
      then until_space line (verinfo + 1) remaining'
      else (verinfo, remaining)
  end.

(** Lines 648-651: advance while bytes remain and the byte under
    [verinfo] is a space. *)
Fixpoint while_space (line : list ascii) (verinfo remaining : nat) : nat * nat :=
  match remaining with
  | 0 => (verinfo, 0)
  | S remaining' =>
      if Ascii.eqb (nth verinfo line NUL) SPACE
      then while_space line (verinfo + 1) remaining'
      else (verinfo, remaining)
  end.

Definition SysInfoLineParser_ProductLog (info : SysInfo) (line : list ascii) : SysInfo :=
  match SysInfo_CommaSplit (repeat 0 10) (repeat 0 10) 10 line with
  | None => info
  | Some (entry_count, entries, entry_lengths) =>
      if entry_count <? 2 then info
      else if (nth 0 entry_lengths 0 =? 0)
              || negb (SysInfo_IsOnlyDigits (region line (nth 0 entries 0) (nth 0 entry_lengths 0)))
      then info
      else if (nth 1 entry_lengths 0 =? 8)
              && (Z.eqb (memcmp (skipn (nth 1 entries 0) line) (lit "DataList") 8) 0)
      then
        if (entry_count <? 8) || negb (nth 2 entry_lengths 0 =? 2)
           || negb (Z.eqb (memcmp (skipn (nth 2 entries 0) line) (lit "OK") 2) 0)
        then info
        else
          let verinfo := nth 7 entries 0 in
          let remaining := nth 7 entry_lengths 0 in
          if (remaining <? 4) || negb (Z.eqb (memcmp (skipn verinfo line) (lit "nup:") 4) 0)
          then info
          else
            let verinfo := verinfo + 4 in
            let remaining := remaining - 4 in
            let nup_start := verinfo in
            let '(verinfo, remaining) := until_space line verinfo remaining in
            let nup_end := verinfo in
            let '(verinfo, remaining) := while_space line verinfo remaining in
            if (remaining <? 4) || negb (Z.eqb (memcmp (skipn verinfo line) (lit "cup:") 4) 0)
            then info
            else
              let verinfo := verinfo + 4 in
              let remaining := remaining - 4 in
              let cup_start := verinfo in
              let '(verinfo, remaining) := until_space line verinfo remaining in
              let cup_end := verinfo in
              let nup_length := nup_end - nup_start in
              let cup_length := cup_end - cup_start in
              let sum := ((Z.of_nat nup_length + Z.of_nat cup_length) mod 2 ^ 32)%Z in
              if (sum <? Z.of_nat nup_length)%Z then info
              else if (sum >? SIZE_MAX - 1 - 1)%Z then info
              else if ((Z.of_nat cup_length + 1 + Z.of_nat nup_length + 1) mod 2 ^ 32 >? 16)%Z
              then info
              else
                let firmware := memcpy (original_firmware info) 0 (region line cup_start cup_length) in
                let firmware := array_set firmware cup_length DASH in
                let firmware := memcpy firmware (cup_length + 1) (region line nup_start nup_length) in
                let firmware := array_set firmware (cup_length + 1 + nup_length) NUL in
                {| assembly_date := assembly_date info; original_firmware := firmware |}
      else info
  end.

(** The record as [GetSysInfo_TWLN] sets it up before the logs are read:
    both members hold ["<unknown>"], the rest of each array is whatever the
    stack held (taken as zero bytes here). *)
Definition unknown_info : SysInfo :=
  {| assembly_date := lit "<unknown>" ++ repeat NUL 11;
     original_firmware := lit "<unknown>" ++ repeat NUL 7 |}.

(** ** A byte-at-a-time reading of the line splitter

    The splitter as a machine that is fed the stream one byte at a time.
    Its state is the state of the C loop between two reads: the unfinished
    line at the start of the buffer, [skip_line], [prev_cr] and the
    consumer's context.  It is the yardstick the loops above are measured
    against ([ParseText_bytes]); nothing of it is assumed. *)

Definition is_terminator (b : ascii) : bool := Ascii.eqb b CR || Ascii.eqb b LF.

Definition no_terminator (l : list ascii) : Prop :=
  Forall (fun b => is_terminator b = false) l.

Section LineMachine.

Variable Ctx : Type.
Variable line_parser : Ctx -> list ascii -> Ctx.

Definition scan_state : Type := list ascii * bool * bool * Ctx.

Definition unfinished (s : scan_state) : list ascii := fst (fst (fst s)).

(** One byte through the search of the inner loop. *)
Definition search (s : scan_state) (b : ascii) : scan_state :=
  let '(line, skip_line, prev_cr, context) := s in
  if is_terminator b
  then ([], false, Ascii.eqb b CR,
        if negb skip_line
           && (negb (length line =? 0) || negb (Ascii.eqb b LF) || negb prev_cr)
        then line_parser context line else context)
  else (line ++ [b], skip_line, prev_cr, context).

(** The reset of a full buffer at the head of the main loop. *)
Definition settle (s : scan_state) : scan_state :=
  let '(line, skip_line, prev_cr, context) := s in
  if length line =? BUFFER_SIZE then ([], true, prev_cr, context) else s.

Definition feed (s : scan_state) (b : ascii) : scan_state := settle (search s b).

Definition finish (s : scan_state) : Ctx :=
  let '(line, _, _, context) := s in final_flush line_parser line context.

(** The splitter on a stream of bytes, however it is cut into reads. *)
Definition split_bytes (input : list ascii) (context : Ctx) : Ctx :=
  finish (fold_left feed input ([], false, false, context)).

End LineMachine.

Arguments unfinished {Ctx} s.
Arguments search {Ctx} line_parser s b.
Arguments settle {Ctx} s.
Arguments feed {Ctx} line_parser s b.
Arguments finish {Ctx} line_parser s.
Arguments split_bytes {Ctx} line_parser input context.

(** The bytes [SysInfo_ParseText] gets to see: the batches up to the first
    failing or empty read. *)
Fixpoint file_bytes (file : FIL) : list ascii :=
  match file with
  | Data (b :: bytes) :: rest => (b :: bytes) ++ file_bytes rest
  | _ => []
  end.

(** The lines reported when the machine starts at the beginning of a line
    with the given [prev_cr]. *)
Definition lines_from (prev_cr : bool) (input : list ascii) : list (list ascii) :=
  finish record_line (fold_left (feed record_line) input ([], false, prev_cr, [])).

(** A state of the recording machine seen by another consumer: the lines
    recorded so far have been handed to it in order. *)
Definition retell {Ctx : Type} (line_parser : Ctx -> list ascii -> Ctx) (context : Ctx)
           (s : scan_state (list (list ascii))) : scan_state Ctx :=
  let '(line, skip_line, prev_cr, seen) := s in
  (line, skip_line, prev_cr, fold_left line_parser seen context).

(** A stream prefix after which a new line starts: nothing at all, or bytes
    ending in a terminator. *)
Definition line_start (pre : list ascii) : Prop :=
  pre = [] \/ exists (p : list ascii) (t : ascii), pre = p ++ [t] /\ is_terminator t = true.

(** Line contents each followed by the terminator [term]. *)
Definition terminated (term : list ascii) (contents : list (list ascii)) : list ascii :=
  concat (map (fun l => l ++ term) contents).

(** Line contents with the terminator [term] between neighbours only. *)
Fixpoint joined (term : list ascii) (contents : list (list ascii)) : list ascii :=
  match contents with
  | [] => []
  | [l] => l
  | l :: rest => l ++ term ++ joined term rest
  end.

(** What is reported for [joined]: every content but the last as it is, and
    the last one when it has bytes. *)
Fixpoint joined_lines (contents : list (list ascii)) : list (list ascii) :=
  match contents with
  | [] => []
  | [l] => if 0 <? length l then [l] else []
  | l :: rest => l :: joined_lines rest
  end.

(** Line content that the buffer can hold together with its terminator. *)
Definition fits (l : list ascii) : Prop :=
  no_terminator l /\ length l < BUFFER_SIZE.

(** ** The tokenizer without its arrays

    The entries [SysInfo_CommaSplit] writes, as a list: [left] is the number
    of entries that may still follow the current one.  [CommaSplit_entries]
    shows that the arrays hold exactly these. *)
Fixpoint comma_entries (left : nat) (text : list ascii) (line line_length : nat)
  : list (nat * nat) :=
  match memchr (region text line line_length) COMMA, left with
  | Some c, S left' =>
      (line, c) :: comma_entries left' text (line + c + 1) (line_length - (1 + c))
  | _, _ => [(line, line_length)]
  end.

(** The same on the bytes alone. *)
Fixpoint comma_fields (left : nat) (l : list ascii) : list (list ascii) :=
  match memchr l COMMA, left with
  | Some c, S left' => firstn c l :: comma_fields left' (skipn (c + 1) l)
  | _, _ => [l]
  end.

(** The fields [SysInfo_CommaSplit] returns, as byte strings. *)
Definition CommaSplit_fields (starts lengths : list nat) (max_entries : nat)
           (line : list ascii) : option (list (list ascii)) :=
  option_map (fun result => map (field_bytes line) (entries_of result))
             (SysInfo_CommaSplit starts lengths max_entries line).

Definition no_comma (l : list ascii) : Prop :=
  Forall (fun b => Ascii.eqb b COMMA = false) l.

Definition no_space (l : list ascii) : Prop :=
  Forall (fun b => Ascii.eqb b SPACE = false) l.

Definition all_space (l : list ascii) : Prop :=
  Forall (fun b => b = SPACE) l.

(** ** What the parser for product.log accepts *)

(** A record of the kind the parser looks for: a non-empty number, then
    ["DataList"], then ["OK"], and at least five more fields. *)
Definition data_list_record (fields : list (list ascii)) : Prop :=
  8 <= length fields /\
  nth 0 fields [] <> [] /\ SysInfo_IsOnlyDigits (nth 0 fields []) = true /\
  nth 1 fields [] = lit "DataList" /\ nth 2 fields [] = lit "OK".

(** The format of its eighth field, ["nup:20U cup:9.0.0 preInstall:RA1"]:
    [nup] and [cup] run up to the next space or the end of the field, and
    at least one space stands between [nup] and ["cup:"]. *)
Definition version_info (field nup sp cup tail : list ascii) : Prop :=
  field = lit "nup:" ++ nup ++ sp ++ lit "cup:" ++ cup ++ tail /\
  no_space nup /\ sp <> [] /\ all_space sp /\ no_space cup /\
  (tail = [] \/ exists tail', tail = SPACE :: tail').

(** The array [original_firmware] after ["cup-nup"] and its terminator have
    been written over its start. *)
Definition firmware_value (old cup nup : list ascii) : list ascii :=
  cup ++ DASH :: nup ++ NUL :: skipn (length cup + 1 + length nup + 1) old.

(** ** Further notions for the line splitter *)

(** A state of the recording machine in which the unfinished line and all
    recorded lines are free of terminators and shorter than the buffer. *)
Definition tidy (s : scan_state (list (list ascii))) : Prop :=
  let '(line, _, _, seen) := s in
  fits line /\ Forall fits seen.


(** What is left of a stream without terminators after every full buffer
    has been discarded. *)
Definition overflow_tail (l : list ascii) : list ascii :=
  skipn (BUFFER_SIZE * (length l / BUFFER_SIZE)) l.


(** The ways a line can end. *)
Inductive line_end : Type := EndLF | EndCR | EndCRLF.

Definition line_end_bytes (e : line_end) : list ascii :=
  match e with
  | EndLF => [LF]
  | EndCR => [CR]
  | EndCRLF => [CR; LF]
  end.

Definition ends_in_cr (e : line_end) : bool :=
  match e with
  | EndCR => true
  | _ => false
  end.

(** Line contents, each followed by a terminator of its own. *)
Definition mixed (lines : list (list ascii * line_end)) : list ascii :=
  concat (map (fun le => fst le ++ line_end_bytes (snd le)) lines).

(** No empty line that ends in a bare LF comes directly after a line that
    ends in a bare CR: the two terminators would read as one CR LF. *)
Fixpoint separable (prev_cr : bool) (lines : list (list ascii * line_end)) : Prop :=
  match lines with
  | [] => True
  | (l, e) :: rest =>
      ~ (prev_cr = true /\ l = [] /\ e = EndLF) /\ separable (ends_in_cr e) rest
  end.


(** The number of commas of a line. *)
Definition commas (l : list ascii) : nat :=
  length (filter (fun b => Ascii.eqb b COMMA) l).


(** ** The caller of the two parsers *)

(** [strncpy(dst, src, n)]: the characters of the string at [src] up to its
    terminator, at most [n] of them, then zero bytes until [n] bytes have
    been written.  [src] is the memory the pointer refers to. *)
Definition strncpy (dst src : list ascii) (n : nat) : list ascii :=
  let s := cstring (firstn n src) in
  s ++ repeat NUL (n - length s) ++ skipn n dst.

(** The array a string literal occupies, terminator included. *)
Definition literal (s : string) : list ascii := lit s ++ [NUL].

(** [GetSysInfo_TWLN], lines 688-710.  Whether [fvx_open] succeeds on each
    of the two paths is given from outside: a log is [Some file] when it
    could be opened and [None] otherwise. *)
Definition GetSysInfo_TWLN (info : SysInfo) (inspect_log product_log : option FIL)
  : option SysInfo :=
  let info :=
    {| assembly_date := strncpy (assembly_date info) (literal "<unknown>") 10;
       original_firmware := original_firmware info |} in
  let info :=
    {| assembly_date := assembly_date info;
       original_firmware := strncpy (original_firmware info) (literal "<unknown>") 10 |} in
  match
    match inspect_log with
    | Some file => SysInfo_ParseText file SysInfoLineParser_InspectLog info
    | None => Some info
    end
  with
  | None => None
  | Some info =>
      match product_log with
      | Some file => SysInfo_ParseText file SysInfoLineParser_ProductLog info
      | None => Some info
      end
  end.


(** A line that is not a record of the kind the parser for product.log
    looks for. *)
Definition not_a_record (line : list ascii) : Prop :=
  (Z.of_nat (length line) <= SIZE_MAX)%Z /\
  exists fields : list (list ascii),
    CommaSplit_fields (repeat 0 10) (repeat 0 10) 10 line = Some fields /\
    ~ data_list_record fields.


(** ** Decoding a card identification register *)

Module Sdmmc.

(** [struct sdmmc_cid].  Bytes and characters are numbers below 256.  The
    two-byte union of [oemid] and [appid] is held as its two bytes, and the
    one-byte union of [prv] with its two bit-fields as [prv]. *)
Record sdmmc_cid : Type := mk_cid {
  manfid : Z;
  oemid : list Z;
  name : list Z;
  prv : Z;
  serial : Z;
  date_yr : Z;
  date_mon : Z;
  manufacturer : option string
}.

(** The element [cid[i]] of the register. *)
Definition byte_at (cid : list Z) (i : nat) : Z := nth i cid 0%Z.

(** A [for (int i = 0; i < n; i++) a[i] = f(i);] loop. *)
Definition fill (a : list Z) (n : nat) (f : nat -> Z) : list Z :=
  fold_left (fun a i => array_set a i (f i)) (seq 0 n) a.

(** The character kept for a byte of a name: ['?'] for a control character
    and for [0xFF]. *)
Definition name_char (c : Z) : Z :=
  if (c <? 32)%Z || (c =? 255)%Z then 63%Z else c.

Section Decode.

(** The accessors of [common.h] for integers stored in memory: given the
    bytes from the pointer on.  Their definitions are not part of the
    sources at hand; the decoder is modelled for any such functions. *)
Variable getle16 : list Z -> Z.
Variable getle32 : list Z -> Z.
Variable getbe16 : list Z -> Z.

Definition sd_manufacturer (manfid : Z) (oemid : list Z) : option string :=
  match manfid with
  | 0 => Some "Fake!!"%string
  | 1 => Some "Panasonic"%string
  | 2 => Some "Toshiba"%string
  | 3 => Some (if (getbe16 oemid =? 22340)%Z then "Western Digital"%string else "SanDisk"%string)
  | 5 => Some "Fake?"%string
  | 6 => Some "Ritek"%string
  | 9 => Some "ATP"%string
  | 19 => Some "Kingmax"%string
  | 25 => Some "Dynacard"%string
  | 26 => Some "Power Quotient"%string
  | 27 => Some "Samsung"%string
  | 29 => Some "AData"%string
  | 39 => Some "Phison"%string
  | 40 => Some "Barun Electronics/Lexar"%string
  | 49 => Some "Silicon Power"%string
  | 65 => Some "Kingston"%string
  | 81 => Some "STEC"%string
  | 97 => Some "Netlist"%string
  | 99 => Some "Cactus"%string
  | 115 => Some "Bongiovi"%string
  | 116 => Some "Transcend(?)"%string
  | 118 => Some "PNY(?)"%string
  | 130 => Some "Jiang Tay"%string
  | 131 => Some "Netcom"%string
  | 132 => Some "Strontium"%string
  | 156 => Some (if (getbe16 oemid =? 21327)%Z then "Sony"%string else "Barun Electronics/Lexar"%string)
  | 159 => Some "Taishin"%string
  | 173 => Some "Longsys"%string
  | _ => None
  end%Z.

Definition emmc_manufacturer (manfid : Z) : option string :=
  match manfid with
  | 17 => Some "Toshiba"%string
  | 21 => Some "Samsung"%string
  | 144 => Some "SK Hynix"%string
  | _ => None
  end%Z.

(** [sdmmc_decode_cid(emmc, cid, out)], lines 326-399: the structure [out]
    afterwards.  Members the function does not write keep what [out]
    held. *)
Definition sdmmc_decode_cid (emmc : bool) (cid : list Z) (out : sdmmc_cid) : sdmmc_cid :=
  if negb emmc then
    let manfid := byte_at cid 14 in
    let oemid := fill (oemid out) 2 (fun i => name_char (byte_at cid (13 - i))) in
    let name := fill (name out) 5 (fun i => name_char (byte_at cid (11 - i))) in
    let prv := byte_at cid 6 in
    let serial := getle32 (skipn 2 cid) in
    let date_yr :=
      ((Z.land (Z.shiftr (getle16 (skipn 0 cid)) 4) 255 + 2000) mod 2 ^ 16)%Z in
    let date_mon := (Z.land (getle16 (skipn 0 cid)) 15 mod 2 ^ 8)%Z in
    {| manfid := manfid; oemid := oemid; name := name; prv := prv; serial := serial;
       date_yr := date_yr; date_mon := date_mon;
       manufacturer := sd_manufacturer manfid oemid |}
  else
    let manfid := byte_at cid 14 in
    (* appid = cid[12], a 16-bit store into the union, low byte first *)
    let oemid := array_set (array_set (oemid out) 0 (byte_at cid 12)) 1 0%Z in
    let name := fill (name out) 6 (fun i => name_char (byte_at cid (11 - i))) in
    let prv := byte_at cid 5 in
    let serial := getle32 (skipn 1 cid) in
    let date_mon := Z.land (Z.shiftr (byte_at cid 0) 4) 15 in
    let date_yr := ((Z.land (byte_at cid 0) 15 + 1997) mod 2 ^ 16)%Z in
    let date_yr := if (date_yr <? 2010)%Z then ((date_yr + 16) mod 2 ^ 16)%Z else date_yr in
    {| manfid := manfid; oemid := oemid; name := name; prv := prv; serial := serial;
       date_yr := date_yr; date_mon := date_mon;
       manufacturer := emmc_manufacturer manfid |}.

End Decode.



End Sdmmc.


(** ** Formatted output *)

(** The character of a decimal digit. *)
Definition digit_char (d : nat) : ascii := ascii_of_nat (48 + d).

Fixpoint decimal_fuel (fuel n : nat) : list ascii :=
  match fuel with
  | 0 => []
  | S fuel' =>
      if n <? 10 then [digit_char n]
      else decimal_fuel fuel' (n / 10) ++ [digit_char (n mod 10)]
  end.

(** The decimal digits of an [unsigned], which has at most ten of them. *)
Definition decimal (n : nat) : list ascii := decimal_fuel 10 n.

(** The conversion [%0<width>u]. *)
Definition zero_padded (width n : nat) : list ascii :=
  repeat "0"%char (width - length (decimal n)) ++ decimal n.

(** [snprintf(dst, size, ...)] once the text to print is known: at most
    [size - 1] characters of it and a terminator are stored. *)
Definition snprintf (dst : list ascii) (size : nat) (text : list ascii) : list ascii :=
  match size with
  | 0 => dst
  | S room => array_set (memcpy dst 0 (firstn room text)) (length (firstn room text)) NUL
  end.

(** The number a string of decimal digits stands for. *)
Definition digits_value (l : list ascii) : nat :=
  fold_left (fun acc c => 10 * acc + (nat_of_ascii c - 48)) l 0.

(** ** The date in the OTP *)

Module Otp.

(** The six bytes of the time stamp in [struct Otp] (declared in a header
    that is not among the sources at hand). *)
Record Otp : Type := mk_otp {
  timestampYear : nat;
  timestampMonth : nat;
  timestampDay : nat;
  timestampHour : nat;
  timestampMinute : nat;
  timestampSecond : nat
}.

(** The time stamp holds bytes. *)
Definition bytes (otp : Otp) : Prop :=
  timestampYear otp < 256 /\ timestampMonth otp < 256 /\ timestampDay otp < 256 /\
  timestampHour otp < 256 /\ timestampMinute otp < 256 /\ timestampSecond otp < 256.

(** The text of ["%04u/%02hhu/%02hhu %02hhu:%02hhu:%02hhu"]. *)
Definition stamp (year month day hour minute second : nat) : list ascii :=
  zero_padded 4 year ++ lit "/" ++ zero_padded 2 (month mod 256) ++ lit "/"
    ++ zero_padded 2 (day mod 256) ++ lit " " ++ zero_padded 2 (hour mod 256) ++ lit ":"
    ++ zero_padded 2 (minute mod 256) ++ lit ":" ++ zero_padded 2 (second mod 256).

(** [GetSysInfo_OTP], lines 119-147: the member [soc_date] afterwards, given
    what it held and the OTP. *)
Definition GetSysInfo_OTP (soc_date : list ascii) (otp : Otp) : list ascii :=
  let soc_date := strncpy soc_date (literal "<unknown>") 10 in
  let year := timestampYear otp + 1900 in
  if year <? 2000 then soc_date
  else if (timestampMonth otp =? 0) || (12 <? timestampMonth otp) then soc_date
  else if (timestampDay otp =? 0) || (31 <? timestampDay otp) then soc_date
  else if 24 <=? timestampHour otp then soc_date
  else if 60 <=? timestampMinute otp then soc_date
  else if 61 <=? timestampSecond otp then soc_date
  else snprintf soc_date 20
                (stamp year (timestampMonth otp) (timestampDay otp)
                       (timestampHour otp) (timestampMinute otp) (timestampSecond otp)).

(** The ranges the function asks of a time stamp. *)
Definition plausible (otp : Otp) : Prop :=
  100 <= timestampYear otp /\
  1 <= timestampMonth otp <= 12 /\ 1 <= timestampDay otp <= 31 /\
  timestampHour otp < 24 /\ timestampMinute otp < 60 /\ timestampSecond otp <= 60.

End Otp.


(** ** The serial number in SecureInfo *)

Module Secure.

(** The strings of [language.h] that [salesRegion] returns, by name. *)
Inductive region_string : Type :=
  | STR_REGION_JAPAN | STR_REGION_AMERICAS | STR_REGION_EUROPE | STR_REGION_CHINA
  | STR_REGION_KOREA | STR_REGION_TAIWAN | STR_REGION_UNITED_KINGDOM
  | STR_REGION_MIDDLE_EAST | STR_REGION_AUSTRALIA | STR_REGION_BRAZIL
  | STR_REGION_UNKNOWN.

(** [salesRegion], lines 34-50. *)
Definition salesRegion (serial_char : ascii) : region_string :=
  match serial_char with
  | "J" => STR_REGION_JAPAN
  | "W" => STR_REGION_AMERICAS
  | "E" => STR_REGION_EUROPE
  | "C" => STR_REGION_CHINA
  | "K" => STR_REGION_KOREA
  | "T" => STR_REGION_TAIWAN
  | "U" => STR_REGION_UNITED_KINGDOM
  | "S" => STR_REGION_MIDDLE_EAST
  | "A" => STR_REGION_AUSTRALIA
  | "B" => STR_REGION_BRAZIL
  | _ => STR_REGION_UNKNOWN
  end%char.

(** The members of [SecureInfo] the function reads: [u8 region] and
    [char serial[0xF]]. *)
Record SecureInfo : Type := mk_secure {
  data_region : nat;
  data_serial : list ascii
}.

(** The members of [struct _SysInfo] the function reads and writes:
    [int_model], [sub_model[15 + 1]], [serial[15 + 1]],
    [system_region[64 + 1]] and [sales_region[64 + 1]]. *)
Record fields : Type := mk_fields {
  int_model : nat;
  sub_model : list ascii;
  serial : list ascii;
  system_region : list ascii;
  sales_region : list ascii
}.

(** The local variables of the loop over the serial number. *)
Record serial_scan : Type := mk_scan {
  got_serial : bool;
  second_letter : ascii;
  first_digit : ascii;
  second_digit : ascii;
  digits : nat;
  letters : nat;
  odds : nat;
  evens : nat
}.

Definition scan_start : serial_scan :=
  {| got_serial := true; second_letter := NUL; first_digit := NUL; second_digit := NUL;
     digits := 0; letters := 0; odds := 0; evens := 0 |}.

(** Lines 208-228: what the loop notes of a printable character.  The
    counters are [unsigned]; each grows by at most 9 for a character and the
    loop sees at most 15, so no wrap-around is written out. *)
Definition note_char (st : serial_scan) (ch : ascii) : serial_scan :=
  if (48 <=? nat_of_ascii ch) && (nat_of_ascii ch <=? 57) then
    let digits := digits st + 1 in
    {| got_serial := got_serial st;
       second_letter := second_letter st;
       first_digit := if digits =? 1 then ch else first_digit st;
       second_digit :=
         if digits =? 1 then second_digit st
         else if digits =? 2 then ch else second_digit st;
       digits := digits;
       letters := letters st;
       odds := if negb (digits mod 2 =? 0) then odds st + (nat_of_ascii ch - 48) else odds st;
       evens := if negb (digits mod 2 =? 0) then evens st
                else evens st + (nat_of_ascii ch - 48) |}
  else
    let letters := letters st + 1 in
    {| got_serial := got_serial st;
       second_letter := if letters =? 2 then ch else second_letter st;
       first_digit := first_digit st;
       second_digit := second_digit st;
       digits := digits st;
       letters := letters;
       odds := odds st;
       evens := evens st |}.

(** The loop of lines 199-229, from index [x] on, with [steps] turns left.
    [serial] is [info->serial].  A byte below [' '] or above ['~'] ends the
    loop with [got_serial] cleared; whether [char] is signed or not, these
    are the bytes outside 32..126. *)
Fixpoint scan_serial (steps x : nat) (data : list ascii) (serial : list ascii)
         (st : serial_scan) : list ascii * serial_scan :=
  match steps with
  | 0 => (serial, st)
  | S steps' =>
      let ch := nth x data NUL in
      let serial := array_set serial x ch in
      if Ascii.eqb ch NUL then (serial, st)
      else if (nat_of_ascii ch <? 32) || (126 <? nat_of_ascii ch) then
        (serial,
         {| got_serial := false; second_letter := second_letter st;
            first_digit := first_digit st; second_digit := second_digit st;
            digits := digits st; letters := letters st;
            odds := odds st; evens := evens st |})
      else scan_serial steps' (x + 1) data serial (note_char st ch)
  end.

(** Lines 239-247: the check digit for the sums of the digits. *)
Definition check_digit (odds evens : nat) : ascii :=
  let check_value := 10 - ((3 * evens + odds) mod 10) in
  if check_value =? 10 then "0"%char else ascii_of_nat (check_value + 48).

Section GetSysInfo.

(** What the function takes from elsewhere: [regionNameLong] and
    [SMDH_NUM_REGIONS] of [region.h], the text of the strings of
    [language.h], and the unit type macros and model numbers of
    [unittype.h].  Strings are given as the memory they occupy. *)
Variable regionNameLong : nat -> list ascii.
Variable SMDH_NUM_REGIONS : nat.
Variable region_text : region_string -> list ascii.
Variable IS_DEVKIT : bool.
Variable IS_O3DS : bool.
Variable MODEL_OLD_3DS : nat.
Variable MODEL_OLD_3DS_XL : nat.
Variable MODEL_NEW_3DS : nat.

(** Lines 256-277. *)
Definition choose_sub_model (info_int_model : nat) (sub_model : list ascii)
           (first_digit second_digit : ascii) : list ascii :=
  if negb (Ascii.eqb first_digit NUL) && negb (Ascii.eqb second_digit NUL) then
    if IS_DEVKIT then
      if Ascii.eqb first_digit "9" && Ascii.eqb second_digit "0"
         && (info_int_model =? MODEL_OLD_3DS)
      then strncpy sub_model (literal "Partner-CTR") 12
      else if Ascii.eqb first_digit "9" && Ascii.eqb second_digit "1"
              && (info_int_model =? MODEL_OLD_3DS)
      then strncpy sub_model (literal "IS-CTR-BOX") 11
      else if Ascii.eqb first_digit "9" && Ascii.eqb second_digit "1"
              && (info_int_model =? MODEL_OLD_3DS_XL)
      then strncpy sub_model (literal "IS-SPR-BOX") 11
      else if Ascii.eqb first_digit "9" && Ascii.eqb second_digit "1"
              && (info_int_model =? MODEL_NEW_3DS)
      then strncpy sub_model (literal "IS-SNAKE-BOX") 13
      else strncpy sub_model (literal "panda") 16
    else
      if Ascii.eqb first_digit "0" && Ascii.eqb second_digit "1" && negb IS_O3DS
      then strncpy sub_model (literal "press") 6
      else strncpy sub_model (literal "retail") 7
  else sub_model.

(** [GetSysInfo_SecureInfo], lines 151-278.  [secure_A] and [secure_B] are
    what [fvx_qread] yields for the two files: [Some data] when the read
    succeeds and returns all of [sizeof(data)] bytes. *)
Definition GetSysInfo_SecureInfo (info : fields) (secure_A secure_B : option SecureInfo)
  : fields :=
  let sub_model := strncpy (sub_model info) (literal "<unknown>") 10 in
  let serial := strncpy (serial info) (literal "<unknown>") 10 in
  let system_region := strncpy (system_region info) (literal "<unknown>") 10 in
  let sales_region := strncpy (sales_region info) (literal "<unknown>") 10 in
  match (match secure_A with Some data => Some data | None => secure_B end) with
  | None =>
      {| int_model := int_model info; sub_model := sub_model; serial := serial;
         system_region := system_region; sales_region := sales_region |}
  | Some data =>
      let system_region :=
        if data_region data <? SMDH_NUM_REGIONS
        then array_set (strncpy system_region (regionNameLong (data_region data)) 65) 64 NUL
        else system_region in
      let '(serial, st) := scan_serial 15 0 (data_serial data) serial scan_start in
      if negb (got_serial st) then
        {| int_model := int_model info; sub_model := sub_model; serial := serial;
           system_region := system_region; sales_region := sales_region |}
      else
        let serial := strncpy serial (data_serial data) 15 in
        let serial := array_set serial 15 NUL in
        let length := length (cstring serial) in
        let serial :=
          if (length <? 16 - 1) && (digits st =? 8)
          then array_set (array_set serial length (check_digit (odds st) (evens st)))
                         (length + 1) NUL
          else serial in
        let sales_region :=
          if negb (Ascii.eqb (second_letter st) NUL)
          then array_set (strncpy sales_region
                                  (region_text (salesRegion (second_letter st))) 65) 64 NUL
          else sales_region in
        {| int_model := int_model info;
           sub_model := choose_sub_model (int_model info) sub_model
                                         (first_digit st) (second_digit st);
           serial := serial; system_region := system_region;
           sales_region := sales_region |}
  end.

End GetSysInfo.

(** A byte the loop accepts as part of a serial number. *)
Definition printable (c : ascii) : Prop := 32 <= nat_of_ascii c <= 126.

(** The values of the decimal digits of a serial number, in order. *)
Definition serial_digits (s : list ascii) : list nat :=
  map (fun c => nat_of_ascii c - 48) (filter isdigit s).

(** The sum of digits with weights 1 and 3 in turn; [odd_place] tells
    whether the first digit stands at an odd place. *)
Fixpoint checksum (odd_place : bool) (ds : list nat) : nat :=
  match ds with
  | [] => 0
  | d :: rest => (if odd_place then d else 3 * d) + checksum (negb odd_place) rest
  end.

(** The four arrays have the sizes of their declarations. *)
Definition sized (info : fields) : Prop :=
  length (sub_model info) = 16 /\ length (serial info) = 16 /\
  length (system_region info) = 65 /\ length (sales_region info) = 65.

End Secure.



(** * Properties *)

(** ** The C library *)

Lemma ascii_eqb_refl (c : ascii) : Ascii.eqb c c = true.
Proof. apply Ascii.eqb_eq; reflexivity. Qed.

Lemma memchr_here (c : ascii) (s : list ascii) : memchr (c :: s) c = Some 0.
Proof. simpl. now rewrite ascii_eqb_refl. Qed.

Lemma memchr_skip (seg rest : list ascii) (c : ascii) :
  Forall (fun b => Ascii.eqb b c = false) seg ->
  memchr (seg ++ rest) c = option_map (Nat.add (length seg)) (memchr rest c).
Proof.
  induction 1 as [|b seg Hb _ IH]; simpl.
  - now destruct (memchr rest c).
  - rewrite Hb, IH. now destruct (memchr rest c).
Qed.

Lemma memchr_none (seg : list ascii) (c : ascii) :
  Forall (fun b => Ascii.eqb b c = false) seg -> memchr seg c = None.
Proof.
  intros H. rewrite <- (app_nil_r seg), (memchr_skip seg [] c H). reflexivity.
Qed.

Lemma memchr_bound (s : list ascii) (c : ascii) (i : nat) :
  memchr s c = Some i -> i < length s /\ nth_error s i = Some c.
Proof.
  revert i; induction s as [|x s IH]; simpl; intros i H; [discriminate|].
  destruct (Ascii.eqb x c) eqn:E.
  - injection H as <-. apply Ascii.eqb_eq in E; subst. split; [lia|reflexivity].
  - destruct (memchr s c) as [j|]; [|discriminate]. injection H as <-.
    destruct (IH j eq_refl). split; [lia|assumption].
Qed.

Lemma no_terminator_cr (l : list ascii) :
  no_terminator l -> Forall (fun b => Ascii.eqb b CR = false) l.
Proof.
  apply Forall_impl. intros b H. unfold is_terminator in H.
  now apply orb_false_iff in H.
Qed.

Lemma no_terminator_lf (l : list ascii) :
  no_terminator l -> Forall (fun b => Ascii.eqb b LF = false) l.
Proof.
  apply Forall_impl. intros b H. unfold is_terminator in H.
  now apply orb_false_iff in H.
Qed.

Lemma no_terminator_app (l1 l2 : list ascii) :
  no_terminator l1 -> no_terminator l2 -> no_terminator (l1 ++ l2).
Proof. intros; apply Forall_app; split; assumption. Qed.

Lemma is_terminator_cases (b : ascii) :
  is_terminator b = true -> b = CR \/ b = LF.
Proof.
  unfold is_terminator. intros H. apply orb_true_iff in H.
  destruct H as [H|H]; apply Ascii.eqb_eq in H; auto.
Qed.

(** ** The inner loop searches byte by byte *)

Section ScanLines.

Variable Ctx : Type.
Variable line_parser : Ctx -> list ascii -> Ctx.

Lemma scan_lines_terminator (fuel : nat) (line rest : list ascii) (t : ascii)
      (skip_line prev_cr : bool) (context : Ctx) :
  no_terminator line -> is_terminator t = true ->
  scan_lines line_parser (S fuel) (line ++ t :: rest) skip_line prev_cr context =
  scan_lines line_parser fuel rest false (Ascii.eqb t CR)
             (if negb skip_line
                 && (negb (length line =? 0) || negb (Ascii.eqb t LF) || negb prev_cr)
              then line_parser context line else context).
Proof.
  intros Hline Ht.
  pose proof (no_terminator_cr _ Hline) as Hcr.
  pose proof (no_terminator_lf _ Hline) as Hlf.
  cbn [scan_lines].
  rewrite (memchr_skip line (t :: rest) CR Hcr), (memchr_skip line (t :: rest) LF Hlf).
  assert (Hfirst : firstn (length line) (line ++ t :: rest) = line).
  { rewrite firstn_app, Nat.sub_diag, firstn_all. simpl. apply app_nil_r. }
  assert (Hskip : skipn (length line + 1) (line ++ t :: rest) = rest).
  { rewrite skipn_app, skipn_all2 by lia.
    replace (length line + 1 - length line) with 1 by lia. reflexivity. }
  destruct (is_terminator_cases t Ht) as [-> | ->].
  - rewrite memchr_here. cbn [memchr].
    change (Ascii.eqb CR LF) with false. cbv iota.
    destruct (memchr rest LF) as [n|]; cbn [option_map]; rewrite Nat.add_0_r.
    + replace (Nat.min (length line) (length line + S n)) with (length line) by lia.
      rewrite Hfirst, Hskip. unfold reports, ptr_eqb. rewrite Nat.eqb_refl.
      replace (length line =? length line + S n) with false
        by (symmetry; apply Nat.eqb_neq; lia).
      reflexivity.
    + rewrite Hfirst, Hskip. unfold reports, ptr_eqb. rewrite Nat.eqb_refl.
      reflexivity.
  - rewrite memchr_here. cbn [memchr].
    change (Ascii.eqb LF CR) with false. cbv iota.
    destruct (memchr rest CR) as [n|]; cbn [option_map]; rewrite Nat.add_0_r.
    + replace (Nat.min (length line + S n) (length line)) with (length line) by lia.
      rewrite Hfirst, Hskip. unfold reports, ptr_eqb. rewrite Nat.eqb_refl.
      replace (length line =? length line + S n) with false
        by (symmetry; apply Nat.eqb_neq; lia).
      reflexivity.
    + rewrite Hfirst, Hskip. unfold reports, ptr_eqb. rewrite Nat.eqb_refl.
      reflexivity.
Qed.

Lemma scan_lines_unfinished (fuel : nat) (line : list ascii)
      (skip_line prev_cr : bool) (context : Ctx) :
  no_terminator line ->
  scan_lines line_parser (S fuel) line skip_line prev_cr context =
  Some (line, skip_line, prev_cr, context).
Proof.
  intros Hline. cbn [scan_lines].
  rewrite (memchr_none line CR (no_terminator_cr _ Hline)).
  rewrite (memchr_none line LF (no_terminator_lf _ Hline)).
  reflexivity.
Qed.

Lemma scan_lines_search (rest : list ascii) :
  forall (fuel : nat) (line : list ascii) (skip_line prev_cr : bool) (context : Ctx),
    no_terminator line -> length (line ++ rest) < fuel ->
    scan_lines line_parser fuel (line ++ rest) skip_line prev_cr context =
    Some (fold_left (search line_parser) rest (line, skip_line, prev_cr, context)).
Proof.
  induction rest as [|b rest IH]; intros fuel line skip_line prev_cr context Hline Hfuel.
  - rewrite app_nil_r. destruct fuel as [|fuel]; [lia|].
    now apply scan_lines_unfinished.
  - cbn [fold_left]. unfold search at 2.
    destruct (is_terminator b) eqn:Hb.
    + destruct fuel as [|fuel]; [lia|].
      rewrite scan_lines_terminator by assumption.
      apply (IH fuel []); [constructor|].
      rewrite length_app in Hfuel. simpl in *. lia.
    + replace (line ++ b :: rest) with ((line ++ [b]) ++ rest)
        by (rewrite <- app_assoc; reflexivity).
      apply IH.
      * apply no_terminator_app; [assumption|]. constructor; [assumption|constructor].
      * rewrite <- app_assoc. exact Hfuel.
Qed.

End ScanLines.

(** ** The main loop feeds the stream through unchanged *)

Section MainLoop.

Variable Ctx : Type.
Variable line_parser : Ctx -> list ascii -> Ctx.

Lemma search_terminator (line : list ascii) (skip_line prev_cr : bool) (context : Ctx)
      (b : ascii) :
  is_terminator b = true ->
  search line_parser (line, skip_line, prev_cr, context) b
  = ([], false, Ascii.eqb b CR,
     if negb skip_line
        && (negb (length line =? 0) || negb (Ascii.eqb b LF) || negb prev_cr)
     then line_parser context line else context).
Proof. intros H. unfold search. now rewrite H. Qed.

Lemma search_byte (line : list ascii) (skip_line prev_cr : bool) (context : Ctx)
      (b : ascii) :
  is_terminator b = false ->
  search line_parser (line, skip_line, prev_cr, context) b
  = (line ++ [b], skip_line, prev_cr, context).
Proof. intros H. unfold search. now rewrite H. Qed.

Lemma search_unfinished (chunk : list ascii) :
  forall s : scan_state Ctx,
    no_terminator (unfinished s) ->
    no_terminator (unfinished (fold_left (search line_parser) chunk s)) /\
    length (unfinished (fold_left (search line_parser) chunk s))
    <= length (unfinished s) + length chunk.
Proof.
  induction chunk as [|b chunk IH]; intros [[[line skip_line] prev_cr] context] Hline.
  - simpl. split; [assumption|lia].
  - cbn [fold_left]. unfold search at 2 4. destruct (is_terminator b) eqn:Hb.
    + destruct (IH ([], false, Ascii.eqb b CR,
                    if negb skip_line
                       && (negb (length line =? 0) || negb (Ascii.eqb b LF) || negb prev_cr)
                    then line_parser context line else context)) as [H1 H2];
        [constructor|].
      split; [exact H1|]. simpl in *. lia.
    + destruct (IH (line ++ [b], skip_line, prev_cr, context)) as [H1 H2].
      { apply no_terminator_app; [exact Hline|]. constructor; [exact Hb|constructor]. }
      split; [exact H1|]. unfold unfinished in *. simpl in *.
      rewrite length_app in H2. simpl in H2. lia.
Qed.

Lemma settle_room (line : list ascii) (skip_line prev_cr : bool) (context : Ctx) :
  length line <> BUFFER_SIZE ->
  settle (line, skip_line, prev_cr, context) = (line, skip_line, prev_cr, context).
Proof. intros H. unfold settle. apply Nat.eqb_neq in H. now rewrite H. Qed.

Lemma settle_full (line : list ascii) (skip_line prev_cr : bool) (context : Ctx) :
  length line = BUFFER_SIZE ->
  settle (line, skip_line, prev_cr, context) = ([], true, prev_cr, context).
Proof. intros H. unfold settle. apply Nat.eqb_eq in H. now rewrite H. Qed.

Lemma feed_search (chunk : list ascii) :
  forall (line : list ascii) (skip_line prev_cr : bool) (context : Ctx),
    length line < BUFFER_SIZE -> length line + length chunk <= BUFFER_SIZE ->
    fold_left (feed line_parser) chunk (line, skip_line, prev_cr, context) =
    settle (fold_left (search line_parser) chunk (line, skip_line, prev_cr, context)).
Proof.
  induction chunk as [|b chunk IH]; intros line skip_line prev_cr context Hlt Hle.
  - simpl. symmetry. apply settle_room. lia.
  - cbn [fold_left]. unfold feed at 2.
    destruct (is_terminator b) eqn:Hb.
    + rewrite search_terminator by exact Hb.
      rewrite settle_room by (unfold BUFFER_SIZE; simpl; lia).
      apply IH; simpl in *; unfold BUFFER_SIZE in *; lia.
    + rewrite search_byte by exact Hb.
      destruct (Nat.eq_dec (length (line ++ [b])) BUFFER_SIZE) as [Hfull|Hroom].
      * rewrite length_app in Hfull. simpl in Hfull, Hle.
        destruct chunk; [|simpl in Hle; lia].
        cbn [fold_left]. rewrite !settle_full by (rewrite length_app; simpl; lia).
        reflexivity.
      * rewrite settle_room by exact Hroom.
        rewrite length_app in Hroom. simpl in Hroom, Hle.
        apply IH; rewrite length_app; simpl; lia.
Qed.

Lemma file_bytes_data (bytes : list ascii) (rest : FIL) :
  bytes <> [] -> file_bytes (Data bytes :: rest) = bytes ++ file_bytes rest.
Proof. destruct bytes; [congruence|reflexivity]. Qed.

(** One read of a batch: the inner loop sees the unfinished line followed
    by the new bytes, which together fit the buffer. *)
Lemma scan_lines_feed (line chunk : list ascii) (skip_line prev_cr : bool) (context : Ctx) :
  no_terminator line -> length line < BUFFER_SIZE ->
  length line + length chunk <= BUFFER_SIZE ->
  exists (line' : list ascii) (skip_line' prev_cr' : bool) (context' : Ctx),
    scan_lines line_parser (S (length (line ++ chunk))) (line ++ chunk)
               skip_line prev_cr context
    = Some (line', skip_line', prev_cr', context') /\
    no_terminator line' /\ length line' <= BUFFER_SIZE /\
    settle (line', skip_line', prev_cr', context')
    = fold_left (feed line_parser) chunk (line, skip_line, prev_cr, context).
Proof.
  intros Hline Hlt Hle.
  rewrite scan_lines_search by (auto; lia).
  rewrite feed_search by assumption.
  destruct (search_unfinished chunk (line, skip_line, prev_cr, context) Hline) as [H1 H2].
  destruct (fold_left (search line_parser) chunk (line, skip_line, prev_cr, context))
    as [[[line' skip_line'] prev_cr'] context'].
  exists line', skip_line', prev_cr', context'.
  unfold unfinished in *. simpl in *. repeat split; auto. lia.
Qed.

Lemma parse_loop_feed (fuel : nat) :
  forall (file : FIL) (buffer : list ascii) (skip_line prev_cr : bool) (context : Ctx),
    no_terminator buffer -> length buffer <= BUFFER_SIZE ->
    2 * file_size file + 1 + (if length buffer =? BUFFER_SIZE then 1 else 0) <= fuel ->
    parse_loop line_parser fuel file buffer skip_line prev_cr context =
    Some (finish line_parser
            (fold_left (feed line_parser) (file_bytes file)
                       (settle (buffer, skip_line, prev_cr, context)))).
Proof.
  induction fuel as [|fuel IH]; intros file buffer skip_line prev_cr context Hline Hle Hfuel;
    [lia|].
  cbn [parse_loop].
  destruct (Nat.eq_dec (length buffer) BUFFER_SIZE) as [Hfull|Hroom].
  - replace (BUFFER_SIZE - length buffer =? 0) with true
      by (symmetry; apply Nat.eqb_eq; lia).
    rewrite settle_full by exact Hfull.
    rewrite Hfull, Nat.eqb_refl in Hfuel.
    rewrite <- (settle_room [] true prev_cr context) by (unfold BUFFER_SIZE; simpl; lia).
    apply IH; [constructor|simpl; lia|].
    replace (length (@nil ascii) =? BUFFER_SIZE) with false by reflexivity. lia.
  - assert (Hnow : (BUFFER_SIZE - length buffer =? 0) = false) by (apply Nat.eqb_neq; lia).
    rewrite Hnow. rewrite settle_room by exact Hroom.
    assert (Hf : (length buffer =? BUFFER_SIZE) = false) by (now apply Nat.eqb_neq).
    rewrite Hf in Hfuel.
    destruct file as [|[bytes|] rest]; cbn [fvx_read file_bytes fold_left].
    + reflexivity.
    + destruct bytes as [|b bytes].
      * replace (length (@nil ascii) <=? BUFFER_SIZE - length buffer) with true by reflexivity.
        reflexivity.
      * set (chunk := b :: bytes) in *.
        destruct (length chunk <=? BUFFER_SIZE - length buffer) eqn:Hfit.
        -- apply Nat.leb_le in Hfit.
           replace (length chunk =? 0) with false by reflexivity.
           destruct (scan_lines_feed buffer chunk skip_line prev_cr context)
             as (line' & skip_line' & prev_cr' & context' & Hscan & Hline' & Hle' & Hfeed);
             [assumption|lia|lia|].
           rewrite Hscan, fold_left_app, <- Hfeed.
           apply IH; [assumption|assumption|].
           cbn [file_size] in Hfuel.
           destruct (length line' =? BUFFER_SIZE); lia.
        -- apply Nat.leb_gt in Hfit.
           assert (Hlen : length (firstn (BUFFER_SIZE - length buffer) chunk)
                          = BUFFER_SIZE - length buffer)
             by (rewrite length_firstn; lia).
           rewrite Hlen, Hnow.
           destruct (scan_lines_feed buffer (firstn (BUFFER_SIZE - length buffer) chunk)
                                     skip_line prev_cr context)
             as (line' & skip_line' & prev_cr' & context' & Hscan & Hline' & Hle' & Hfeed);
             [assumption|lia|rewrite Hlen; lia|].
           rewrite Hscan.
           rewrite <- (firstn_skipn (BUFFER_SIZE - length buffer) chunk) at 2.
           rewrite <- app_assoc, fold_left_app, <- Hfeed.
           assert (Hrest : skipn (BUFFER_SIZE - length buffer) chunk <> []).
           { intros E. apply (f_equal (@length ascii)) in E.
             rewrite length_skipn in E. cbn [length] in E. lia. }
           rewrite <- (file_bytes_data _ rest Hrest).
           apply IH; [assumption|assumption|].
           cbn [file_size] in *. rewrite length_skipn.
           destruct (length line' =? BUFFER_SIZE); lia.
    + reflexivity.
Qed.

(** [SysInfo_ParseText] returns, and what it has done to the context by
    then is what the byte-at-a-time machine does on the bytes it read. *)
Lemma ParseText_bytes (file : FIL) (context : Ctx) :
  SysInfo_ParseText file line_parser context
  = Some (split_bytes line_parser (file_bytes file) context).
Proof.
  unfold SysInfo_ParseText, split_bytes.
  rewrite parse_loop_feed.
  - rewrite settle_room by (unfold BUFFER_SIZE; simpl; lia). reflexivity.
  - constructor.
  - simpl; lia.
  - replace (length (@nil ascii) =? BUFFER_SIZE) with false by reflexivity. lia.
Qed.

Lemma ParseText_returns (file : FIL) (context : Ctx) :
  exists context', SysInfo_ParseText file line_parser context = Some context'.
Proof. eexists. apply ParseText_bytes. Qed.

End MainLoop.

(** ** Steps of the byte-at-a-time machine *)

Section Feeding.

Variable Ctx : Type.
Variable line_parser : Ctx -> list ascii -> Ctx.

Lemma feed_terminator (line : list ascii) (skip_line prev_cr : bool) (context : Ctx)
      (t : ascii) :
  is_terminator t = true ->
  feed line_parser (line, skip_line, prev_cr, context) t
  = ([], false, Ascii.eqb t CR,
     if negb skip_line
        && (negb (length line =? 0) || negb (Ascii.eqb t LF) || negb prev_cr)
     then line_parser context line else context).
Proof.
  intros H. unfold feed. rewrite search_terminator by exact H. reflexivity.
Qed.

Lemma feed_byte (line : list ascii) (skip_line prev_cr : bool) (context : Ctx) (b : ascii) :
  is_terminator b = false -> S (length line) <> BUFFER_SIZE ->
  feed line_parser (line, skip_line, prev_cr, context) b
  = (line ++ [b], skip_line, prev_cr, context).
Proof.
  intros H Hroom. unfold feed. rewrite search_byte by exact H.
  apply settle_room. rewrite length_app. simpl. lia.
Qed.

Lemma feed_byte_full (line : list ascii) (skip_line prev_cr : bool) (context : Ctx)
      (b : ascii) :
  is_terminator b = false -> S (length line) = BUFFER_SIZE ->
  feed line_parser (line, skip_line, prev_cr, context) b = ([], true, prev_cr, context).
Proof.
  intros H Hfull. unfold feed. rewrite search_byte by exact H.
  apply settle_full. rewrite length_app. simpl. lia.
Qed.

(** A piece of line content that fits is simply collected. *)
Lemma feed_content (l : list ascii) :
  forall (line : list ascii) (skip_line prev_cr : bool) (context : Ctx),
    no_terminator l -> length line + length l < BUFFER_SIZE ->
    fold_left (feed line_parser) l (line, skip_line, prev_cr, context)
    = (line ++ l, skip_line, prev_cr, context).
Proof.
  induction l as [|b l IH]; intros line skip_line prev_cr context Hl Hfit.
  - now rewrite app_nil_r.
  - inversion Hl as [|? ? Hb Hl']; subst. cbn [fold_left]. simpl in Hfit.
    rewrite feed_byte by (auto; lia).
    rewrite IH by (auto; rewrite length_app; simpl; lia).
    now rewrite <- app_assoc.
Qed.

(** Line content that reaches the end of the buffer leaves the machine
    skipping, with nothing reported. *)
Lemma feed_overflow (l : list ascii) :
  forall (line : list ascii) (skip_line prev_cr : bool) (context : Ctx),
    no_terminator l -> length line < BUFFER_SIZE ->
    exists (line' : list ascii) (skip_line' : bool),
      fold_left (feed line_parser) l (line, skip_line, prev_cr, context)
      = (line', skip_line', prev_cr, context) /\
      length line' < BUFFER_SIZE /\
      (skip_line = true -> skip_line' = true) /\
      (BUFFER_SIZE <= length line + length l -> skip_line' = true).
Proof.
  induction l as [|b l IH]; intros line skip_line prev_cr context Hl Hlt.
  - exists line, skip_line. simpl. repeat split; auto. lia.
  - inversion Hl as [|? ? Hb Hl']; subst. cbn [fold_left].
    destruct (Nat.eq_dec (S (length line)) BUFFER_SIZE) as [Hfull|Hroom].
    + rewrite feed_byte_full by assumption.
      destruct (IH [] true prev_cr context Hl') as (line' & skip_line' & E & H1 & H2 & _).
      { unfold BUFFER_SIZE; simpl; lia. }
      exists line', skip_line'. repeat split; auto.
    + rewrite feed_byte by assumption.
      destruct (IH (line ++ [b]) skip_line prev_cr context Hl')
        as (line' & skip_line' & E & H1 & H2 & H3).
      { rewrite length_app; simpl; lia. }
      exists line', skip_line'. repeat split; auto.
      intros H. apply H3. rewrite length_app. simpl in *. lia.
Qed.

End Feeding.

(** ** Every consumer sees the recorded lines *)

Section Retelling.

Variable Ctx : Type.
Variable line_parser : Ctx -> list ascii -> Ctx.

Lemma feed_retell (context : Ctx) (b : ascii) (s : scan_state (list (list ascii))) :
  feed line_parser (retell line_parser context s) b
  = retell line_parser context (feed record_line s b).
Proof.
  destruct s as [[[line skip_line] prev_cr] seen]. unfold retell at 1.
  destruct (is_terminator b) eqn:Hb.
  - rewrite !feed_terminator by exact Hb. unfold retell.
    destruct (negb skip_line
              && (negb (length line =? 0) || negb (Ascii.eqb b LF) || negb prev_cr));
      [|reflexivity].
    unfold record_line. rewrite fold_left_app. reflexivity.
  - destruct (Nat.eq_dec (S (length line)) BUFFER_SIZE) as [Hfull|Hroom].
    + rewrite !feed_byte_full by assumption. reflexivity.
    + rewrite !feed_byte by assumption. reflexivity.
Qed.

Lemma fold_feed_retell (context : Ctx) (input : list ascii) :
  forall s : scan_state (list (list ascii)),
    fold_left (feed line_parser) input (retell line_parser context s)
    = retell line_parser context (fold_left (feed record_line) input s).
Proof.
  induction input as [|b input IH]; intros s; [reflexivity|].
  cbn [fold_left]. rewrite feed_retell. apply IH.
Qed.

Lemma finish_retell (context : Ctx) (s : scan_state (list (list ascii))) :
  finish line_parser (retell line_parser context s)
  = fold_left line_parser (finish record_line s) context.
Proof.
  destruct s as [[[line skip_line] prev_cr] seen]. unfold retell, finish, final_flush.
  destruct (0 <? length line); [|reflexivity].
  unfold record_line. rewrite fold_left_app. reflexivity.
Qed.

(** Any consumer is handed exactly the recorded lines, in order. *)
Lemma split_bytes_lines (input : list ascii) (context : Ctx) :
  split_bytes line_parser input context
  = fold_left line_parser (split_bytes record_line input []) context.
Proof.
  unfold split_bytes.
  change ([], false, false, context)
    with (retell line_parser context ([], false, false, [])).
  rewrite fold_feed_retell. apply finish_retell.
Qed.

End Retelling.

Lemma record_lines (ls seen : list (list ascii)) : fold_left record_line ls seen = seen ++ ls.
Proof.
  revert seen; induction ls as [|l ls IH]; intros seen; simpl.
  - now rewrite app_nil_r.
  - rewrite IH. unfold record_line. now rewrite <- app_assoc.
Qed.

(** From the start of a line on, what was recorded before only sits in
    front of what is recorded afterwards. *)
Lemma lines_from_seen (prev_cr : bool) (seen : list (list ascii)) (input : list ascii) :
  finish record_line (fold_left (feed record_line) input ([], false, prev_cr, seen))
  = seen ++ lines_from prev_cr input.
Proof.
  change ([], false, prev_cr, seen) with (retell record_line seen ([], false, prev_cr, [])).
  rewrite fold_feed_retell, finish_retell, record_lines. reflexivity.
Qed.

(** [SysInfo_lines] is the sequence of invocations of any consumer. *)
Lemma ParseText_lines {Ctx : Type} (line_parser : Ctx -> list ascii -> Ctx)
      (file : FIL) (context : Ctx) :
  SysInfo_ParseText file line_parser context
  = option_map (fun ls => fold_left line_parser ls context) (SysInfo_lines file).
Proof.
  unfold SysInfo_lines. rewrite !ParseText_bytes. cbn [option_map].
  now rewrite split_bytes_lines.
Qed.

Lemma lines_whole (input : list ascii) :
  SysInfo_lines (whole input) = Some (lines_from false input).
Proof.
  unfold SysInfo_lines, whole. rewrite ParseText_bytes.
  destruct input as [|b input]; [reflexivity|].
  cbn [file_bytes]. rewrite app_nil_r. reflexivity.
Qed.

(** After a prefix that ends a line the machine is at rest, and only the
    last terminator is remembered. *)
Lemma line_start_state (pre : list ascii) :
  line_start pre ->
  exists (prev_cr : bool) (seen : list (list ascii)),
    fold_left (feed record_line) pre ([], false, false, []) = ([], false, prev_cr, seen) /\
    lines_from false pre = seen.
Proof.
  intros [-> | (p & t & -> & Ht)].
  - exists false, []. split; reflexivity.
  - unfold lines_from. rewrite fold_left_app. cbn [fold_left].
    destruct (fold_left (feed record_line) p ([], false, false, []))
      as [[[line skip_line] prev_cr] seen].
    rewrite feed_terminator by exact Ht.
    eexists _, _. split; reflexivity.
Qed.

(** ** Batches *)

Lemma file_bytes_chunked (chunks : list (list ascii)) :
  Forall (fun c => c <> []) chunks -> file_bytes (chunked chunks) = concat chunks.
Proof.
  induction 1 as [|c chunks Hc _ IH]; [reflexivity|].
  unfold chunked in *. cbn [map concat].
  rewrite file_bytes_data by exact Hc. now rewrite IH.
Qed.

Lemma file_bytes_whole (input : list ascii) : file_bytes (whole input) = input.
Proof. destruct input; [reflexivity|]. unfold whole. cbn [file_bytes]. apply app_nil_r. Qed.

Lemma file_bytes_bytewise (input : list ascii) : file_bytes (bytewise input) = input.
Proof.
  induction input as [|b input IH]; [reflexivity|].
  unfold bytewise in *. cbn [map file_bytes]. now rewrite IH.
Qed.

Lemma file_bytes_failure (chunks : list (list ascii)) (rest : FIL) :
  Forall (fun c => c <> []) chunks ->
  file_bytes (chunked chunks ++ Failure :: rest) = concat chunks.
Proof.
  induction 1 as [|c chunks Hc _ IH]; [reflexivity|].
  unfold chunked in *. cbn [map concat app].
  rewrite file_bytes_data by exact Hc. now rewrite IH.
Qed.

(** C1.  However the input is cut into reads, [SysInfo_ParseText] makes the
    same consumer invocations as when every read returns all that was asked
    for: for any non-empty batches that make up the input, and for one byte
    per read, the consumer ends in the same context and the recorded
    sequence of lines is the same.  (This holds whether or not a line
    overflows the buffer.) *)
Theorem ParseText_chunk_independent {Ctx : Type} (line_parser : Ctx -> list ascii -> Ctx)
        (context : Ctx) (input : list ascii) (chunks : list (list ascii)) :
  concat chunks = input ->
  Forall (fun c => c <> []) chunks ->
  SysInfo_ParseText (chunked chunks) line_parser context
  = SysInfo_ParseText (whole input) line_parser context
  /\ SysInfo_ParseText (bytewise input) line_parser context
     = SysInfo_ParseText (whole input) line_parser context
  /\ SysInfo_lines (chunked chunks) = SysInfo_lines (whole input)
  /\ SysInfo_lines (bytewise input) = SysInfo_lines (whole input)
  /\ exists ls : list (list ascii),
      SysInfo_lines (whole input) = Some ls /\
      SysInfo_ParseText (whole input) line_parser context
      = Some (fold_left line_parser ls context).
Proof.
  intros Hcat Hne. unfold SysInfo_lines. rewrite !ParseText_bytes.
  rewrite file_bytes_chunked, file_bytes_whole, file_bytes_bytewise, Hcat by exact Hne.
  repeat split.
  exists (split_bytes record_line input []). split; [reflexivity|].
  now rewrite split_bytes_lines.
Qed.

Lemma ParseText_chunk_independent_witness :
  SysInfo_ParseText (chunked [lit "a" ++ [CR]; LF :: lit "b"]) record_line []
  = SysInfo_ParseText (whole (lit "a" ++ [CR; LF] ++ lit "b")) record_line []
  /\ SysInfo_ParseText (bytewise (lit "a" ++ [CR; LF] ++ lit "b")) record_line []
     = SysInfo_ParseText (whole (lit "a" ++ [CR; LF] ++ lit "b")) record_line []
  /\ SysInfo_lines (chunked [lit "a" ++ [CR]; LF :: lit "b"])
     = SysInfo_lines (whole (lit "a" ++ [CR; LF] ++ lit "b"))
  /\ SysInfo_lines (bytewise (lit "a" ++ [CR; LF] ++ lit "b"))
     = SysInfo_lines (whole (lit "a" ++ [CR; LF] ++ lit "b"))
  /\ exists ls : list (list ascii),
      SysInfo_lines (whole (lit "a" ++ [CR; LF] ++ lit "b")) = Some ls /\
      SysInfo_ParseText (whole (lit "a" ++ [CR; LF] ++ lit "b")) record_line []
      = Some (fold_left record_line ls []).
Proof.
  apply (ParseText_chunk_independent record_line []
           (lit "a" ++ [CR; LF] ++ lit "b") [lit "a" ++ [CR]; LF :: lit "b"]).
  - reflexivity.
  - repeat constructor; discriminate.
Defined.

(** ** Carriage return followed by line feed *)

Lemma lines_after_cr_lf (pre suf : list ascii) :
  lines_from false (pre ++ CR :: LF :: suf)
  = lines_from false (pre ++ [CR]) ++ lines_from false suf.
Proof.
  destruct (line_start_state (pre ++ [CR])) as (prev_cr & seen & Hst & Hseen).
  { right. exists pre, CR. split; reflexivity. }
  rewrite Hseen. rewrite fold_left_app in Hst. cbn [fold_left] in Hst.
  unfold lines_from at 1. rewrite fold_left_app. cbn [fold_left].
  destruct (fold_left (feed record_line) pre ([], false, false, []))
    as [[[line skip_line] p] acc].
  rewrite feed_terminator in Hst |- * by reflexivity.
  injection Hst as _ Hseen'.
  change (Ascii.eqb CR CR) with true. change (Ascii.eqb CR LF) with false.
  rewrite feed_terminator by reflexivity.
  change (Ascii.eqb LF LF) with true. change (Ascii.eqb LF CR) with false.
  cbn [length Nat.eqb negb orb andb].
  replace (negb skip_line && false) with false by (now destruct skip_line).
  rewrite lines_from_seen.
  now rewrite Hseen'.
Qed.

Lemma lines_after_lf_lf (pre suf : list ascii) :
  lines_from false (pre ++ LF :: LF :: suf)
  = lines_from false (pre ++ [LF]) ++ [] :: lines_from false suf.
Proof.
  destruct (line_start_state (pre ++ [LF])) as (prev_cr & seen & Hst & Hseen).
  { right. exists pre, LF. split; reflexivity. }
  rewrite Hseen.
  replace (pre ++ LF :: LF :: suf) with ((pre ++ [LF]) ++ LF :: suf)
    by (rewrite <- app_assoc; reflexivity).
  unfold lines_from at 1. rewrite fold_left_app, Hst. cbn [fold_left].
  rewrite fold_left_app in Hst. cbn [fold_left] in Hst.
  destruct (fold_left (feed record_line) pre ([], false, false, []))
    as [[[line skip_line] p] acc].
  rewrite feed_terminator in Hst by reflexivity.
  injection Hst as Hcr _. change (Ascii.eqb LF CR) with false in Hcr. subst prev_cr.
  rewrite feed_terminator by reflexivity.
  cbn [length Nat.eqb negb orb andb].
  rewrite lines_from_seen.
  change (Ascii.eqb LF LF) with true. change (Ascii.eqb LF CR) with false.
  cbn [negb orb]. unfold record_line. rewrite <- app_assoc. reflexivity.
Qed.

Lemma lines_leading_lf (suf : list ascii) :
  lines_from false (LF :: suf) = [] :: lines_from false suf.
Proof.
  unfold lines_from at 1. cbn [fold_left].
  rewrite feed_terminator by reflexivity.
  cbn [length Nat.eqb negb orb andb].
  rewrite lines_from_seen. reflexivity.
Qed.

(** C3.  The line feed of a CR LF pair is not reported as an empty line.
    The stream ["a\r\nb"] makes exactly the two invocations ["a"] and ["b"].
    In general a line feed that comes directly after a carriage return adds
    no invocation at all, while a line feed directly after another line
    feed, or at the very start of the stream, adds one invocation with the
    empty line; at the guard itself, with no overflow pending, an empty
    segment ended by a line feed is reported exactly when [prev_cr] is not
    set. *)
Theorem crlf_reported_once :
  SysInfo_lines (whole (lit "a" ++ [CR; LF] ++ lit "b")) = Some [lit "a"; lit "b"]
  /\ (forall pre suf : list ascii,
        exists P R : list (list ascii),
          SysInfo_lines (whole (pre ++ [CR])) = Some P /\
          SysInfo_lines (whole suf) = Some R /\
          SysInfo_lines (whole (pre ++ CR :: LF :: suf)) = Some (P ++ R))
  /\ (forall pre suf : list ascii,
        exists P R : list (list ascii),
          SysInfo_lines (whole (pre ++ [LF])) = Some P /\
          SysInfo_lines (whole suf) = Some R /\
          SysInfo_lines (whole (pre ++ LF :: LF :: suf)) = Some (P ++ [] :: R))
  /\ (forall suf : list ascii,
        exists R : list (list ascii),
          SysInfo_lines (whole suf) = Some R /\
          SysInfo_lines (whole (LF :: suf)) = Some ([] :: R))
  /\ (forall (found : nat) (prev_cr : bool),
        reports false 0 (Some found) (Some found) prev_cr = negb prev_cr).
Proof.
  split; [vm_compute; reflexivity|].
  split; [|split; [|split]].
  - intros pre suf. exists (lines_from false (pre ++ [CR])), (lines_from false suf).
    rewrite !lines_whole, lines_after_cr_lf. auto.
  - intros pre suf. exists (lines_from false (pre ++ [LF])), (lines_from false suf).
    rewrite !lines_whole, lines_after_lf_lf. auto.
  - intros suf. exists (lines_from false suf).
    rewrite !lines_whole, lines_leading_lf. auto.
  - intros found prev_cr. unfold reports, ptr_eqb. rewrite !Nat.eqb_refl. reflexivity.
Qed.

(** ** Lines that do not fit the buffer *)

(** C4, the code at the failing input.  512 bytes without a terminator fill
    the buffer, which is reset with [skip_line] set; the three bytes that
    follow are still in the buffer when the stream ends, and the final
    report hands them to the consumer although [skip_line] is set. *)
Theorem overflow_tail_reported_at_end :
  SysInfo_lines (whole (repeat "x"%char 512 ++ lit "yyy")) = Some [lit "yyy"].
Proof. vm_compute. reflexivity. Qed.

(** C5, the claim fails: a line of 514 bytes, then a terminator and the line
    ["z"].  The 512 bytes buffered when the buffer ran full are never handed
    to the consumer; its only invocation is the one for ["z"]. *)
Lemma overflow_prefix_not_reported :
  SysInfo_lines (whole (repeat "x"%char 512 ++ lit "yy" ++ [LF] ++ lit "z" ++ [LF]))
  = Some [lit "z"].
Proof. vm_compute. reflexivity. Qed.

(** C5, as amended.  When the buffer runs full with no terminator found,
    the buffered bytes are discarded without being reported and the rest of
    the line up to its terminator is suppressed too: a line of at least
    [BUFFER_SIZE] bytes that is followed by a terminator causes no
    invocation, where a shorter non-empty line in its place causes exactly
    one, and the lines before and after are reported alike. *)
Theorem overflowing_line_dropped (pre l suf : list ascii) (t : ascii) :
  line_start pre ->
  no_terminator l ->
  BUFFER_SIZE <= length l ->
  is_terminator t = true ->
  exists P R : list (list ascii),
    SysInfo_lines (whole pre) = Some P /\
    SysInfo_lines (whole (pre ++ l ++ t :: suf)) = Some (P ++ R) /\
    forall s : list ascii,
      no_terminator s -> 0 < length s < BUFFER_SIZE ->
      SysInfo_lines (whole (pre ++ s ++ t :: suf)) = Some (P ++ s :: R).
Proof.
  intros Hpre Hl Hlong Ht.
  destruct (line_start_state pre Hpre) as (prev_cr & seen & Hst & Hseen).
  exists seen, (lines_from (Ascii.eqb t CR) suf).
  rewrite !lines_whole, Hseen. split; [reflexivity|]. split.
  - f_equal. unfold lines_from at 1. rewrite !fold_left_app, Hst.
    destruct (feed_overflow _ record_line l [] false prev_cr seen Hl)
      as (line' & skip_line' & E & _ & _ & Hskip).
    { unfold BUFFER_SIZE; simpl; lia. }
    rewrite E, (Hskip Hlong). cbn [fold_left].
    rewrite feed_terminator by exact Ht. cbn [negb andb].
    apply lines_from_seen.
  - intros s Hs [Hpos Hshort]. rewrite lines_whole. f_equal.
    unfold lines_from at 1. rewrite !fold_left_app, Hst.
    rewrite feed_content by (auto; simpl; lia).
    cbn [fold_left app]. rewrite feed_terminator by exact Ht.
    replace (length s =? 0) with false by (symmetry; apply Nat.eqb_neq; lia).
    cbn [negb orb andb]. rewrite lines_from_seen.
    unfold record_line. rewrite <- app_assoc. reflexivity.
Qed.

Lemma overflowing_line_dropped_witness :
  exists P R : list (list ascii),
    SysInfo_lines (whole []) = Some P /\
    SysInfo_lines (whole ([] ++ repeat "x"%char 512 ++ LF :: lit "z" ++ [LF])) = Some (P ++ R) /\
    forall s : list ascii,
      no_terminator s -> 0 < length s < BUFFER_SIZE ->
      SysInfo_lines (whole ([] ++ s ++ LF :: lit "z" ++ [LF])) = Some (P ++ s :: R).
Proof.
  apply (overflowing_line_dropped [] (repeat "x"%char 512) (lit "z" ++ [LF]) LF).
  - left; reflexivity.
  - apply Forall_forall. intros b Hb. apply repeat_spec in Hb. subst b. reflexivity.
  - rewrite repeat_length. apply Nat.le_refl.
  - reflexivity.
Defined.

(** ** A failing read *)

(** C9.  A failing read ends the parse like the end of the stream: nothing
    after it is read, the function returns, and what it has done is what it
    does on the batches read before the failure alone.  In particular an
    unfinished line that is in the buffer at that point is handed to the
    consumer as the last line; at the loop itself, a failing read with
    [filled] bytes in the buffer returns after reporting exactly those
    bytes when there are any. *)
Theorem read_failure_flushes {Ctx : Type} (line_parser : Ctx -> list ascii -> Ctx)
        (context : Ctx) (chunks : list (list ascii)) (rest : FIL) :
  Forall (fun c => c <> []) chunks ->
  SysInfo_ParseText (chunked chunks ++ Failure :: rest) line_parser context
  = SysInfo_ParseText (chunked chunks) line_parser context
  /\ (exists context',
        SysInfo_ParseText (chunked chunks ++ Failure :: rest) line_parser context
        = Some context')
  /\ (forall pre l : list ascii,
        concat chunks = pre ++ l -> line_start pre ->
        no_terminator l -> 0 < length l < BUFFER_SIZE ->
        exists P : list (list ascii),
          SysInfo_lines (whole pre) = Some P /\
          SysInfo_lines (chunked chunks ++ Failure :: rest) = Some (P ++ [l]) /\
          SysInfo_ParseText (chunked chunks ++ Failure :: rest) line_parser context
          = Some (line_parser (fold_left line_parser P context) l))
  /\ (forall (fuel : nat) (buffer : list ascii) (skip_line prev_cr : bool),
        length buffer < BUFFER_SIZE ->
        parse_loop line_parser (S fuel) (Failure :: rest) buffer skip_line prev_cr context
        = Some (if 0 <? length buffer then line_parser context buffer else context)).
Proof.
  intros Hne. split; [|split; [|split]].
  - rewrite !ParseText_bytes, file_bytes_failure, file_bytes_chunked by exact Hne.
    reflexivity.
  - apply ParseText_returns.
  - intros pre l Hcat Hpre Hl [Hpos Hshort].
    destruct (line_start_state pre Hpre) as (prev_cr & seen & Hst & Hseen).
    exists seen. rewrite lines_whole, Hseen. split; [reflexivity|].
    assert (Hlines : SysInfo_lines (chunked chunks ++ Failure :: rest) = Some (seen ++ [l])).
    { unfold SysInfo_lines. rewrite ParseText_bytes, file_bytes_failure, Hcat by exact Hne.
      f_equal. unfold split_bytes. rewrite fold_left_app, Hst.
      rewrite feed_content by (auto; simpl; lia).
      unfold finish, final_flush. cbn [app].
      replace (0 <? length l) with true by (symmetry; apply Nat.ltb_lt; lia).
      reflexivity. }
    split; [exact Hlines|].
    rewrite ParseText_lines, Hlines. cbn [option_map].
    rewrite fold_left_app. reflexivity.
  - intros fuel buffer skip_line prev_cr Hroom. cbn [parse_loop].
    replace (BUFFER_SIZE - length buffer =? 0) with false
      by (symmetry; apply Nat.eqb_neq; lia).
    reflexivity.
Qed.

Lemma read_failure_flushes_witness :
  SysInfo_lines (chunked [lit "ab" ++ [LF]; lit "cd"] ++ Failure :: [Data (lit "zz")])
  = SysInfo_lines (chunked [lit "ab" ++ [LF]; lit "cd"])
  /\ SysInfo_lines (chunked [lit "ab" ++ [LF]; lit "cd"] ++ Failure :: [Data (lit "zz")])
     = Some [lit "ab"; lit "cd"].
Proof.
  destruct (read_failure_flushes record_line [] [lit "ab" ++ [LF]; lit "cd"] [Data (lit "zz")])
    as (Hsame & _ & Hlast & _).
  { repeat constructor; discriminate. }
  split; [exact Hsame|].
  destruct (Hlast (lit "ab" ++ [LF]) (lit "cd")) as (P & HP & Hlines & _).
  - reflexivity.
  - right. exists (lit "ab"), LF. split; reflexivity.
  - repeat constructor.
  - unfold BUFFER_SIZE. simpl. lia.
  - rewrite Hlines. vm_compute in HP. injection HP as <-. reflexivity.
Defined.

(** ** The three styles of terminator *)

Section Styles.

(** A terminator style: its bytes [term], and [prev_cr] as it stands once
    a line in that style has been ended. *)
Variable term : list ascii.
Variable cr_after : bool.

(** One line of content and its terminator cause one invocation, from
    the state at the start of the stream and from the state after a line
    in the same style. *)
Hypothesis one_line :
  forall (l : list ascii) (prev_cr : bool) (seen : list (list ascii)),
    prev_cr = false \/ prev_cr = cr_after -> fits l ->
    fold_left (feed record_line) (l ++ term) ([], false, prev_cr, seen)
    = ([], false, cr_after, seen ++ [l]).

Lemma terminated_lines (contents : list (list ascii)) :
  forall (prev_cr : bool) (seen : list (list ascii)),
    prev_cr = false \/ prev_cr = cr_after -> Forall fits contents ->
    finish record_line
           (fold_left (feed record_line) (terminated term contents)
                      ([], false, prev_cr, seen))
    = seen ++ contents.
Proof.
  induction contents as [|l contents IH]; intros prev_cr seen Hcr Hfit.
  - simpl. now rewrite app_nil_r.
  - inversion Hfit as [|? ? Hl Hrest]; subst.
    unfold terminated in *. cbn [map concat].
    rewrite fold_left_app, one_line by assumption.
    rewrite IH by auto. now rewrite <- app_assoc.
Qed.

Lemma joined_cons (l l' : list ascii) (contents : list (list ascii)) :
  joined term (l :: l' :: contents) = (l ++ term) ++ joined term (l' :: contents).
Proof. cbn [joined]. now rewrite <- app_assoc. Qed.

Lemma joined_reported (contents : list (list ascii)) :
  forall (prev_cr : bool) (seen : list (list ascii)),
    prev_cr = false \/ prev_cr = cr_after -> Forall fits contents ->
    finish record_line
           (fold_left (feed record_line) (joined term contents)
                      ([], false, prev_cr, seen))
    = seen ++ joined_lines contents.
Proof.
  induction contents as [|l contents IH]; intros prev_cr seen Hcr Hfit.
  - simpl. now rewrite app_nil_r.
  - inversion Hfit as [|? ? Hl Hrest]; subst.
    destruct contents as [|l' contents].
    + cbn [joined joined_lines]. destruct Hl as [Hl Hlen].
      rewrite feed_content by (auto; simpl; lia).
      unfold finish, final_flush. cbn [app].
      destruct (0 <? length l); [reflexivity|now rewrite app_nil_r].
    + rewrite joined_cons, fold_left_app, one_line by assumption.
      rewrite IH by auto.
      change (joined_lines (l :: l' :: contents)) with (l :: joined_lines (l' :: contents)).
      now rewrite <- app_assoc.
Qed.

End Styles.

Lemma one_line_lf (l : list ascii) (prev_cr : bool) (seen : list (list ascii)) :
  prev_cr = false \/ prev_cr = false -> fits l ->
  fold_left (feed record_line) (l ++ [LF]) ([], false, prev_cr, seen)
  = ([], false, false, seen ++ [l]).
Proof.
  intros Hcr [Hl Hlen]. assert (prev_cr = false) as -> by tauto.
  rewrite fold_left_app, feed_content by (auto; simpl; lia).
  cbn [fold_left app]. rewrite feed_terminator by reflexivity.
  cbn [negb orb andb]. rewrite orb_true_r. reflexivity.
Qed.

Lemma one_line_cr (l : list ascii) (prev_cr : bool) (seen : list (list ascii)) :
  prev_cr = false \/ prev_cr = true -> fits l ->
  fold_left (feed record_line) (l ++ [CR]) ([], false, prev_cr, seen)
  = ([], false, true, seen ++ [l]).
Proof.
  intros _ [Hl Hlen].
  rewrite fold_left_app, feed_content by (auto; simpl; lia).
  cbn [fold_left app]. rewrite feed_terminator by reflexivity.
  change (Ascii.eqb CR LF) with false. cbn [negb orb andb].
  rewrite orb_true_r. reflexivity.
Qed.

Lemma one_line_crlf (l : list ascii) (prev_cr : bool) (seen : list (list ascii)) :
  prev_cr = false \/ prev_cr = false -> fits l ->
  fold_left (feed record_line) (l ++ [CR; LF]) ([], false, prev_cr, seen)
  = ([], false, false, seen ++ [l]).
Proof.
  intros Hcr Hfit.
  change [CR; LF] with ([CR] ++ [LF]). rewrite app_assoc, fold_left_app.
  rewrite one_line_cr by (auto; destruct prev_cr; auto).
  cbn [fold_left]. rewrite feed_terminator by reflexivity. reflexivity.
Qed.

(** C2.  For line contents without CR and LF that fit the buffer, the
    splitter reports the same sequence of lines whether the contents are
    ended by LF, by CR or by CR LF: each time exactly the contents, in
    order.  The same holds when the terminator stands between neighbouring
    contents only: each style reports every content but the last, and the
    last one if it has bytes. *)
Theorem terminator_style_irrelevant (contents : list (list ascii)) :
  Forall no_terminator contents ->
  Forall (fun l => length l < BUFFER_SIZE) contents ->
  (SysInfo_lines (whole (terminated [LF] contents)) = Some contents
   /\ SysInfo_lines (whole (terminated [CR] contents)) = Some contents
   /\ SysInfo_lines (whole (terminated [CR; LF] contents)) = Some contents)
  /\ (SysInfo_lines (whole (joined [LF] contents)) = Some (joined_lines contents)
      /\ SysInfo_lines (whole (joined [CR] contents)) = Some (joined_lines contents)
      /\ SysInfo_lines (whole (joined [CR; LF] contents)) = Some (joined_lines contents)).
Proof.
  intros Hterm Hlen.
  assert (Hfit : Forall fits contents).
  { apply Forall_forall. intros l Hin. split.
    - exact (proj1 (Forall_forall _ _) Hterm l Hin).
    - exact (proj1 (Forall_forall _ _) Hlen l Hin). }
  rewrite !lines_whole. unfold lines_from.
  rewrite (terminated_lines [LF] false one_line_lf) by auto.
  rewrite (terminated_lines [CR] true one_line_cr) by auto.
  rewrite (terminated_lines [CR; LF] false one_line_crlf) by auto.
  rewrite (joined_reported [LF] false one_line_lf) by auto.
  rewrite (joined_reported [CR] true one_line_cr) by auto.
  rewrite (joined_reported [CR; LF] false one_line_crlf) by auto.
  repeat split.
Qed.

Lemma terminator_style_irrelevant_witness :
  (SysInfo_lines (whole (terminated [LF] [lit "ab"; []; lit "c"])) = Some [lit "ab"; []; lit "c"]
   /\ SysInfo_lines (whole (terminated [CR] [lit "ab"; []; lit "c"]))
      = Some [lit "ab"; []; lit "c"]
   /\ SysInfo_lines (whole (terminated [CR; LF] [lit "ab"; []; lit "c"]))
      = Some [lit "ab"; []; lit "c"])
  /\ (SysInfo_lines (whole (joined [LF] [lit "ab"; []; lit "c"]))
      = Some (joined_lines [lit "ab"; []; lit "c"])
      /\ SysInfo_lines (whole (joined [CR] [lit "ab"; []; lit "c"]))
         = Some (joined_lines [lit "ab"; []; lit "c"])
      /\ SysInfo_lines (whole (joined [CR; LF] [lit "ab"; []; lit "c"]))
         = Some (joined_lines [lit "ab"; []; lit "c"])).
Proof.
  apply (terminator_style_irrelevant [lit "ab"; []; lit "c"]).
  - repeat constructor.
  - unfold BUFFER_SIZE. repeat constructor; simpl; lia.
Defined.

(** ** Arrays and regions *)

Lemma array_set_length {A : Type} (a : list A) (i : nat) (v : A) :
  i < length a -> length (array_set a i v) = length a.
Proof.
  intros H. unfold array_set.
  rewrite length_app, length_firstn. cbn [length]. rewrite length_skipn. lia.
Qed.

Lemma array_set_nth {A : Type} (a : list A) (i j : nat) (v d : A) :
  i < length a ->
  nth j (array_set a i v) d = if j =? i then v else nth j a d.
Proof.
  intros H. unfold array_set.
  assert (Hlen : length (firstn i a) = i) by (rewrite length_firstn; lia).
  destruct (Nat.eqb_spec j i) as [->|Hne].
  - rewrite app_nth2 by lia. rewrite Hlen, Nat.sub_diag. reflexivity.
  - destruct (Nat.lt_ge_cases j i) as [Hlt|Hge].
    + rewrite app_nth1 by lia.
      rewrite <- (firstn_skipn i a) at 2. rewrite app_nth1 by lia. reflexivity.
    + rewrite app_nth2 by lia. rewrite Hlen.
      destruct (j - i) as [|k] eqn:E; [lia|]. cbn [nth].
      rewrite <- (firstn_skipn (S i) a) at 2.
      rewrite app_nth2 by (rewrite length_firstn; lia).
      rewrite length_firstn. f_equal. lia.
Qed.

Lemma region_length (text : list ascii) (start len : nat) :
  start + len <= length text -> length (region text start len) = len.
Proof. intros H. unfold region. rewrite length_firstn, length_skipn. lia. Qed.

Lemma region_nth_error (text : list ascii) (start len i : nat) :
  i < len -> nth_error (region text start len) i = nth_error text (start + i).
Proof.
  intros H. unfold region.
  rewrite nth_error_firstn.
  replace (i <? len) with true by (symmetry; apply Nat.ltb_lt; lia).
  apply nth_error_skipn.
Qed.

Lemma region_add (text : list ascii) (start m n : nat) :
  region text start (m + n) = region text start m ++ region text (start + m) n.
Proof.
  unfold region. rewrite (Nat.add_comm start m), <- (skipn_skipn m start text).
  generalize (skipn start text) as u. intros u. revert u.
  induction m as [|m IH]; intros u; [reflexivity|].
  destruct u as [|x u]; cbn [Nat.add firstn skipn app].
  - now rewrite firstn_nil.
  - now rewrite IH.
Qed.

Lemma region_whole (text : list ascii) : region text 0 (length text) = text.
Proof. unfold region. cbn [skipn]. apply firstn_all. Qed.

Lemma region_one (text : list ascii) (start : nat) (c : ascii) :
  nth_error text start = Some c -> region text start 1 = [c].
Proof.
  unfold region. revert start; induction text as [|x text IH]; intros [|start] H;
    try discriminate.
  - injection H as ->. reflexivity.
  - cbn [skipn]. now apply IH.
Qed.

(** ** The tokenizer fills its arrays with [comma_entries] *)

Lemma comma_entries_last (left : nat) (text : list ascii) (line line_length : nat) :
  memchr (region text line line_length) COMMA = None \/ left = 0 ->
  comma_entries left text line line_length = [(line, line_length)].
Proof.
  intros [H | ->].
  - destruct left; cbn [comma_entries]; now rewrite H.
  - cbn [comma_entries]. now destruct (memchr (region text line line_length) COMMA).
Qed.

Lemma comma_entries_next (left : nat) (text : list ascii) (line line_length c : nat) :
  memchr (region text line line_length) COMMA = Some c ->
  comma_entries (S left) text line line_length
  = (line, c) :: comma_entries left text (line + c + 1) (line_length - (1 + c)).
Proof. intros H. cbn [comma_entries]. now rewrite H. Qed.

Lemma CommaSplit_loop_entries (fuel : nat) :
  forall (starts lengths : list nat) (max_entries index : nat) (text : list ascii)
         (line line_length : nat),
    index < max_entries -> max_entries - index <= fuel ->
    max_entries <= length starts -> max_entries <= length lengths ->
    exists starts' lengths' : list nat,
      CommaSplit_loop fuel starts lengths max_entries index text line line_length
      = Some (index + length (comma_entries (max_entries - 1 - index) text line line_length),
              starts', lengths') /\
      length starts' = length starts /\ length lengths' = length lengths /\
      (forall j, j < index ->
                 nth j starts' 0 = nth j starts 0 /\ nth j lengths' 0 = nth j lengths 0) /\
      (forall k, k < length (comma_entries (max_entries - 1 - index) text line line_length) ->
                 (nth (index + k) starts' 0, nth (index + k) lengths' 0)
                 = nth k (comma_entries (max_entries - 1 - index) text line line_length) (0, 0)).
Proof.
  induction fuel as [|fuel IH];
    intros starts lengths max_entries index text line line_length Hidx Hfuel Hs Hl; [lia|].
  cbn [CommaSplit_loop].
  assert (Hlast : forall es, es = [(line, line_length)] ->
            exists starts' lengths' : list nat,
              Some (index + 1, array_set starts index line,
                    array_set lengths index line_length)
              = Some (index + length es, starts', lengths') /\
              length starts' = length starts /\ length lengths' = length lengths /\
              (forall j, j < index ->
                 nth j starts' 0 = nth j starts 0 /\ nth j lengths' 0 = nth j lengths 0) /\
              (forall k, k < length es ->
                 (nth (index + k) starts' 0, nth (index + k) lengths' 0) = nth k es (0, 0))).
  { intros es ->. eexists _, _. split; [reflexivity|].
    rewrite !array_set_length by lia. repeat split.
    - rewrite array_set_nth by lia.
      replace (j =? index) with false by (symmetry; apply Nat.eqb_neq; lia). reflexivity.
    - rewrite array_set_nth by lia.
      replace (j =? index) with false by (symmetry; apply Nat.eqb_neq; lia). reflexivity.
    - intros k Hk. cbn [length] in Hk. assert (k = 0) as -> by lia.
      rewrite Nat.add_0_r, !array_set_nth, Nat.eqb_refl by lia. reflexivity. }
  destruct (memchr (region text line line_length) COMMA) as [c|] eqn:Hc.
  - destruct (Nat.eqb_spec index (max_entries - 1)) as [Hend|Hmore].
    + apply Hlast. apply comma_entries_last. right. lia.
    + destruct (max_entries - 1 - index) as [|left] eqn:Hleft; [lia|].
      rewrite (comma_entries_next left text line line_length c Hc).
      destruct (IH (array_set starts index line) (array_set lengths index c)
                   max_entries (index + 1) text (line + c + 1) (line_length - (1 + c)))
        as (starts' & lengths' & Hrun & Hls & Hll & Hkeep & Hnew);
        try (rewrite ?array_set_length by lia; lia).
      replace (max_entries - 1 - (index + 1)) with left in * by lia.
      exists starts', lengths'. rewrite Hrun.
      rewrite !array_set_length in * by lia.
      split; [f_equal; f_equal; f_equal; cbn [length]; lia|].
      split; [exact Hls|]. split; [exact Hll|]. split.
      * intros j Hj. destruct (Hkeep j) as [H1 H2]; [lia|].
        rewrite H1, H2, !array_set_nth by lia.
        replace (j =? index) with false by (symmetry; apply Nat.eqb_neq; lia). auto.
      * intros [|k] Hk.
        -- destruct (Hkeep index) as [H1 H2]; [lia|].
           rewrite Nat.add_0_r, H1, H2, !array_set_nth, Nat.eqb_refl by lia. reflexivity.
        -- cbn [length] in Hk. cbn [nth].
           replace (index + S k) with (index + 1 + k) by lia.
           apply Hnew. lia.
  - apply Hlast. apply comma_entries_last. now left.
Qed.

Lemma nth_map_seq {A : Type} (f : nat -> A) (n k : nat) (d : A) :
  k < n -> nth k (map f (seq 0 n)) d = f k.
Proof.
  intros H. rewrite (nth_indep _ d (f 0)) by (now rewrite length_map, length_seq).
  rewrite map_nth, seq_nth by exact H. reflexivity.
Qed.

Lemma entries_of_nth (count : nat) (starts lengths : list nat) (es : list (nat * nat)) :
  count = length es ->
  (forall k, k < length es -> (nth k starts 0, nth k lengths 0) = nth k es (0, 0)) ->
  entries_of (count, starts, lengths) = es.
Proof.
  intros -> H. unfold entries_of.
  apply (nth_ext _ _ (0, 0) (0, 0)).
  - now rewrite length_map, length_seq.
  - intros k Hk. rewrite length_map, length_seq in Hk.
    rewrite nth_map_seq by exact Hk. now apply H.
Qed.

Lemma comma_entries_length (left : nat) :
  forall (text : list ascii) (line line_length : nat),
    1 <= length (comma_entries left text line line_length) <= S left.
Proof.
  induction left as [|left IH]; intros text line line_length.
  - rewrite comma_entries_last by now right. simpl. lia.
  - destruct (memchr (region text line line_length) COMMA) as [c|] eqn:Hc.
    + rewrite (comma_entries_next _ _ _ _ _ Hc). cbn [length].
      specialize (IH text (line + c + 1) (line_length - (1 + c))). lia.
    + rewrite comma_entries_last by now left. simpl. lia.
Qed.

(** [SysInfo_CommaSplit] returns; it writes the entries of [comma_entries]
    and nothing beyond its arrays. *)
Lemma CommaSplit_entries (starts lengths : list nat) (max_entries : nat) (line : list ascii) :
  0 < max_entries -> max_entries <= length starts -> max_entries <= length lengths ->
  exists (count : nat) (starts' lengths' : list nat),
    SysInfo_CommaSplit starts lengths max_entries line = Some (count, starts', lengths') /\
    entries_of (count, starts', lengths')
    = comma_entries (max_entries - 1) line 0 (length line) /\
    count = length (comma_entries (max_entries - 1) line 0 (length line)) /\
    length starts' = length starts /\ length lengths' = length lengths.
Proof.
  intros Hmax Hs Hl. unfold SysInfo_CommaSplit.
  replace (max_entries =? 0) with false by (symmetry; apply Nat.eqb_neq; lia).
  destruct (CommaSplit_loop_entries max_entries starts lengths max_entries 0 line 0
                                    (length line))
    as (starts' & lengths' & Hrun & Hls & Hll & _ & Hnew); try lia.
  rewrite Nat.sub_0_r in *. cbn [Nat.add] in *.
  exists (length (comma_entries (max_entries - 1) line 0 (length line))), starts', lengths'.
  repeat split; auto.
  apply entries_of_nth; auto.
Qed.

Lemma CommaSplit_returns (starts lengths : list nat) (max_entries : nat) (line : list ascii) :
  max_entries <= length starts -> max_entries <= length lengths ->
  exists result, SysInfo_CommaSplit starts lengths max_entries line = Some result.
Proof.
  intros Hs Hl. destruct max_entries as [|n].
  - eexists. reflexivity.
  - destruct (CommaSplit_entries starts lengths (S n) line) as (c & s & l & H & _);
      try lia.
    eexists. exact H.
Qed.

(** ** What the entries cover *)

Lemma comma_found (text : list ascii) (line line_length c : nat) :
  line + line_length <= length text ->
  memchr (region text line line_length) COMMA = Some c ->
  c < line_length /\ nth_error text (line + c) = Some COMMA.
Proof.
  intros Hin Hc. destruct (memchr_bound _ _ _ Hc) as [Hlt Hnth].
  rewrite region_length in Hlt by exact Hin.
  rewrite region_nth_error in Hnth by exact Hlt. auto.
Qed.

Lemma region_split_comma (text : list ascii) (line line_length c : nat) :
  c < line_length -> nth_error text (line + c) = Some COMMA ->
  region text line line_length
  = region text line c ++ COMMA :: region text (line + c + 1) (line_length - (1 + c)).
Proof.
  intros Hlt Hnth.
  replace line_length with (c + (1 + (line_length - (1 + c)))) at 1 by lia.
  rewrite !region_add, (region_one _ _ _ Hnth). reflexivity.
Qed.

Lemma comma_entries_tiles (left : nat) :
  forall (text : list ascii) (line line_length : nat),
    line + line_length <= length text ->
    let es := comma_entries left text line line_length in
    fst (nth 0 es (0, 0)) = line /\
    (forall i, S i < length es ->
               fst (nth (S i) es (0, 0))
               = fst (nth i es (0, 0)) + snd (nth i es (0, 0)) + 1 /\
               nth_error text (fst (nth i es (0, 0)) + snd (nth i es (0, 0))) = Some COMMA) /\
    fst (nth (length es - 1) es (0, 0)) + snd (nth (length es - 1) es (0, 0))
    = line + line_length /\
    (forall i, i < length es ->
               fst (nth i es (0, 0)) + snd (nth i es (0, 0)) <= line + line_length).
Proof.
  induction left as [|left IH]; intros text line line_length Hin.
  - rewrite comma_entries_last by now right. cbn. repeat split; try lia.
    intros [|i] Hi; cbn in *; lia.
  - destruct (memchr (region text line line_length) COMMA) as [c|] eqn:Hc.
    + destruct (comma_found _ _ _ _ Hin Hc) as [Hlt Hnth].
      rewrite (comma_entries_next _ _ _ _ _ Hc).
      specialize (IH text (line + c + 1) (line_length - (1 + c))).
      pose proof (comma_entries_length left text (line + c + 1) (line_length - (1 + c)))
        as Hlen.
      destruct IH as (Ha & Hb & Hc' & Hd); [lia|].
      set (es' := comma_entries left text (line + c + 1) (line_length - (1 + c))) in *.
      cbv zeta. cbn [length nth fst snd]. repeat split.
      * destruct i as [|i]; cbn [nth fst snd]; [exact Ha|]. apply Hb. lia.
      * destruct i as [|i]; cbn [nth fst snd]; [exact Hnth|]. apply Hb. lia.
      * replace (S (length es') - 1) with (S (length es' - 1)) by lia.
        cbn [nth]. rewrite Hc'. lia.
      * intros [|i] Hi; cbn [nth fst snd]; [lia|].
        specialize (Hd i). lia.
    + rewrite comma_entries_last by now left. cbn. repeat split; try lia.
      intros [|i] Hi; cbn in *; lia.
Qed.

Lemma comma_entries_fields (left : nat) :
  forall (text : list ascii) (line line_length : nat),
    line + line_length <= length text ->
    map (field_bytes text) (comma_entries left text line line_length)
    = comma_fields left (region text line line_length).
Proof.
  induction left as [|left IH]; intros text line line_length Hin.
  - rewrite comma_entries_last by now right. cbn [comma_fields map].
    now destruct (memchr (region text line line_length) COMMA).
  - cbn [comma_fields].
    destruct (memchr (region text line line_length) COMMA) as [c|] eqn:Hc.
    + destruct (comma_found _ _ _ _ Hin Hc) as [Hlt Hnth].
      rewrite (comma_entries_next _ _ _ _ _ Hc). cbn [map]. rewrite IH by lia.
      rewrite (region_split_comma text line line_length c Hlt Hnth).
      assert (Hlen : length (region text line c) = c) by (apply region_length; lia).
      f_equal.
      * unfold field_bytes. cbn [fst snd].
        rewrite firstn_app, Hlen, Nat.sub_diag, firstn_all2 by lia.
        cbn [firstn]. now rewrite app_nil_r.
      * f_equal. rewrite skipn_app, Hlen, skipn_all2 by lia.
        replace (c + 1 - c) with 1 by lia. reflexivity.
    + rewrite comma_entries_last by now left. reflexivity.
Qed.

Lemma comma_fields_joined (left : nat) :
  forall l : list ascii, joined [COMMA] (comma_fields left l) = l.
Proof.
  induction left as [|left IH]; intros l; cbn [comma_fields].
  - now destruct (memchr l COMMA).
  - destruct (memchr l COMMA) as [c|] eqn:Hc; [|reflexivity].
    destruct (memchr_bound _ _ _ Hc) as [Hlt Hnth].
    specialize (IH (skipn (c + 1) l)).
    destruct (comma_fields left (skipn (c + 1) l)) as [|f fs] eqn:E.
    + destruct left; cbn [comma_fields] in E;
        destruct (memchr (skipn (c + 1) l) COMMA); discriminate.
    + change (joined [COMMA] (firstn c l :: f :: fs))
        with (firstn c l ++ [COMMA] ++ joined [COMMA] (f :: fs)).
      rewrite IH. cbn [app].
      rewrite <- (firstn_skipn c l) at 3. f_equal.
      replace (c + 1) with (S c) by lia.
      clear - Hnth. revert c Hnth. induction l as [|x l IHl]; intros [|c] H; try discriminate.
      * injection H as ->. reflexivity.
      * cbn [skipn]. now apply IHl.
Qed.

(** With [length fs] commas allowed, fields without commas that each end in
    a comma come out one by one, and all that follows is the last field. *)
Lemma comma_fields_fold (fs : list (list ascii)) (rest : list ascii) :
  Forall no_comma fs ->
  comma_fields (length fs) (terminated [COMMA] fs ++ rest) = fs ++ [rest].
Proof.
  induction 1 as [|f fs Hf _ IH].
  - cbn. now destruct (memchr rest COMMA).
  - unfold terminated in *. cbn [map concat length comma_fields].
    rewrite <- !app_assoc. rewrite (memchr_skip f _ COMMA Hf).
    cbn [app]. rewrite memchr_here. cbn [option_map]. rewrite Nat.add_0_r.
    rewrite firstn_app, Nat.sub_diag, firstn_all. cbn [firstn]. rewrite app_nil_r.
    rewrite skipn_app, skipn_all2 by lia.
    replace (length f + 1 - length f) with 1 by lia. cbn [skipn app].
    now rewrite IH.
Qed.

Lemma entries_of_read (count : nat) (starts lengths : list nat) (i : nat) :
  i < count ->
  nth i (entries_of (count, starts, lengths)) (0, 0) = (nth i starts 0, nth i lengths 0).
Proof. intros H. unfold entries_of. now rewrite nth_map_seq. Qed.

Lemma CommaSplit_fields_eq (starts lengths : list nat) (max_entries : nat) (line : list ascii) :
  0 < max_entries -> max_entries <= length starts -> max_entries <= length lengths ->
  CommaSplit_fields starts lengths max_entries line
  = Some (comma_fields (max_entries - 1) line).
Proof.
  intros Hmax Hs Hl.
  destruct (CommaSplit_entries starts lengths max_entries line Hmax Hs Hl)
    as (count & starts' & lengths' & Hrun & Hes & _).
  unfold CommaSplit_fields. rewrite Hrun. cbn [option_map]. rewrite Hes.
  rewrite comma_entries_fields by (simpl; lia). now rewrite region_whole.
Qed.

(** C6.  [SysInfo_CommaSplit] returns at most [max_entries] fields and
    writes nothing outside its arrays.  When the line has [max_entries - 1]
    comma-free fields each followed by a comma, these are the first fields
    and all that follows, commas included, is the last field.  With at most
    2 fields ["a,b,c"] gives ["a"] and ["b,c"]; with at most 5 the empty
    line gives one empty field; with at most 0 any line gives no field and
    the arrays are left alone. *)
Theorem CommaSplit_bounded (starts lengths : list nat) (max_entries : nat)
        (line : list ascii) :
  max_entries <= length starts ->
  max_entries <= length lengths ->
  (exists (count : nat) (starts' lengths' : list nat) (fields : list (list ascii)),
      SysInfo_CommaSplit starts lengths max_entries line = Some (count, starts', lengths') /\
      CommaSplit_fields starts lengths max_entries line = Some fields /\
      length fields = count /\ count <= max_entries /\
      length starts' = length starts /\ length lengths' = length lengths)
  /\ (forall (fs : list (list ascii)) (rest : list ascii),
        0 < max_entries -> length fs = max_entries - 1 -> Forall no_comma fs ->
        line = terminated [COMMA] fs ++ rest ->
        CommaSplit_fields starts lengths max_entries line = Some (fs ++ [rest]))
  /\ (forall s l : list nat,
        2 <= length s -> 2 <= length l ->
        CommaSplit_fields s l 2 (lit "a,b,c") = Some [lit "a"; lit "b,c"])
  /\ (forall s l : list nat,
        5 <= length s -> 5 <= length l ->
        CommaSplit_fields s l 5 [] = Some [[]])
  /\ SysInfo_CommaSplit starts lengths 0 line = Some (0, starts, lengths)
  /\ CommaSplit_fields starts lengths 0 line = Some [].
Proof.
  intros Hs Hl. split; [|split; [|split; [|split; [|split]]]].
  - destruct max_entries as [|n].
    + exists 0, starts, lengths, []. repeat split; auto.
    + destruct (CommaSplit_entries starts lengths (S n) line) as
          (count & starts' & lengths' & Hrun & Hes & Hcount & Hls & Hll); try lia.
      exists count, starts', lengths',
        (map (field_bytes line) (entries_of (count, starts', lengths'))).
      unfold CommaSplit_fields. rewrite Hrun. cbn [option_map].
      repeat split; auto.
      * rewrite length_map, Hes. auto.
      * pose proof (comma_entries_length (S n - 1) line 0 (length line)). lia.
  - intros fs rest Hmax Hlen Hfs ->.
    rewrite CommaSplit_fields_eq by assumption.
    rewrite <- Hlen. now rewrite comma_fields_fold.
  - intros s l Hs2 Hl2. rewrite CommaSplit_fields_eq by lia. reflexivity.
  - intros s l Hs5 Hl5. rewrite CommaSplit_fields_eq by lia. reflexivity.
  - reflexivity.
  - reflexivity.
Qed.

Lemma CommaSplit_bounded_witness :
  (exists (count : nat) (starts' lengths' : list nat) (fields : list (list ascii)),
      SysInfo_CommaSplit (repeat 0 10) (repeat 0 10) 3 (lit "a,b,c,d")
      = Some (count, starts', lengths') /\
      CommaSplit_fields (repeat 0 10) (repeat 0 10) 3 (lit "a,b,c,d") = Some fields /\
      length fields = count /\ count <= 3 /\
      length starts' = length (repeat 0 10) /\ length lengths' = length (repeat 0 10))
  /\ CommaSplit_fields (repeat 0 10) (repeat 0 10) 3 (lit "a,b,c,d")
     = Some [lit "a"; lit "b"; lit "c,d"].
Proof.
  destruct (CommaSplit_bounded (repeat 0 10) (repeat 0 10) 3 (lit "a,b,c,d"))
    as (Hcount & Hfold & _); [simpl; lia|simpl; lia|].
  split; [exact Hcount|].
  apply (Hfold [lit "a"; lit "b"] (lit "c,d")).
  - lia.
  - reflexivity.
  - repeat constructor.
  - reflexivity.
Defined.

(** C10.  For [max_entries > 0] the entries returned by
    [SysInfo_CommaSplit] tile the line: the first starts at the first byte
    of the line, each later one starts one byte past the end of the one
    before it, that byte being a comma, the last one ends where the line
    ends, and the fields joined by single commas are the line. *)
Theorem CommaSplit_partitions (starts lengths : list nat) (max_entries : nat)
        (line : list ascii) :
  0 < max_entries ->
  max_entries <= length starts ->
  max_entries <= length lengths ->
  exists (count : nat) (starts' lengths' : list nat),
    SysInfo_CommaSplit starts lengths max_entries line = Some (count, starts', lengths') /\
    1 <= count /\
    nth 0 starts' 0 = 0 /\
    (forall i, S i < count ->
               nth (S i) starts' 0 = nth i starts' 0 + nth i lengths' 0 + 1 /\
               nth_error line (nth i starts' 0 + nth i lengths' 0) = Some COMMA) /\
    nth (count - 1) starts' 0 + nth (count - 1) lengths' 0 = length line /\
    joined [COMMA] (map (field_bytes line) (entries_of (count, starts', lengths'))) = line.
Proof.
  intros Hmax Hs Hl.
  destruct (CommaSplit_entries starts lengths max_entries line Hmax Hs Hl)
    as (count & starts' & lengths' & Hrun & Hes & Hcount & _).
  exists count, starts', lengths'. split; [exact Hrun|].
  pose proof (comma_entries_length (max_entries - 1) line 0 (length line)) as Hlen.
  destruct (comma_entries_tiles (max_entries - 1) line 0 (length line))
    as (Hfirst & Hnext & Hlast & _); [simpl; lia|].
  rewrite <- Hes, <- Hcount in *.
  assert (Hread : forall i, i < count ->
            fst (nth i (entries_of (count, starts', lengths')) (0, 0)) = nth i starts' 0 /\
            snd (nth i (entries_of (count, starts', lengths')) (0, 0)) = nth i lengths' 0).
  { intros i Hi. now rewrite entries_of_read. }
  split; [lia|]. split; [|split; [|split]].
  - destruct (Hread 0) as [<- _]; [lia|]. exact Hfirst.
  - intros i Hi. destruct (Hnext i Hi) as [H1 H2].
    destruct (Hread i) as [<- <-]; [lia|]. destruct (Hread (S i)) as [<- _]; [lia|].
    auto.
  - destruct (Hread (count - 1)) as [<- <-]; [lia|]. exact Hlast.
  - rewrite Hes, comma_entries_fields by (simpl; lia).
    rewrite region_whole. apply comma_fields_joined.
Qed.

Lemma CommaSplit_partitions_witness :
  exists (count : nat) (starts' lengths' : list nat),
    SysInfo_CommaSplit (repeat 0 10) (repeat 0 10) 10 (lit "12,DataList,OK")
    = Some (count, starts', lengths') /\
    1 <= count /\
    nth 0 starts' 0 = 0 /\
    (forall i, S i < count ->
               nth (S i) starts' 0 = nth i starts' 0 + nth i lengths' 0 + 1 /\
               nth_error (lit "12,DataList,OK") (nth i starts' 0 + nth i lengths' 0)
               = Some COMMA) /\
    nth (count - 1) starts' 0 + nth (count - 1) lengths' 0 = length (lit "12,DataList,OK") /\
    joined [COMMA]
           (map (field_bytes (lit "12,DataList,OK")) (entries_of (count, starts', lengths')))
    = lit "12,DataList,OK".
Proof.
  apply (CommaSplit_partitions (repeat 0 10) (repeat 0 10) 10 (lit "12,DataList,OK"));
    simpl; lia.
Defined.

(** ** Comparing and copying *)

Lemma memcmp_eq (n : nat) :
  forall a b : list ascii,
    n <= length a -> n <= length b ->
    (memcmp a b n = 0%Z <-> firstn n a = firstn n b).
Proof.
  induction n as [|n IH]; intros a b Ha Hb; [cbn; split; reflexivity|].
  destruct a as [|x a]; [cbn in Ha; lia|]. destruct b as [|y b]; [cbn in Hb; lia|].
  cbn [memcmp firstn]. cbn [length] in Ha, Hb.
  destruct (Ascii.eqb_spec x y) as [->|Hne].
  - rewrite IH by lia. split; [intros ->; reflexivity|intros H; now injection H].
  - split.
    + intros H. exfalso. apply Hne.
      rewrite <- (ascii_nat_embedding x), <- (ascii_nat_embedding y). f_equal. lia.
    + intros H. injection H as H _. contradiction.
Qed.

Lemma memcmp_region (text : list ascii) (start n : nat) (s : list ascii) :
  length s = n -> start + n <= length text ->
  Z.eqb (memcmp (skipn start text) s n) 0 = true -> region text start n = s.
Proof.
  intros Hs Hin H. apply Z.eqb_eq in H.
  apply memcmp_eq in H; [|rewrite length_skipn; lia|lia].
  unfold region. rewrite H, <- Hs. apply firstn_all.
Qed.

Lemma cstring_nul (v tail : list ascii) : cstring (v ++ NUL :: tail) = cstring v.
Proof.
  induction v as [|c v IH]; cbn [app cstring]; [reflexivity|].
  destruct (Ascii.eqb c NUL); [reflexivity|now rewrite IH].
Qed.

Lemma cstring_text (v : list ascii) : Forall (fun c => c <> NUL) v -> cstring v = v.
Proof.
  induction 1 as [|c v Hc _ IH]; cbn [cstring]; [reflexivity|].
  destruct (Ascii.eqb_spec c NUL); [contradiction|now rewrite IH].
Qed.

(** Copying [v] to the start of an array and ending it with a zero byte. *)
Lemma copy_terminated (a v : list ascii) :
  array_set (memcpy a 0 v) (length v) NUL = v ++ NUL :: skipn (S (length v)) a.
Proof.
  unfold array_set, memcpy. cbn [firstn app Nat.add].
  rewrite firstn_app, Nat.sub_diag, firstn_all. cbn [firstn]. rewrite app_nil_r.
  rewrite skipn_app, skipn_all2 by lia.
  replace (S (length v) - length v) with 1 by lia.
  cbn [app]. rewrite skipn_skipn. reflexivity.
Qed.

Lemma copy_terminated_length (a v : list ascii) :
  length v < length a -> length (v ++ NUL :: skipn (S (length v)) a) = length a.
Proof. intros H. rewrite length_app. cbn [length]. rewrite length_skipn. lia. Qed.

(** ** The parser for inspect.log *)

Lemma InspectLog_match (info : SysInfo) (rest : list ascii) :
  SysInfoLineParser_InspectLog info (s_commentUpdated ++ rest)
  = {| assembly_date :=
         firstn 19 rest ++ NUL :: skipn (S (length (firstn 19 rest))) (assembly_date info);
       original_firmware := original_firmware info |}.
Proof.
  unfold SysInfoLineParser_InspectLog.
  change (length s_commentUpdated) with 15.
  rewrite length_app. change (length s_commentUpdated) with 15.
  replace (15 + length rest <? 15) with false by (symmetry; apply Nat.ltb_ge; lia).
  assert (Hcmp : memcmp (s_commentUpdated ++ rest) s_commentUpdated 15 = 0%Z).
  { apply memcmp_eq; [rewrite length_app; cbn; lia|cbn; lia|reflexivity]. }
  rewrite Hcmp. cbn [Z.eqb negb].
  replace (skipn 15 (s_commentUpdated ++ rest)) with rest by reflexivity.
  replace (15 + length rest - 15) with (length rest) by lia.
  change (20 - 1) with 19.
  assert (Hcut : firstn (Nat.min (length rest) 19) rest = firstn 19 rest).
  { destruct (Nat.le_ge_cases (length rest) 19).
    - rewrite Nat.min_l by lia. now rewrite firstn_all, firstn_all2 by lia.
    - now rewrite Nat.min_r by lia. }
  rewrite Hcut.
  replace (Nat.min (length rest) 19) with (length (firstn 19 rest))
    by (rewrite length_firstn; lia).
  now rewrite copy_terminated.
Qed.

Lemma InspectLog_other (info : SysInfo) (line : list ascii) :
  firstn 15 line <> s_commentUpdated -> SysInfoLineParser_InspectLog info line = info.
Proof.
  intros Hne. unfold SysInfoLineParser_InspectLog.
  change (length s_commentUpdated) with 15.
  destruct (length line <? 15) eqn:Hlen; [reflexivity|].
  apply Nat.ltb_ge in Hlen.
  destruct (Z.eqb_spec (memcmp line s_commentUpdated 15) 0) as [Heq|]; [|reflexivity].
  apply memcmp_eq in Heq; [|lia|cbn; lia]. contradiction.
Qed.

(** The write stays inside [assembly_date]. *)
Lemma InspectLog_sized (info : SysInfo) (line : list ascii) :
  SysInfo_sized info -> SysInfo_sized (SysInfoLineParser_InspectLog info line).
Proof.
  intros [Hdate Hfw].
  destruct (list_eq_dec ascii_dec (firstn 15 line) s_commentUpdated) as [E|E].
  - rewrite <- (firstn_skipn 15 line), E, InspectLog_match.
    split; cbn [assembly_date original_firmware]; [|exact Hfw].
    rewrite copy_terminated_length; [exact Hdate|].
    rewrite length_firstn. lia.
  - now rewrite InspectLog_other.
Qed.

(** C7.  On a line that begins with ["CommentUpdated="] the parser
    overwrites [assembly_date] with the rest of the line, cut to the 19
    characters the member holds besides its terminator; on any other line
    it leaves the record as it is.  So after the lines ["X=1"],
    ["CommentUpdated=2020"], ["noise"], ["CommentUpdated=2021"] the member
    reads ["2021"]. *)
Theorem InspectLog_last_match (info : SysInfo) :
  (forall rest : list ascii,
      let info' := SysInfoLineParser_InspectLog info (s_commentUpdated ++ rest) in
      assembly_date info'
      = firstn 19 rest ++ NUL :: skipn (S (length (firstn 19 rest))) (assembly_date info)
      /\ cstring (assembly_date info') = cstring (firstn 19 rest)
      /\ (Forall (fun c => c <> NUL) rest -> cstring (assembly_date info') = firstn 19 rest)
      /\ original_firmware info' = original_firmware info
      /\ (length (assembly_date info) = 20 -> length (assembly_date info') = 20))
  /\ (forall line : list ascii,
        firstn 15 line <> s_commentUpdated ->
        SysInfoLineParser_InspectLog info line = info)
  /\ cstring (assembly_date
                (fold_left SysInfoLineParser_InspectLog
                           [lit "X=1"; lit "CommentUpdated=2020"; lit "noise";
                            lit "CommentUpdated=2021"] info))
     = lit "2021".
Proof.
  split; [|split].
  - intros rest info'. subst info'. rewrite InspectLog_match. cbn [assembly_date original_firmware].
    repeat split.
    + apply cstring_nul.
    + intros Htext. rewrite cstring_nul. apply cstring_text.
      apply Forall_forall. intros c Hc. apply (proj1 (Forall_forall _ _) Htext).
      rewrite <- (firstn_skipn 19 rest). apply in_or_app. now left.
    + intros Hsize. rewrite copy_terminated_length; [exact Hsize|].
      rewrite length_firstn. lia.
  - intros line. apply InspectLog_other.
  - cbn [fold_left].
    rewrite (InspectLog_other info (lit "X=1")) by discriminate.
    change (lit "CommentUpdated=2020") with (s_commentUpdated ++ lit "2020").
    rewrite InspectLog_match.
    rewrite (InspectLog_other _ (lit "noise")) by discriminate.
    change (lit "CommentUpdated=2021") with (s_commentUpdated ++ lit "2021").
    rewrite InspectLog_match. cbn [assembly_date].
    rewrite cstring_nul. reflexivity.
Qed.

Lemma InspectLog_last_match_witness :
  SysInfoLineParser_InspectLog unknown_info (lit "noise") = unknown_info
  /\ cstring (assembly_date
                (fold_left SysInfoLineParser_InspectLog
                           [lit "X=1"; lit "CommentUpdated=2020"; lit "noise";
                            lit "CommentUpdated=2021"] unknown_info))
     = lit "2021".
Proof.
  destruct (InspectLog_last_match unknown_info) as (_ & Hother & Hlast).
  split; [|exact Hlast].
  apply Hother. discriminate.
Defined.

(** ** The parser for product.log *)

Lemma until_space_spec (remaining : nat) :
  forall (line : list ascii) (verinfo v' r' : nat),
    until_space line verinfo remaining = (v', r') ->
    verinfo + remaining <= length line ->
    v' + r' = verinfo + remaining /\ r' <= remaining /\
    no_space (region line verinfo (v' - verinfo)) /\
    (r' = 0 \/ nth_error line v' = Some SPACE).
Proof.
  induction remaining as [|remaining IH]; intros line verinfo v' r' H Hin;
    cbn [until_space] in H.
  - injection H as <- <-. rewrite Nat.sub_diag. repeat split; auto. constructor.
  - destruct (Ascii.eqb_spec (nth verinfo line NUL) SPACE) as [E|E]; cbn [negb] in H.
    + injection H as <- <-. rewrite Nat.sub_diag. repeat split; auto; [constructor|].
      right. rewrite <- E. apply nth_error_nth'. lia.
    + apply IH in H; [|lia]. destruct H as (H1 & H2 & H3 & H4).
      repeat split; auto; try lia.
      replace (v' - verinfo) with (1 + (v' - (verinfo + 1))) by lia.
      rewrite region_add.
      rewrite (region_one line verinfo (nth verinfo line NUL))
        by (apply nth_error_nth'; lia).
      constructor; [|exact H3]. now apply Ascii.eqb_neq.
Qed.

Lemma while_space_spec (remaining : nat) :
  forall (line : list ascii) (verinfo v' r' : nat),
    while_space line verinfo remaining = (v', r') ->
    verinfo + remaining <= length line ->
    v' + r' = verinfo + remaining /\ r' <= remaining /\
    all_space (region line verinfo (v' - verinfo)) /\
    (r' = 0 \/ nth v' line NUL <> SPACE).
Proof.
  induction remaining as [|remaining IH]; intros line verinfo v' r' H Hin;
    cbn [while_space] in H.
  - injection H as <- <-. rewrite Nat.sub_diag. repeat split; auto. constructor.
  - destruct (Ascii.eqb_spec (nth verinfo line NUL) SPACE) as [E|E].
    + apply IH in H; [|lia]. destruct H as (H1 & H2 & H3 & H4).
      repeat split; auto; try lia.
      replace (v' - verinfo) with (1 + (v' - (verinfo + 1))) by lia.
      rewrite region_add.
      rewrite (region_one line verinfo (nth verinfo line NUL))
        by (apply nth_error_nth'; lia).
      constructor; [exact E|exact H3].
    + injection H as <- <-. rewrite Nat.sub_diag. repeat split; auto. constructor.
Qed.

(** A run of bytes with a property, followed by nothing or by a byte
    without it, can be read off a string in one way only. *)
Lemma span_unique (P : ascii -> Prop) (a : list ascii) :
  forall a' x x' : list ascii,
    Forall P a -> Forall P a' ->
    (x = [] \/ exists c t, x = c :: t /\ ~ P c) ->
    (x' = [] \/ exists c t, x' = c :: t /\ ~ P c) ->
    a ++ x = a' ++ x' -> a = a' /\ x = x'.
Proof.
  induction a as [|c a IH]; intros a' x x' Ha Ha' Hx Hx' E.
  - destruct a' as [|c' a']; [auto|]. exfalso.
    inversion Ha' as [|? ? Hc' _]; subst. cbn [app] in E.
    destruct Hx as [->|(c & t & -> & Hc)]; [discriminate|].
    injection E as -> _. contradiction.
  - inversion Ha as [|? ? Hc Ha0]; subst.
    destruct a' as [|c' a'].
    + exfalso. cbn [app] in E.
      destruct Hx' as [->|(c' & t & -> & Hc')]; [discriminate|].
      injection E as -> _. contradiction.
    + inversion Ha' as [|? ? _ Ha0']; subst. cbn [app] in E. injection E as -> E.
      destruct (IH a' x x' Ha0 Ha0' Hx Hx' E) as [-> ->]. auto.
Qed.

Lemma firstn_exact {A : Type} (u w : list A) : firstn (length u) (u ++ w) = u.
Proof. rewrite firstn_app, Nat.sub_diag, firstn_all. cbn [firstn]. apply app_nil_r. Qed.

Lemma skipn_past {A : Type} (u w : list A) (k : nat) :
  skipn (length u + k) (u ++ w) = skipn k w.
Proof.
  rewrite skipn_app, skipn_all2 by lia.
  replace (length u + k - length u) with k by lia. reflexivity.
Qed.

(** The four writes at the end of the parser, lines 679-682. *)
Lemma firmware_written (a cup nup : list ascii) :
  array_set
    (memcpy (array_set (memcpy a 0 cup) (length cup) DASH) (length cup + 1) nup)
    (length cup + 1 + length nup) NUL
  = cup ++ DASH :: nup ++ NUL :: skipn (length cup + 1 + length nup + 1) a.
Proof.
  unfold memcpy at 2. cbn [firstn app Nat.add].
  unfold array_set at 2.
  rewrite firstn_exact.
  replace (S (length cup)) with (length cup + 1) by lia.
  rewrite skipn_past, skipn_skipn.
  unfold memcpy.
  replace (cup ++ DASH :: skipn (1 + length cup) a)
    with ((cup ++ [DASH]) ++ skipn (1 + length cup) a)
    by (rewrite <- app_assoc; reflexivity).
  assert (Hlen : length (cup ++ [DASH]) = length cup + 1)
    by (rewrite length_app; reflexivity).
  rewrite <- Hlen, firstn_exact, skipn_past, skipn_skipn.
  unfold array_set.
  replace ((cup ++ [DASH]) ++ nup ++ skipn (length nup + (1 + length cup)) a)
    with (((cup ++ [DASH]) ++ nup) ++ skipn (length nup + (1 + length cup)) a)
    by (rewrite <- !app_assoc; reflexivity).
  assert (Hlen2 : length ((cup ++ [DASH]) ++ nup) = length (cup ++ [DASH]) + length nup)
    by (rewrite length_app; reflexivity).
  rewrite <- Hlen2, firstn_exact.
  replace (S (length ((cup ++ [DASH]) ++ nup)))
    with (length ((cup ++ [DASH]) ++ nup) + 1) by lia.
  rewrite skipn_past, skipn_skipn.
  replace (length ((cup ++ [DASH]) ++ nup) + 1)
    with (1 + (length nup + (1 + length cup))) by (rewrite Hlen2, Hlen; lia).
  rewrite <- !app_assoc. reflexivity.
Qed.

Lemma nth_map_default {A B : Type} (f : A -> B) (l : list A) (i : nat) (d : A) (e : B) :
  i < length l -> nth i (map f l) e = f (nth i l d).
Proof.
  intros H. rewrite (nth_indep _ e (f d)) by (now rewrite length_map). apply map_nth.
Qed.

(** The fields of a line next to the arrays that describe them. *)
Lemma CommaSplit_view (starts lengths : list nat) (max_entries : nat) (line : list ascii) :
  0 < max_entries -> max_entries <= length starts -> max_entries <= length lengths ->
  exists (count : nat) (starts' lengths' : list nat) (fields : list (list ascii)),
    SysInfo_CommaSplit starts lengths max_entries line = Some (count, starts', lengths') /\
    CommaSplit_fields starts lengths max_entries line = Some fields /\
    length fields = count /\
    forall i, i < count ->
              nth i fields [] = region line (nth i starts' 0) (nth i lengths' 0) /\
              nth i starts' 0 + nth i lengths' 0 <= length line.
Proof.
  intros Hmax Hs Hl.
  destruct (CommaSplit_entries starts lengths max_entries line Hmax Hs Hl)
    as (count & starts' & lengths' & Hrun & Hes & Hcount & _).
  exists count, starts', lengths',
    (map (field_bytes line) (entries_of (count, starts', lengths'))).
  unfold CommaSplit_fields. rewrite Hrun. cbn [option_map].
  split; [reflexivity|]. split; [reflexivity|].
  split; [rewrite length_map, Hes; auto|].
  intros i Hi.
  destruct (comma_entries_tiles (max_entries - 1) line 0 (length line))
    as (_ & _ & _ & Hin); [simpl; lia|].
  rewrite <- Hes in Hin. specialize (Hin i).
  rewrite (nth_map_default _ _ _ (0, 0)) by (rewrite Hes; lia).
  rewrite entries_of_read in * by exact Hi.
  split; [reflexivity|]. apply Hin. rewrite Hes. lia.
Qed.

Lemma ProductLog_cases (info : SysInfo) (line : list ascii) :
  (Z.of_nat (length line) <= SIZE_MAX)%Z ->
  SysInfoLineParser_ProductLog info line = info
  \/ exists (fields : list (list ascii)) (nup sp cup tail : list ascii),
      CommaSplit_fields (repeat 0 10) (repeat 0 10) 10 line = Some fields /\
      data_list_record fields /\
      version_info (nth 7 fields []) nup sp cup tail /\
      length cup + 1 + length nup + 1 <= 16 /\
      SysInfoLineParser_ProductLog info line
      = {| assembly_date := assembly_date info;
           original_firmware := firmware_value (original_firmware info) cup nup |}.
Proof.
  intros Hsize.
  destruct (CommaSplit_view (repeat 0 10) (repeat 0 10) 10 line)
    as (count & starts & lengths & fields & Hrun & Hfields & Hcount & Hview);
    [lia|simpl; lia|simpl; lia|].
  unfold SysInfoLineParser_ProductLog. rewrite Hrun.
  destruct (count <? 2) eqn:H1; [now left|].
  match goal with |- context [if ?c then info else _] => destruct c eqn:H2 end; [now left|].
  match goal with |- context [if ?c then _ else info] => destruct c eqn:H3 end; [|now left].
  match goal with |- context [if ?c then info else _] => destruct c eqn:H4 end; [now left|].
  match goal with |- context [if ?c then info else _] => destruct c eqn:H5 end; [now left|].
  destruct (until_space line (nth 7 starts 0 + 4) (nth 7 lengths 0 - 4)) as [v1 r1] eqn:Hu1.
  destruct (while_space line v1 r1) as [v2 r2] eqn:Hw.
  match goal with |- context [if ?c then info else _] => destruct c eqn:H6 end; [now left|].
  destruct (until_space line (v2 + 4) (r2 - 4)) as [v3 r3] eqn:Hu3.
  match goal with |- context [if ?c then info else _] => destruct c eqn:H7 end; [now left|].
  match goal with |- context [if ?c then info else _] => destruct c eqn:H8 end; [now left|].
  match goal with |- context [if ?c then info else _] => destruct c eqn:H9 end; [now left|].
  right.
  apply Nat.ltb_ge in H1.
  apply orb_false_iff in H2 as [H2a H2b].
  apply Nat.eqb_neq in H2a. apply negb_false_iff in H2b.
  apply andb_true_iff in H3 as [H3a H3b]. apply Nat.eqb_eq in H3a.
  apply orb_false_iff in H4 as [H4 H4c]. apply orb_false_iff in H4 as [H4a H4b].
  apply Nat.ltb_ge in H4a. apply negb_false_iff in H4b, H4c. apply Nat.eqb_eq in H4b.
  apply orb_false_iff in H5 as [H5a H5b]. apply Nat.ltb_ge in H5a. apply negb_false_iff in H5b.
  apply orb_false_iff in H6 as [H6a H6b]. apply Nat.ltb_ge in H6a. apply negb_false_iff in H6b.
  destruct (Hview 0) as [F0 B0]; [lia|]. destruct (Hview 1) as [F1 B1]; [lia|].
  destruct (Hview 2) as [F2 B2]; [lia|]. destruct (Hview 7) as [F7 B7]; [lia|].
  set (s7 := nth 7 starts 0) in *. set (l7 := nth 7 lengths 0) in *.
  destruct (until_space_spec _ _ _ _ _ Hu1) as (U1 & U1r & Unup & U1s); [lia|].
  destruct (while_space_spec _ _ _ _ _ Hw) as (W & Wr & Wsp & Ws); [lia|].
  destruct (until_space_spec _ _ _ _ _ Hu3) as (U3 & U3r & Ucup & U3s); [lia|].
  assert (Hnup4 : region line s7 4 = lit "nup:")
    by (apply memcmp_region; [reflexivity|lia|exact H5b]).
  assert (Hcup4 : region line v2 4 = lit "cup:")
    by (apply memcmp_region; [reflexivity|lia|exact H6b]).
  assert (Hgap : v1 < v2).
  { destruct Ws as [Ws|Ws]; [lia|]. destruct U1s as [U1s|U1s]; [lia|].
    destruct (Nat.eq_dec v1 v2) as [<-|]; [|lia].
    exfalso. apply Ws. now apply nth_error_nth. }
  remember (region line (s7 + 4) (v1 - (s7 + 4))) as nup eqn:Enup.
  remember (region line (v2 + 4) (v3 - (v2 + 4))) as cup eqn:Ecup.
  assert (Lnup : length nup = v1 - (s7 + 4)) by (subst nup; apply region_length; lia).
  assert (Lcup : length cup = v3 - (v2 + 4)) by (subst cup; apply region_length; lia).
  exists fields, nup, (region line v1 (v2 - v1)), cup, (region line v3 r3).
  split; [exact Hfields|]. split; [|split; [|split]].
  - unfold data_list_record. rewrite F0, F1, F2. repeat split.
    + lia.
    + intros E. apply (f_equal (@length ascii)) in E.
      rewrite region_length in E by lia. cbn [length] in E. lia.
    + exact H2b.
    + rewrite H3a. apply memcmp_region; [reflexivity|lia|exact H3b].
    + rewrite H4b. apply memcmp_region; [reflexivity|lia|exact H4c].
  - unfold version_info. rewrite F7. repeat split.
    + replace l7 with (4 + ((v1 - (s7 + 4)) + ((v2 - v1) + (4 + ((v3 - (v2 + 4)) + r3)))))
        by lia.
      rewrite !region_add, Hnup4, <- Enup.
      replace (s7 + 4 + (v1 - (s7 + 4))) with v1 by lia.
      replace (v1 + (v2 - v1)) with v2 by lia.
      rewrite Hcup4, <- Ecup.
      replace (v2 + 4 + (v3 - (v2 + 4))) with v3 by lia.
      reflexivity.
    + subst nup. exact Unup.
    + intros E. apply (f_equal (@length ascii)) in E.
      rewrite region_length in E by lia. cbn [length] in E. lia.
    + exact Wsp.
    + subst cup. exact Ucup.
    + destruct U3s as [->|U3s]; [now left|].
      destruct r3 as [|k]; [now left|]. right.
      change (S k) with (1 + k). rewrite region_add, (region_one _ _ _ U3s).
      eexists. reflexivity.
  - rewrite Lnup, Lcup.
    apply Z.ltb_ge in H7. rewrite Z.gtb_ltb in H8, H9.
    apply Z.ltb_ge in H8, H9.
    unfold SIZE_MAX in *. change (2 ^ 32)%Z with 4294967296%Z in *.
    assert (Hn : (Z.of_nat (v1 - (s7 + 4)) <= 4294967295)%Z) by lia.
    assert (Hc : (Z.of_nat (v3 - (v2 + 4)) <= 4294967295)%Z) by lia.
    Z.div_mod_to_equations. lia.
  - rewrite <- Lnup, <- Lcup. rewrite firmware_written. reflexivity.
Qed.

(** The writes stay inside [original_firmware]. *)
Lemma ProductLog_sized (info : SysInfo) (line : list ascii) :
  (Z.of_nat (length line) <= SIZE_MAX)%Z ->
  SysInfo_sized info -> SysInfo_sized (SysInfoLineParser_ProductLog info line).
Proof.
  intros Hsize [Hdate Hfw].
  destruct (ProductLog_cases info line Hsize)
    as [->|(fields & nup & sp & cup & tail & _ & _ & _ & Hfit & ->)]; [now split|].
  split; cbn [assembly_date original_firmware]; [exact Hdate|].
  unfold firmware_value. rewrite length_app. cbn [length].
  rewrite length_app. cbn [length]. rewrite length_skipn. lia.
Qed.

Lemma space_first (sp x : list ascii) :
  sp <> [] -> all_space sp ->
  exists c t, sp ++ x = c :: t /\ ~ Ascii.eqb c SPACE = false.
Proof.
  intros Hne Hsp. destruct sp as [|c sp]; [contradiction|].
  inversion Hsp as [|? ? Hc _]; subst. exists SPACE, (sp ++ x). split; [reflexivity|].
  discriminate.
Qed.

Lemma version_info_nup (field nup sp cup tail nup' x : list ascii) :
  version_info field nup sp cup tail ->
  field = lit "nup:" ++ nup' ++ x ->
  no_space nup' ->
  (x = [] \/ exists c t, x = c :: t /\ ~ Ascii.eqb c SPACE = false) ->
  nup = nup' /\ sp ++ lit "cup:" ++ cup ++ tail = x.
Proof.
  intros (E & Hnup & Hne & Hsp & _) E' Hnup' Hx.
  rewrite E in E'. apply app_inv_head in E'.
  apply (span_unique (fun b => Ascii.eqb b SPACE = false)); auto.
  right. now apply space_first.
Qed.

Lemma version_info_unique (field nup sp cup tail nup' sp' cup' tail' : list ascii) :
  version_info field nup sp cup tail ->
  version_info field nup' sp' cup' tail' ->
  nup = nup' /\ cup = cup'.
Proof.
  intros H H'. pose proof H' as (E' & Hnup' & Hne' & Hsp' & Hcup' & Htail').
  destruct (version_info_nup _ _ _ _ _ nup' (sp' ++ lit "cup:" ++ cup' ++ tail') H E' Hnup')
    as [Enup Erest]; [right; now apply space_first|].
  split; [exact Enup|].
  destruct H as (_ & _ & _ & Hsp & Hcup & Htail).
  apply (span_unique (fun b => b = SPACE)) in Erest; auto;
    try (right; eexists _, _; split; [reflexivity|discriminate]).
  destruct Erest as [_ Erest]. apply app_inv_head in Erest.
  assert (Hend : forall t : list ascii,
            (t = [] \/ exists t', t = SPACE :: t') ->
            t = [] \/ exists c u, t = c :: u /\ ~ Ascii.eqb c SPACE = false).
  { intros t [->|(t' & ->)]; [now left|]. right. eexists _, _. split; [reflexivity|].
    discriminate. }
  apply (span_unique (fun b => Ascii.eqb b SPACE = false)) in Erest; auto.
  tauto.
Qed.

(** C8.  For a line whose length is a [size_t], the parser either leaves
    the record exactly as it was, or the line is a well-formed record and
    [original_firmware] holds all of ["cup-nup"] with its terminator, which
    fit the 16 bytes of the member.  It leaves the record as it was in
    particular when the line has fewer than 2 fields, when the first field
    is empty or not a number, when the eighth field does not begin with
    ["nup:"], when no space follows the value of [nup], when ["cup:"] does
    not follow the spaces, and when ["cup-nup"] with its terminator needs
    more than 16 bytes. *)
Theorem ProductLog_atomic (info : SysInfo) (line : list ascii) :
  (Z.of_nat (length line) <= SIZE_MAX)%Z ->
  (SysInfoLineParser_ProductLog info line = info
   \/ exists (fields : list (list ascii)) (nup sp cup tail : list ascii),
       CommaSplit_fields (repeat 0 10) (repeat 0 10) 10 line = Some fields /\
       data_list_record fields /\
       version_info (nth 7 fields []) nup sp cup tail /\
       length cup + 1 + length nup + 1 <= 16 /\
       SysInfoLineParser_ProductLog info line
       = {| assembly_date := assembly_date info;
            original_firmware := firmware_value (original_firmware info) cup nup |})
  /\ (exists fields : list (list ascii),
        CommaSplit_fields (repeat 0 10) (repeat 0 10) 10 line = Some fields /\
        (length fields < 2 \/ nth 0 fields [] = []
         \/ SysInfo_IsOnlyDigits (nth 0 fields []) = false ->
         SysInfoLineParser_ProductLog info line = info) /\
        (firstn 4 (nth 7 fields []) <> lit "nup:" ->
         SysInfoLineParser_ProductLog info line = info) /\
        (forall nup : list ascii,
            nth 7 fields [] = lit "nup:" ++ nup -> no_space nup ->
            SysInfoLineParser_ProductLog info line = info) /\
        (forall nup sp rest : list ascii,
            nth 7 fields [] = lit "nup:" ++ nup ++ sp ++ rest ->
            no_space nup -> sp <> [] -> all_space sp ->
            (rest = [] \/ exists c t, rest = c :: t /\ c <> SPACE) ->
            firstn 4 rest <> lit "cup:" ->
            SysInfoLineParser_ProductLog info line = info) /\
        (forall nup sp cup tail : list ascii,
            version_info (nth 7 fields []) nup sp cup tail ->
            16 < length cup + 1 + length nup + 1 ->
            SysInfoLineParser_ProductLog info line = info)).
Proof.
  intros Hsize. pose proof (ProductLog_cases info line Hsize) as Hcases.
  split; [exact Hcases|].
  destruct (CommaSplit_view (repeat 0 10) (repeat 0 10) 10 line)
    as (count & starts & lengths & fields & _ & Hfields & _); [lia|simpl; lia|simpl; lia|].
  exists fields. split; [exact Hfields|].
  assert (Hskip : forall Q : Prop,
            (forall nup sp cup tail : list ascii,
                data_list_record fields ->
                version_info (nth 7 fields []) nup sp cup tail ->
                length cup + 1 + length nup + 1 <= 16 -> Q -> False) ->
            Q -> SysInfoLineParser_ProductLog info line = info).
  { intros Q HQ q.
    destruct Hcases as [H|(fields' & nup & sp & cup & tail & Hf & Hrec & Hver & Hfit & _)];
      [exact H|].
    rewrite Hfields in Hf. injection Hf as <-.
    exfalso. exact (HQ nup sp cup tail Hrec Hver Hfit q). }
  split; [|split; [|split; [|split]]].
  - apply Hskip. intros nup sp cup tail (Hlen & Hne & Hdig & _) _ _ [H|[H|H]].
    + lia.
    + contradiction.
    + rewrite H in Hdig. discriminate.
  - apply Hskip. intros nup sp cup tail _ (E & _) _ H. apply H. now rewrite E.
  - intros nup E Hnup. revert E. apply Hskip. intros nup' sp cup tail _ Hver _ E.
    rewrite <- (app_nil_r nup) in E.
    destruct (version_info_nup _ _ _ _ _ nup [] Hver E Hnup) as [_ Hrest]; [now left|].
    destruct Hver as (_ & _ & Hne & _). destruct sp; [contradiction|discriminate].
  - intros nup sp rest E Hnup Hne Hsp Hrest Hcup. revert E. apply Hskip.
    intros nup' sp' cup tail _ Hver _ E.
    destruct (version_info_nup _ _ _ _ _ nup (sp ++ rest) Hver E Hnup) as [_ Erest];
      [right; now apply space_first|].
    destruct Hver as (_ & _ & _ & Hsp' & _).
    apply (span_unique (fun b => b = SPACE)) in Erest; auto.
    + destruct Erest as [_ <-]. apply Hcup. reflexivity.
    + right. eexists _, _. split; [reflexivity|discriminate].
  - intros nup sp cup tail Hver Hbig. revert Hbig. apply Hskip.
    intros nup' sp' cup' tail' _ Hver' Hfit Hbig.
    destruct (version_info_unique _ _ _ _ _ _ _ _ _ Hver Hver') as [-> ->]. lia.
Qed.

Lemma ProductLog_atomic_witness :
  SysInfoLineParser_ProductLog unknown_info (lit "12") = unknown_info
  /\ SysInfoLineParser_ProductLog
       unknown_info (lit "12,DataList,OK,a,b,c,d,nup:20U cup:11.17.0-50.000 x")
     = unknown_info.
Proof.
  split.
  - destruct (ProductLog_atomic unknown_info (lit "12"))
      as (_ & fields & Hfields & Hfew & _); [unfold SIZE_MAX; simpl; lia|].
    apply Hfew. left. vm_compute in Hfields. injection Hfields as <-. simpl. lia.
  - destruct (ProductLog_atomic unknown_info
                (lit "12,DataList,OK,a,b,c,d,nup:20U cup:11.17.0-50.000 x"))
      as (_ & fields & Hfields & _ & _ & _ & _ & Hbig); [unfold SIZE_MAX; simpl; lia|].
    vm_compute in Hfields. injection Hfields as <-.
    apply (Hbig (lit "20U") [SPACE] (lit "11.17.0-50.000") (lit " x")).
    + unfold version_info, no_space, all_space.
      split; [reflexivity|]. split; [repeat constructor|]. split; [discriminate|].
      split; [repeat constructor|]. split; [repeat constructor|].
      right. eexists. reflexivity.
    + simpl. lia.
Defined.

(** A record that is accepted, and a later one that replaces its value. *)
Example ProductLog_overwrites :
  cstring (original_firmware
             (SysInfoLineParser_ProductLog
                unknown_info
                (lit "12,DataList,OK,a,b,c,d,nup:20U cup:9.0.0 preInstall:RA1")))
  = lit "9.0.0-20U"
  /\ cstring (original_firmware
                (fold_left SysInfoLineParser_ProductLog
                   [lit "12,DataList,OK,a,b,c,d,nup:20U cup:9.0.0 preInstall:RA1";
                    lit "13,DataList,OK,a,b,c,d,nup:21E cup:10.1.0 preInstall:RA1"]
                   unknown_info))
     = lit "10.1.0-21E".
Proof. split; vm_compute; reflexivity. Qed.

(** * Further properties of the line splitter *)

Lemma feed_tidy (s : scan_state (list (list ascii))) (b : ascii) :
  tidy s -> tidy (feed record_line s b).
Proof.
  destruct s as [[[line skip_line] prev_cr] seen]. intros [[Hline Hlen] Hseen].
  destruct (is_terminator b) eqn:Hb.
  - rewrite feed_terminator by exact Hb. split.
    + split; [constructor|unfold BUFFER_SIZE; simpl; lia].
    + destruct (negb skip_line
                && (negb (length line =? 0) || negb (Ascii.eqb b LF) || negb prev_cr));
        [|exact Hseen].
      apply Forall_app. split; [exact Hseen|]. constructor; [|constructor]. now split.
  - destruct (Nat.eq_dec (S (length line)) BUFFER_SIZE) as [Hfull|Hroom].
    + rewrite feed_byte_full by assumption. split; [|exact Hseen].
      split; [constructor|unfold BUFFER_SIZE; simpl; lia].
    + rewrite feed_byte by assumption. split; [|exact Hseen]. split.
      * apply no_terminator_app; [exact Hline|]. constructor; [exact Hb|constructor].
      * rewrite length_app. simpl. lia.
Qed.

Lemma fold_feed_tidy (input : list ascii) :
  forall s : scan_state (list (list ascii)),
    tidy s -> tidy (fold_left (feed record_line) input s).
Proof.
  induction input as [|b input IH]; intros s Hs; [exact Hs|].
  cbn [fold_left]. apply IH. now apply feed_tidy.
Qed.

Lemma lines_fit (file : FIL) :
  exists ls : list (list ascii), SysInfo_lines file = Some ls /\ Forall fits ls.
Proof.
  unfold SysInfo_lines. rewrite ParseText_bytes. eexists. split; [reflexivity|].
  unfold split_bytes.
  assert (Hinit : tidy ([], false, false, [])).
  { split; [split; [constructor|unfold BUFFER_SIZE; simpl; lia]|constructor]. }
  pose proof (fold_feed_tidy (file_bytes file) _ Hinit) as Htidy.
  destruct (fold_left (feed record_line) (file_bytes file) ([], false, false, []))
    as [[[line skip_line] prev_cr] seen].
  destruct Htidy as [Hline Hseen]. unfold finish, final_flush.
  destruct (0 <? length line); [|exact Hseen].
  apply Forall_app. split; [exact Hseen|]. constructor; [exact Hline|constructor].
Qed.

(** X1.  Whatever the file delivers, every line handed to the consumer is
    free of CR and LF and shorter than the buffer; in particular no line of
    512 bytes or more is ever reported whole. *)
Theorem reported_lines_fit (file : FIL) :
  exists ls : list (list ascii),
    SysInfo_lines file = Some ls /\
    Forall (fun l => no_terminator l /\ length l < BUFFER_SIZE) ls.
Proof. exact (lines_fit file). Qed.

(** X2.  A line feed cuts the stream in two independent parts: the lines
    of a stream are those of its part up to and including any line feed,
    followed by those of the part after it. *)
Theorem lines_split_at_lf (pre suf : list ascii) :
  exists P R : list (list ascii),
    SysInfo_lines (whole (pre ++ [LF])) = Some P /\
    SysInfo_lines (whole suf) = Some R /\
    SysInfo_lines (whole (pre ++ LF :: suf)) = Some (P ++ R).
Proof.
  exists (lines_from false (pre ++ [LF])), (lines_from false suf).
  rewrite !lines_whole. repeat split. f_equal.
  destruct (line_start_state (pre ++ [LF])) as (prev_cr & seen & Hst & Hseen).
  { right. exists pre, LF. split; reflexivity. }
  rewrite Hseen.
  replace (pre ++ LF :: suf) with ((pre ++ [LF]) ++ suf)
    by (rewrite <- app_assoc; reflexivity).
  unfold lines_from at 1. rewrite fold_left_app, Hst.
  rewrite fold_left_app in Hst. cbn [fold_left] in Hst.
  destruct (fold_left (feed record_line) pre ([], false, false, []))
    as [[[line skip_line] p] acc].
  rewrite feed_terminator in Hst by reflexivity.
  injection Hst as Hcr _. change (Ascii.eqb LF CR) with false in Hcr. subst prev_cr.
  apply lines_from_seen.
Qed.

Lemma buffer_size_pos : BUFFER_SIZE <> 0.
Proof. discriminate. Qed.

Lemma overflow_tail_small (l : list ascii) :
  length l < BUFFER_SIZE -> overflow_tail l = l.
Proof. intros H. unfold overflow_tail. rewrite Nat.div_small by exact H. now rewrite Nat.mul_0_r. Qed.

Lemma overflow_tail_block (a l : list ascii) :
  length a = BUFFER_SIZE -> overflow_tail (a ++ l) = overflow_tail l.
Proof.
  intros Ha. unfold overflow_tail. rewrite length_app, Ha.
  replace (BUFFER_SIZE + length l) with (1 * BUFFER_SIZE + length l) by lia.
  rewrite Nat.div_add_l by exact buffer_size_pos.
  rewrite Nat.mul_add_distr_l, Nat.mul_1_r, <- Ha. apply skipn_past.
Qed.

Lemma overflow_tail_length (l : list ascii) :
  length (overflow_tail l) = length l mod BUFFER_SIZE.
Proof. unfold overflow_tail. rewrite length_skipn. symmetry. apply Nat.Div0.mod_eq. Qed.

(** Bytes without a terminator only fill the buffer, again and again. *)
Lemma feed_unterminated {Ctx : Type} (line_parser : Ctx -> list ascii -> Ctx)
      (l : list ascii) :
  forall (line : list ascii) (skip_line prev_cr : bool) (context : Ctx),
    no_terminator l -> length line < BUFFER_SIZE ->
    fold_left (feed line_parser) l (line, skip_line, prev_cr, context)
    = (overflow_tail (line ++ l),
       skip_line || (BUFFER_SIZE <=? length line + length l), prev_cr, context).
Proof.
  induction l as [|b l IH]; intros line skip_line prev_cr context Hl Hlt.
  - cbn [fold_left length]. rewrite app_nil_r, Nat.add_0_r, overflow_tail_small by exact Hlt.
    replace (BUFFER_SIZE <=? length line) with false by (symmetry; apply Nat.leb_gt; lia).
    now rewrite orb_false_r.
  - inversion Hl as [|? ? Hb Hl']; subst. cbn [fold_left].
    replace (line ++ b :: l) with ((line ++ [b]) ++ l) by (rewrite <- app_assoc; reflexivity).
    assert (Hlen : length (line ++ [b]) = S (length line)) by (rewrite length_app; simpl; lia).
    destruct (Nat.eq_dec (S (length line)) BUFFER_SIZE) as [Hfull|Hroom].
    + rewrite feed_byte_full by assumption.
      rewrite IH by (auto; unfold BUFFER_SIZE; simpl; lia).
      rewrite (overflow_tail_block (line ++ [b]) l) by lia. cbn [app length Nat.add].
      replace (BUFFER_SIZE <=? length line + S (length l)) with true
        by (symmetry; apply Nat.leb_le; lia).
      now rewrite orb_true_r.
    + rewrite feed_byte by assumption.
      rewrite IH by (auto; lia). rewrite Hlen. cbn [length].
      replace (S (length line) + length l) with (length line + S (length l)) by lia.
      reflexivity.
Qed.

(** X3.  A stream without any terminator is reported as one line only as
    far as it goes beyond the last full buffer: whole when it is shorter
    than the buffer, not at all when its length is a multiple of the buffer
    size (a line of exactly 512 bytes is lost), and otherwise only its last
    [length mod 512] bytes. *)
Theorem unterminated_stream (l : list ascii) :
  no_terminator l ->
  SysInfo_lines (whole l)
  = Some (if length l mod BUFFER_SIZE =? 0 then []
          else [skipn (length l - length l mod BUFFER_SIZE) l])
  /\ (0 < length l < BUFFER_SIZE -> SysInfo_lines (whole l) = Some [l])
  /\ (length l = BUFFER_SIZE -> SysInfo_lines (whole l) = Some []).
Proof.
  intros Hl.
  assert (Hrun : SysInfo_lines (whole l)
                 = Some (if 0 <? length (overflow_tail l) then [overflow_tail l] else [])).
  { rewrite lines_whole. unfold lines_from.
    rewrite feed_unterminated by (auto; unfold BUFFER_SIZE; simpl; lia).
    reflexivity. }
  split; [|split].
  - rewrite Hrun, overflow_tail_length. unfold overflow_tail.
    replace (BUFFER_SIZE * (length l / BUFFER_SIZE)) with (length l - length l mod BUFFER_SIZE)
      by (rewrite (Nat.Div0.mod_eq (length l) BUFFER_SIZE);
          pose proof (Nat.Div0.mul_div_le (length l) BUFFER_SIZE); lia).
    destruct (length l mod BUFFER_SIZE) as [|k]; reflexivity.
  - intros [Hpos Hlt]. rewrite Hrun, overflow_tail_small by exact Hlt.
    replace (0 <? length l) with true by (symmetry; apply Nat.ltb_lt; lia). reflexivity.
  - intros Hfull. rewrite Hrun, overflow_tail_length, Hfull, Nat.Div0.mod_same. reflexivity.
Qed.

Lemma unterminated_stream_witness :
  SysInfo_lines (whole (repeat "x"%char 512 ++ lit "yyy")) = Some [lit "yyy"].
Proof.
  destruct (unterminated_stream (repeat "x"%char 512 ++ lit "yyy")) as (H & _).
  - apply Forall_app. split; [|repeat constructor].
    apply Forall_forall. intros b Hb. apply repeat_spec in Hb. subst b. reflexivity.
  - rewrite H. vm_compute. reflexivity.
Defined.




(** Once a line has content, or is being skipped, [prev_cr] no longer
    matters. *)
Lemma prev_cr_forgotten (input : list ascii) :
  forall (line : list ascii) (skip_line p1 p2 : bool) (seen : list (list ascii)),
    line <> [] \/ skip_line = true ->
    finish record_line (fold_left (feed record_line) input (line, skip_line, p1, seen))
    = finish record_line (fold_left (feed record_line) input (line, skip_line, p2, seen)).
Proof.
  induction input as [|b input IH]; intros line skip_line p1 p2 seen Hstate; [reflexivity|].
  cbn [fold_left]. destruct (is_terminator b) eqn:Hb.
  - rewrite !feed_terminator by exact Hb.
    replace (negb skip_line
             && (negb (length line =? 0) || negb (Ascii.eqb b LF) || negb p1))
      with (negb skip_line
            && (negb (length line =? 0) || negb (Ascii.eqb b LF) || negb p2));
      [reflexivity|].
    destruct Hstate as [Hline| ->]; [|reflexivity].
    destruct line; [contradiction|reflexivity].
  - destruct (Nat.eq_dec (S (length line)) BUFFER_SIZE) as [Hfull|Hroom].
    + rewrite !feed_byte_full by assumption. apply IH. now right.
    + rewrite !feed_byte by assumption. apply IH. left. now destruct line.
Qed.

Lemma lines_from_cr (suf : list ascii) :
  (suf = [] \/ exists b t, suf = b :: t /\ b <> LF) ->
  lines_from true suf = lines_from false suf.
Proof.
  intros [-> | (b & t & -> & Hb)]; [reflexivity|].
  unfold lines_from. cbn [fold_left].
  destruct (is_terminator b) eqn:Hterm.
  - destruct (is_terminator_cases b Hterm) as [-> | ->]; [|contradiction].
    rewrite !feed_terminator by reflexivity. reflexivity.
  - rewrite !feed_byte by (auto; discriminate).
    apply prev_cr_forgotten. left. discriminate.
Qed.

(** X5.  A carriage return cuts the stream in two independent parts as
    well, unless a line feed follows it directly. *)
Theorem lines_split_at_cr (pre suf : list ascii) :
  (suf = [] \/ exists b t, suf = b :: t /\ b <> LF) ->
  exists P R : list (list ascii),
    SysInfo_lines (whole (pre ++ [CR])) = Some P /\
    SysInfo_lines (whole suf) = Some R /\
    SysInfo_lines (whole (pre ++ CR :: suf)) = Some (P ++ R).
Proof.
  intros Hsuf.
  exists (lines_from false (pre ++ [CR])), (lines_from false suf).
  rewrite !lines_whole. repeat split. f_equal.
  destruct (line_start_state (pre ++ [CR])) as (prev_cr & seen & Hst & Hseen).
  { right. exists pre, CR. split; reflexivity. }
  rewrite Hseen.
  replace (pre ++ CR :: suf) with ((pre ++ [CR]) ++ suf)
    by (rewrite <- app_assoc; reflexivity).
  unfold lines_from at 1. rewrite fold_left_app, Hst.
  rewrite fold_left_app in Hst. cbn [fold_left] in Hst.
  destruct (fold_left (feed record_line) pre ([], false, false, []))
    as [[[line skip_line] p] acc].
  rewrite feed_terminator in Hst by reflexivity.
  injection Hst as Hcr _. change (Ascii.eqb CR CR) with true in Hcr. subst prev_cr.
  rewrite lines_from_seen, lines_from_cr by exact Hsuf. reflexivity.
Qed.

Lemma lines_split_at_cr_witness :
  exists P R : list (list ascii),
    SysInfo_lines (whole (lit "a" ++ [CR])) = Some P /\
    SysInfo_lines (whole (lit "b")) = Some R /\
    SysInfo_lines (whole (lit "a" ++ CR :: lit "b")) = Some (P ++ R).
Proof.
  apply (lines_split_at_cr (lit "a") (lit "b")).
  right. eexists _, _. split; [reflexivity|discriminate].
Defined.

(** One line of content with a terminator of any style. *)
Lemma one_line_mixed (l : list ascii) (e : line_end) (prev_cr : bool)
      (seen : list (list ascii)) :
  fits l -> ~ (prev_cr = true /\ l = [] /\ e = EndLF) ->
  fold_left (feed record_line) (l ++ line_end_bytes e) ([], false, prev_cr, seen)
  = ([], false, ends_in_cr e, seen ++ [l]).
Proof.
  intros [Hl Hlen] Hsep.
  rewrite fold_left_app, feed_content by (auto; simpl; lia).
  cbn [app]. destruct e; cbn [line_end_bytes fold_left ends_in_cr].
  - rewrite feed_terminator by reflexivity.
    change (Ascii.eqb LF LF) with true. change (Ascii.eqb LF CR) with false.
    cbn [negb orb andb]. rewrite orb_false_r.
    replace (negb (length l =? 0) || negb prev_cr) with true; [reflexivity|].
    destruct l as [|c l]; [|reflexivity]. destruct prev_cr; [|reflexivity].
    exfalso. apply Hsep. auto.
  - rewrite feed_terminator by reflexivity.
    change (Ascii.eqb CR LF) with false. change (Ascii.eqb CR CR) with true.
    cbn [negb orb andb]. rewrite orb_true_r. reflexivity.
  - rewrite feed_terminator by reflexivity.
    change (Ascii.eqb CR LF) with false. change (Ascii.eqb CR CR) with true.
    cbn [negb orb andb]. rewrite orb_true_r.
    rewrite feed_terminator by reflexivity. reflexivity.
Qed.

Lemma mixed_lines (lines : list (list ascii * line_end)) :
  forall (prev_cr : bool) (seen : list (list ascii)),
    Forall fits (map fst lines) -> separable prev_cr lines ->
    finish record_line
           (fold_left (feed record_line) (mixed lines) ([], false, prev_cr, seen))
    = seen ++ map fst lines.
Proof.
  induction lines as [|[l e] lines IH]; intros prev_cr seen Hfit Hsep.
  - simpl. now rewrite app_nil_r.
  - cbn [map fst] in Hfit. inversion Hfit as [|? ? Hl Hrest]; subst.
    destruct Hsep as [Hhere Hnext].
    unfold mixed in *. cbn [map concat fst snd].
    rewrite fold_left_app, one_line_mixed by assumption.
    rewrite IH by assumption. cbn [map fst]. now rewrite <- app_assoc.
Qed.

(** X6.  Terminators of different styles may be mixed in one stream: when
    every content is free of CR and LF and fits the buffer, and no empty
    line ending in a bare LF follows a line ending in a bare CR, exactly
    the contents are reported, in order. *)
Theorem mixed_terminators (lines : list (list ascii * line_end)) :
  Forall (fun l => no_terminator l /\ length l < BUFFER_SIZE) (map fst lines) ->
  separable false lines ->
  SysInfo_lines (whole (mixed lines)) = Some (map fst lines).
Proof.
  intros Hfit Hsep. rewrite lines_whole. unfold lines_from.
  now rewrite mixed_lines.
Qed.

Lemma mixed_terminators_witness :
  SysInfo_lines (whole (mixed [(lit "a", EndCR); (lit "b", EndLF); ([], EndLF);
                               (lit "c", EndCRLF); ([], EndCR); ([], EndCRLF)]))
  = Some (map fst [(lit "a", EndCR); (lit "b", EndLF); ([], EndLF);
                   (lit "c", EndCRLF); ([], EndCR); ([], EndCRLF)]).
Proof.
  apply mixed_terminators.
  - unfold BUFFER_SIZE. repeat constructor; simpl; lia.
  - cbn [separable ends_in_cr]. repeat split; intros (H1 & H2 & H3); discriminate.
Defined.

(** * Further properties of the tokenizer *)

Lemma memchr_before (s : list ascii) (c : ascii) (i : nat) :
  memchr s c = Some i -> Forall (fun b => Ascii.eqb b c = false) (firstn i s).
Proof.
  revert i; induction s as [|x s IH]; simpl; intros i H; [discriminate|].
  destruct (Ascii.eqb x c) eqn:E.
  - injection H as <-. constructor.
  - destruct (memchr s c) as [j|]; [|discriminate]. injection H as <-.
    simpl. constructor; auto.
Qed.

Lemma memchr_absent (s : list ascii) (c : ascii) :
  memchr s c = None -> Forall (fun b => Ascii.eqb b c = false) s.
Proof.
  induction s as [|x s IH]; simpl; intros H; [constructor|].
  destruct (Ascii.eqb x c) eqn:E; [discriminate|].
  destruct (memchr s c); [discriminate|]. constructor; auto.
Qed.

Lemma memchr_cut (l : list ascii) (c : nat) :
  memchr l COMMA = Some c -> l = firstn c l ++ COMMA :: skipn (c + 1) l.
Proof.
  intros H. destruct (memchr_bound _ _ _ H) as [_ Hnth].
  rewrite <- (firstn_skipn c l) at 1. f_equal.
  replace (c + 1) with (S c) by lia.
  clear H. revert c Hnth. induction l as [|x l IH]; intros [|c] H; try discriminate.
  - injection H as ->. reflexivity.
  - cbn [skipn]. now apply IH.
Qed.

Lemma commas_none (l : list ascii) : no_comma l -> commas l = 0.
Proof.
  unfold commas. induction 1 as [|b l Hb _ IH]; [reflexivity|].
  cbn [filter]. now rewrite Hb.
Qed.

Lemma commas_app (a b : list ascii) : commas (a ++ b) = commas a + commas b.
Proof. unfold commas. now rewrite filter_app, length_app. Qed.

Lemma comma_fields_count (left : nat) :
  forall l : list ascii,
    length (comma_fields left l) = Nat.min (S left) (S (commas l)) /\
    Forall no_comma (removelast (comma_fields left l)) /\
    (length (comma_fields left l) < S left -> Forall no_comma (comma_fields left l)).
Proof.
  induction left as [|left IH]; intros l; cbn [comma_fields].
  - replace (match memchr l COMMA with Some _ | _ => [l] end) with [l]
      by (now destruct (memchr l COMMA)).
    cbn [length removelast]. split; [|split].
    + destruct (commas l); reflexivity.
    + constructor.
    + intros H. exfalso. lia.
  - destruct (memchr l COMMA) as [c|] eqn:Hc.
    + destruct (IH (skipn (c + 1) l)) as (Hlen & Hinit & Hall).
      pose proof (memchr_before _ _ _ Hc) as Hfirst.
      assert (Hcount : commas l = S (commas (skipn (c + 1) l))).
      { rewrite (memchr_cut l c Hc) at 1. rewrite commas_app, (commas_none _ Hfirst).
        unfold commas at 1. cbn [filter]. change (Ascii.eqb COMMA COMMA) with true.
        reflexivity. }
      assert (Hne : comma_fields left (skipn (c + 1) l) <> []).
      { intros E. rewrite E in Hlen. cbn [length] in Hlen. lia. }
      cbn [length]. rewrite Hlen, Hcount. split; [|split].
      * reflexivity.
      * destruct (comma_fields left (skipn (c + 1) l)) as [|f fs]; [contradiction|].
        change (removelast (firstn c l :: f :: fs))
          with (firstn c l :: removelast (f :: fs)).
        constructor; assumption.
      * intros Hshort. constructor; [exact Hfirst|]. apply Hall. lia.
    + cbn [length removelast]. pose proof (memchr_absent _ _ Hc) as Hno.
      rewrite (commas_none l Hno). split; [reflexivity|]. split; [constructor|].
      intros _. constructor; [exact Hno|constructor].
Qed.

(** X7.  The number of fields is the number of commas plus one, capped at
    [max_entries].  Every field but the last is free of commas, and so is
    the last one unless the cap was reached. *)
Theorem CommaSplit_count (starts lengths : list nat) (max_entries : nat)
        (line : list ascii) :
  0 < max_entries ->
  max_entries <= length starts ->
  max_entries <= length lengths ->
  exists (count : nat) (starts' lengths' : list nat) (fields : list (list ascii)),
    SysInfo_CommaSplit starts lengths max_entries line = Some (count, starts', lengths') /\
    CommaSplit_fields starts lengths max_entries line = Some fields /\
    length fields = count /\
    count = Nat.min max_entries (commas line + 1) /\
    Forall no_comma (removelast fields) /\
    (count < max_entries -> Forall no_comma fields).
Proof.
  intros Hmax Hs Hl.
  destruct (CommaSplit_view starts lengths max_entries line Hmax Hs Hl)
    as (count & starts' & lengths' & fields & Hrun & Hfields & Hcount & _).
  exists count, starts', lengths', fields.
  rewrite CommaSplit_fields_eq in Hfields by assumption. injection Hfields as <-.
  destruct (comma_fields_count (max_entries - 1) line) as (Hlen & Hinit & Hall).
  rewrite CommaSplit_fields_eq by assumption.
  repeat split; auto.
  - rewrite <- Hcount, Hlen. lia.
  - intros Hshort. apply Hall. lia.
Qed.

Lemma CommaSplit_count_witness :
  exists (count : nat) (starts' lengths' : list nat) (fields : list (list ascii)),
    SysInfo_CommaSplit (repeat 0 10) (repeat 0 10) 3 (lit "a,b,c,d")
    = Some (count, starts', lengths') /\
    CommaSplit_fields (repeat 0 10) (repeat 0 10) 3 (lit "a,b,c,d") = Some fields /\
    length fields = count /\
    count = Nat.min 3 (commas (lit "a,b,c,d") + 1) /\
    Forall no_comma (removelast fields) /\
    (count < 3 -> Forall no_comma fields).
Proof.
  apply (CommaSplit_count (repeat 0 10) (repeat 0 10) 3 (lit "a,b,c,d")); simpl; lia.
Defined.

Lemma comma_fields_of_joined (fs : list (list ascii)) :
  forall left : nat,
    fs <> [] -> Forall no_comma fs -> length fs <= S left ->
    comma_fields left (joined [COMMA] fs) = fs.
Proof.
  induction fs as [|f fs IH]; intros left Hne Hfs Hlen; [contradiction|].
  inversion Hfs as [|? ? Hf Hrest]; subst.
  destruct fs as [|g fs].
  - cbn [joined]. destruct left; cbn [comma_fields]; now rewrite (memchr_none f COMMA Hf).
  - destruct left as [|left]; [cbn [length] in Hlen; lia|].
    change (joined [COMMA] (f :: g :: fs)) with (f ++ COMMA :: joined [COMMA] (g :: fs)).
    cbn [comma_fields]. rewrite (memchr_skip f _ COMMA Hf), memchr_here.
    cbn [option_map]. rewrite Nat.add_0_r, firstn_exact, skipn_past.
    cbn [skipn]. rewrite IH; [reflexivity|discriminate|exact Hrest|cbn [length] in *; lia].
Qed.

(** X8.  Splitting undoes joining: comma-free fields, at least one and at
    most [max_entries], joined by single commas are returned as they
    were. *)
Theorem CommaSplit_of_joined (starts lengths : list nat) (max_entries : nat)
        (fs : list (list ascii)) :
  fs <> [] -> Forall no_comma fs -> length fs <= max_entries ->
  max_entries <= length starts -> max_entries <= length lengths ->
  CommaSplit_fields starts lengths max_entries (joined [COMMA] fs) = Some fs.
Proof.
  intros Hne Hfs Hlen Hs Hl.
  assert (0 < max_entries) by (destruct fs; [contradiction|cbn [length] in Hlen; lia]).
  rewrite CommaSplit_fields_eq by assumption.
  rewrite comma_fields_of_joined; auto. lia.
Qed.

Lemma CommaSplit_of_joined_witness :
  CommaSplit_fields (repeat 0 10) (repeat 0 10) 10
                    (joined [COMMA] [lit "12"; lit "DataList"; []; lit "OK"])
  = Some [lit "12"; lit "DataList"; []; lit "OK"].
Proof.
  apply CommaSplit_of_joined.
  - discriminate.
  - repeat constructor.
  - simpl. lia.
  - simpl. lia.
  - simpl. lia.
Defined.

Lemma CommaSplit_loop_beyond (fuel : nat) :
  forall (starts lengths : list nat) (max_entries index : nat) (text : list ascii)
         (line line_length count : nat) (starts' lengths' : list nat),
    CommaSplit_loop fuel starts lengths max_entries index text line line_length
    = Some (count, starts', lengths') ->
    index < max_entries -> max_entries <= length starts -> max_entries <= length lengths ->
    index < count /\
    forall j, count <= j ->
              nth j starts' 0 = nth j starts 0 /\ nth j lengths' 0 = nth j lengths 0.
Proof.
  induction fuel as [|fuel IH];
    intros starts lengths max_entries index text line line_length count starts' lengths'
           Hrun Hidx Hs Hl; [discriminate|].
  cbn [CommaSplit_loop] in Hrun.
  assert (Hlast : forall n,
            Some (index + 1, array_set starts index line, array_set lengths index n)
            = Some (count, starts', lengths') ->
            index < count /\
            forall j, count <= j ->
                      nth j starts' 0 = nth j starts 0 /\ nth j lengths' 0 = nth j lengths 0).
  { intros n E. injection E as <- <- <-. split; [lia|]. intros j Hj.
    rewrite !array_set_nth by lia.
    replace (j =? index) with false by (symmetry; apply Nat.eqb_neq; lia). auto. }
  destruct (memchr (region text line line_length) COMMA) as [c|]; [|now apply Hlast in Hrun].
  destruct (index =? max_entries - 1) eqn:Hend; [now apply Hlast in Hrun|].
  apply Nat.eqb_neq in Hend.
  apply IH in Hrun; rewrite ?array_set_length by lia; try lia.
  destruct Hrun as [Hcount Hkeep]. split; [lia|]. intros j Hj.
  destruct (Hkeep j Hj) as [H1 H2]. rewrite H1, H2, !array_set_nth by lia.
  replace (j =? index) with false by (symmetry; apply Nat.eqb_neq; lia). auto.
Qed.

(** X9.  The call writes the entries it returns and nothing else: every
    element of the two arrays from index [count] on keeps its value. *)
Theorem CommaSplit_rest_untouched (starts lengths : list nat) (max_entries : nat)
        (line : list ascii) (count : nat) (starts' lengths' : list nat) :
  max_entries <= length starts -> max_entries <= length lengths ->
  SysInfo_CommaSplit starts lengths max_entries line = Some (count, starts', lengths') ->
  forall j, count <= j ->
            nth j starts' 0 = nth j starts 0 /\ nth j lengths' 0 = nth j lengths 0.
Proof.
  intros Hs Hl Hrun. unfold SysInfo_CommaSplit in Hrun.
  destruct (max_entries =? 0) eqn:Hmax.
  - injection Hrun as <- <- <-. auto.
  - apply Nat.eqb_neq in Hmax.
    apply CommaSplit_loop_beyond in Hrun; try lia. apply Hrun.
Qed.

Lemma CommaSplit_rest_untouched_witness :
  nth 3 [0; 2; 7; 7] 0 = nth 3 [7; 7; 7; 7] 0 /\
  nth 3 [1; 1; 8; 8] 0 = nth 3 [8; 8; 8; 8] 0.
Proof.
  apply (CommaSplit_rest_untouched [7; 7; 7; 7] [8; 8; 8; 8] 4 (lit "a,b") 2
           [0; 2; 7; 7] [1; 1; 8; 8]).
  - simpl. lia.
  - simpl. lia.
  - reflexivity.
  - lia.
Defined.

(** X10.  [SysInfo_IsOnlyDigits] holds exactly of the strings all of whose
    bytes are decimal digits, the empty string included, and of a
    concatenation exactly when it holds of both parts. *)
Theorem IsOnlyDigits_spec (str : list ascii) :
  (SysInfo_IsOnlyDigits str = true
   <-> Forall (fun c => 48 <= nat_of_ascii c <= 57) str)
  /\ forall str' : list ascii,
      SysInfo_IsOnlyDigits (str ++ str')
      = SysInfo_IsOnlyDigits str && SysInfo_IsOnlyDigits str'.
Proof.
  split.
  - induction str as [|c str IH]; cbn [SysInfo_IsOnlyDigits]; [split; auto|].
    unfold isdigit. destruct (48 <=? nat_of_ascii c) eqn:H1;
      destruct (nat_of_ascii c <=? 57) eqn:H2; cbn [andb negb];
      rewrite ?Nat.leb_le, ?Nat.leb_gt in *.
    + rewrite IH. split; [intros H; constructor; [lia|exact H]|].
      intros H. now inversion H.
    + split; [discriminate|]. intros H. inversion H; subst. lia.
    + split; [discriminate|]. intros H. inversion H; subst. lia.
    + split; [discriminate|]. intros H. inversion H; subst. lia.
  - intros str'. induction str as [|c str IH]; cbn [SysInfo_IsOnlyDigits app]; [reflexivity|].
    destruct (negb (isdigit c)); [reflexivity|exact IH].
Qed.

(** * Further properties of the two line parsers *)

Lemma InspectLog_others (lines : list (list ascii)) :
  forall info : SysInfo,
    Forall (fun l => firstn 15 l <> s_commentUpdated) lines ->
    fold_left SysInfoLineParser_InspectLog lines info = info.
Proof.
  induction lines as [|l lines IH]; intros info Hall; [reflexivity|].
  inversion Hall as [|? ? Hl Hrest]; subst. cbn [fold_left].
  rewrite InspectLog_other by exact Hl. now apply IH.
Qed.

(** X11.  Over any sequence of lines the last line that begins with
    ["CommentUpdated="] decides [assembly_date], whatever came before it
    and whatever the member held; a sequence without such a line leaves the
    record as it was. *)
Theorem InspectLog_last_wins (info : SysInfo) (before after : list (list ascii))
        (rest : list ascii) :
  Forall (fun l => firstn 15 l <> s_commentUpdated) after ->
  cstring (assembly_date
             (fold_left SysInfoLineParser_InspectLog
                        (before ++ (s_commentUpdated ++ rest) :: after) info))
  = cstring (firstn 19 rest)
  /\ fold_left SysInfoLineParser_InspectLog after info = info.
Proof.
  intros Hafter. split; [|now apply InspectLog_others].
  rewrite fold_left_app. cbn [fold_left].
  rewrite InspectLog_match, InspectLog_others by exact Hafter.
  cbn [assembly_date]. apply cstring_nul.
Qed.

Lemma InspectLog_last_wins_witness :
  cstring (assembly_date
             (fold_left SysInfoLineParser_InspectLog
                        ([lit "CommentUpdated=1999"; lit "x"]
                           ++ (s_commentUpdated ++ lit "2011/03/26 12:00:00 and more")
                           :: [lit "CommentUpdate=no"; []]) unknown_info))
  = cstring (firstn 19 (lit "2011/03/26 12:00:00 and more"))
  /\ fold_left SysInfoLineParser_InspectLog [lit "CommentUpdate=no"; []] unknown_info
     = unknown_info.
Proof.
  apply InspectLog_last_wins.
  repeat constructor; discriminate.
Defined.

(** X12.  Neither parser writes outside the member it fills: a record
    whose two arrays have their declared sizes of 20 and 16 bytes keeps
    them. *)
Theorem parsers_keep_sizes (info : SysInfo) (line : list ascii) :
  SysInfo_sized info ->
  SysInfo_sized (SysInfoLineParser_InspectLog info line)
  /\ ((Z.of_nat (length line) <= SIZE_MAX)%Z ->
      SysInfo_sized (SysInfoLineParser_ProductLog info line)).
Proof.
  intros Hsized. split; [now apply InspectLog_sized|].
  intros Hsize. now apply ProductLog_sized.
Qed.

Lemma parsers_keep_sizes_witness :
  SysInfo_sized (SysInfoLineParser_InspectLog
                   unknown_info (lit "CommentUpdated=2011/03/26 12:00:00 and more"))
  /\ SysInfo_sized (SysInfoLineParser_ProductLog
                      unknown_info
                      (lit "12,DataList,OK,a,b,c,d,nup:20U cup:9.0.0 preInstall:RA1")).
Proof.
  destruct (parsers_keep_sizes
              unknown_info (lit "CommentUpdated=2011/03/26 12:00:00 and more"))
    as [H1 _]; [split; reflexivity|].
  destruct (parsers_keep_sizes
              unknown_info (lit "12,DataList,OK,a,b,c,d,nup:20U cup:9.0.0 preInstall:RA1"))
    as [_ H2]; [split; reflexivity|].
  split; [exact H1|]. apply H2. unfold SIZE_MAX. simpl. lia.
Defined.

Lemma memcmp_of_region (text : list ascii) (start n : nat) (s : list ascii) :
  length s = n -> start + n <= length text ->
  region text start n = s -> Z.eqb (memcmp (skipn start text) s n) 0 = true.
Proof.
  intros Hs Hin H. apply Z.eqb_eq. apply memcmp_eq; [rewrite length_skipn; lia|lia|].
  unfold region in H. rewrite H, <- Hs. symmetry. apply firstn_all.
Qed.

Lemma region_head (text : list ascii) (start len : nat) :
  start + S len <= length text ->
  region text start (S len) = nth start text NUL :: region text (start + 1) len.
Proof.
  intros Hin. change (S len) with (1 + len).
  rewrite region_add, (region_one text start (nth start text NUL)); [reflexivity|].
  apply nth_error_nth'. lia.
Qed.

Lemma firstn_len {A : Type} (u w : list A) (n : nat) :
  length u = n -> firstn n (u ++ w) = u.
Proof. intros <-. apply firstn_exact. Qed.

Lemma skipn_len {A : Type} (u w : list A) (n : nat) :
  length u = n -> skipn n (u ++ w) = w.
Proof. intros <-. rewrite <- (Nat.add_0_r (length u)). apply skipn_past. Qed.

Lemma region_prefix (text : list ascii) (start len : nat) (a x : list ascii) :
  start + len <= length text ->
  region text start len = a ++ x ->
  region text start (length a) = a /\
  region text (start + length a) (len - length a) = x /\ length a <= len.
Proof.
  intros Hin E.
  assert (Hlen : length a + length x = len).
  { rewrite <- length_app, <- E. now apply region_length. }
  assert (Hsplit : region text start len
                   = region text start (length a)
                       ++ region text (start + length a) (len - length a)).
  { rewrite <- region_add. f_equal. lia. }
  assert (Hla : length (region text start (length a)) = length a)
    by (apply region_length; lia).
  assert (Hfirst : firstn (length a) (region text start len) = a)
    by (rewrite E; apply firstn_exact).
  assert (Hskip : skipn (length a) (region text start len) = x)
    by (rewrite E; apply skipn_len; reflexivity).
  rewrite Hsplit in Hfirst, Hskip.
  rewrite firstn_len in Hfirst by exact Hla.
  rewrite skipn_len in Hskip by exact Hla.
  repeat split; auto. lia.
Qed.

Lemma region_starts_space (text : list ascii) (start len : nat) :
  start + len <= length text ->
  len = 0 \/ nth_error text start = Some SPACE ->
  region text start len = []
  \/ exists c t, region text start len = c :: t /\ ~ Ascii.eqb c SPACE = false.
Proof.
  intros Hin [-> | Hsp]; [now left|].
  destruct len as [|len]; [now left|]. right.
  rewrite region_head by exact Hin.
  rewrite (nth_error_nth _ _ NUL Hsp). eexists _, _. split; [reflexivity|discriminate].
Qed.

Lemma region_starts_other (text : list ascii) (start len : nat) :
  start + len <= length text ->
  len = 0 \/ nth start text NUL <> SPACE ->
  region text start len = []
  \/ exists c t, region text start len = c :: t /\ c <> SPACE.
Proof.
  intros Hin [-> | Hsp]; [now left|].
  destruct len as [|len]; [now left|]. right.
  rewrite region_head by exact Hin. eexists _, _. split; [reflexivity|exact Hsp].
Qed.

(** Every well-formed record that fits is accepted. *)
Lemma ProductLog_accepts (info : SysInfo) (line : list ascii)
      (fields : list (list ascii)) (nup sp cup tail : list ascii) :
  (Z.of_nat (length line) <= SIZE_MAX)%Z ->
  CommaSplit_fields (repeat 0 10) (repeat 0 10) 10 line = Some fields ->
  data_list_record fields ->
  version_info (nth 7 fields []) nup sp cup tail ->
  length cup + 1 + length nup + 1 <= 16 ->
  SysInfoLineParser_ProductLog info line
  = {| assembly_date := assembly_date info;
       original_firmware := firmware_value (original_firmware info) cup nup |}.
Proof.
  intros Hsize Hfields0 (Hn & Hne0 & Hdig & Hdl & Hok)
         (E7 & Hnup & Hspne & Hsp & Hcup & Htail) Hfit.
  destruct (CommaSplit_view (repeat 0 10) (repeat 0 10) 10 line)
    as (count & starts & lengths & fields' & Hrun & Hfields & Hcount & Hview);
    [lia|simpl; lia|simpl; lia|].
  rewrite Hfields0 in Hfields. injection Hfields as <-.
  destruct (Hview 0) as [F0 B0]; [lia|]. destruct (Hview 1) as [F1 B1]; [lia|].
  destruct (Hview 2) as [F2 B2]; [lia|]. destruct (Hview 7) as [F7 B7]; [lia|].
  set (s7 := nth 7 starts 0) in *. set (l7 := nth 7 lengths 0) in *.
  assert (L0 : nth 0 lengths 0 <> 0).
  { intros E. apply Hne0. rewrite F0, E. reflexivity. }
  assert (L1 : nth 1 lengths 0 = 8).
  { rewrite <- (region_length line (nth 1 starts 0) (nth 1 lengths 0)) by lia.
    rewrite <- F1, Hdl. reflexivity. }
  assert (L2 : nth 2 lengths 0 = 2).
  { rewrite <- (region_length line (nth 2 starts 0) (nth 2 lengths 0)) by lia.
    rewrite <- F2, Hok. reflexivity. }
  assert (R1 : region line (nth 1 starts 0) 8 = lit "DataList")
    by (rewrite <- Hdl, F1, L1; reflexivity).
  assert (R2 : region line (nth 2 starts 0) 2 = lit "OK")
    by (rewrite <- Hok, F2, L2; reflexivity).
  rewrite F7 in E7.
  destruct (region_prefix line s7 l7 (lit "nup:") _ B7 E7) as (N4 & E7' & Hl7).
  change (length (lit "nup:")) with 4 in *.
  destruct (until_space line (s7 + 4) (l7 - 4)) as [v1 r1] eqn:Hu1.
  destruct (until_space_spec _ _ _ _ _ Hu1) as (U1 & U1r & Unup & U1s); [lia|].
  assert (Esplit1 : region line (s7 + 4) (l7 - 4)
                    = region line (s7 + 4) (v1 - (s7 + 4)) ++ region line v1 r1).
  { replace (l7 - 4) with ((v1 - (s7 + 4)) + r1) by lia. rewrite region_add.
    do 2 f_equal. lia. }
  rewrite Esplit1 in E7'.
  apply (span_unique (fun b => Ascii.eqb b SPACE = false)) in E7'; auto;
    [|apply region_starts_space; [lia|exact U1s]|right; now apply space_first].
  destruct E7' as [Enup Erest].
  destruct (while_space line v1 r1) as [v2 r2] eqn:Hw.
  destruct (while_space_spec _ _ _ _ _ Hw) as (W & Wr & Wsp & Ws); [lia|].
  assert (Esplit2 : region line v1 r1 = region line v1 (v2 - v1) ++ region line v2 r2).
  { replace r1 with ((v2 - v1) + r2) at 1 by lia. rewrite region_add.
    do 2 f_equal. lia. }
  rewrite Esplit2 in Erest.
  apply (span_unique (fun b => b = SPACE)) in Erest; auto;
    [|apply region_starts_other; [lia|exact Ws]
     |right; eexists _, _; split; [reflexivity|discriminate]].
  destruct Erest as [Esp Erest].
  destruct (region_prefix line v2 r2 (lit "cup:") _ ltac:(lia) Erest) as (C4 & Erest' & Hr2).
  change (length (lit "cup:")) with 4 in *.
  destruct (until_space line (v2 + 4) (r2 - 4)) as [v3 r3] eqn:Hu3.
  destruct (until_space_spec _ _ _ _ _ Hu3) as (U3 & U3r & Ucup & U3s); [lia|].
  assert (Esplit3 : region line (v2 + 4) (r2 - 4)
                    = region line (v2 + 4) (v3 - (v2 + 4)) ++ region line v3 r3).
  { replace (r2 - 4) with ((v3 - (v2 + 4)) + r3) by lia. rewrite region_add.
    do 2 f_equal. lia. }
  rewrite Esplit3 in Erest'.
  apply (span_unique (fun b => Ascii.eqb b SPACE = false)) in Erest'; auto;
    [|apply region_starts_space; [lia|exact U3s]
     |destruct Htail as [->|(t' & ->)];
        [now left|right; eexists _, _; split; [reflexivity|discriminate]]].
  destruct Erest' as [Ecup _].
  assert (Lnup : v1 - (s7 + 4) = length nup)
    by (rewrite <- Enup; symmetry; apply region_length; lia).
  assert (Lcup : v3 - (v2 + 4) = length cup)
    by (rewrite <- Ecup; symmetry; apply region_length; lia).
  unfold SysInfoLineParser_ProductLog. rewrite Hrun.
  replace (count <? 2) with false by (symmetry; apply Nat.ltb_ge; lia).
  rewrite <- F0, Hdig.
  replace (nth 0 lengths 0 =? 0) with false by (symmetry; now apply Nat.eqb_neq).
  cbn [negb orb].
  rewrite L1, L2. cbn [Nat.eqb negb orb andb].
  rewrite (memcmp_of_region line (nth 1 starts 0) 8 (lit "DataList"))
    by (try reflexivity; try lia; exact R1).
  rewrite (memcmp_of_region line (nth 2 starts 0) 2 (lit "OK"))
    by (try reflexivity; try lia; exact R2).
  replace (count <? 8) with false by (symmetry; apply Nat.ltb_ge; lia).
  cbn [negb orb andb].
  fold s7 l7.
  replace (l7 <? 4) with false by (symmetry; apply Nat.ltb_ge; lia).
  rewrite (memcmp_of_region line s7 4 (lit "nup:")) by (try reflexivity; try lia; exact N4).
  cbn [negb orb]. rewrite Hu1, Hw.
  replace (r2 <? 4) with false by (symmetry; apply Nat.ltb_ge; lia).
  rewrite (memcmp_of_region line v2 4 (lit "cup:")) by (try reflexivity; try lia; exact C4).
  cbn [negb orb]. rewrite Hu3.
  rewrite Enup, Ecup, Lnup, Lcup.
  unfold SIZE_MAX. change (2 ^ 32)%Z with 4294967296%Z.
  rewrite !Z.mod_small by lia.
  replace (Z.of_nat (length nup) + Z.of_nat (length cup) <? Z.of_nat (length nup))%Z
    with false by (symmetry; apply Z.ltb_ge; lia).
  replace (Z.of_nat (length nup) + Z.of_nat (length cup) >? 4294967296 - 1 - 1 - 1)%Z
    with false by (symmetry; rewrite Z.gtb_ltb; apply Z.ltb_ge; lia).
  replace (Z.of_nat (length cup) + 1 + Z.of_nat (length nup) + 1 >? 16)%Z
    with false by (symmetry; rewrite Z.gtb_ltb; apply Z.ltb_ge; lia).
  now rewrite firmware_written.
Qed.
Lemma firmware_value_cstring (old cup nup : list ascii) :
  cstring (firmware_value old cup nup) = cstring (cup ++ DASH :: nup).
Proof.
  unfold firmware_value.
  replace (cup ++ DASH :: nup ++ NUL :: skipn (length cup + 1 + length nup + 1) old)
    with ((cup ++ DASH :: nup) ++ NUL :: skipn (length cup + 1 + length nup + 1) old)
    by (rewrite <- app_assoc; reflexivity).
  apply cstring_nul.
Qed.

Lemma ProductLog_ignores (info : SysInfo) (line : list ascii) :
  not_a_record line -> SysInfoLineParser_ProductLog info line = info.
Proof.
  intros (Hsize & fields & Hfields & Hnot).
  destruct (ProductLog_cases info line Hsize)
    as [H|(fields' & nup & sp & cup & tail & Hf & Hrec & _)]; [exact H|].
  rewrite Hfields in Hf. injection Hf as <-. contradiction.
Qed.

Lemma ProductLog_ignores_all (lines : list (list ascii)) :
  forall info : SysInfo,
    Forall not_a_record lines ->
    fold_left SysInfoLineParser_ProductLog lines info = info.
Proof.
  induction lines as [|l lines IH]; intros info Hall; [reflexivity|].
  inversion Hall as [|? ? Hl Hrest]; subst. cbn [fold_left].
  rewrite ProductLog_ignores by exact Hl. now apply IH.
Qed.

(** X13.  Every well-formed record is accepted: when the fields of a line
    make up a [DataList] record whose eighth field has the version format
    and ["cup-nup"] fits the member with its terminator, the parser writes
    it, whatever the member held before, and the member then reads
    ["cup-nup"]. *)
Theorem ProductLog_accepts_record (info : SysInfo) (line : list ascii)
        (fields : list (list ascii)) (nup sp cup tail : list ascii) :
  (Z.of_nat (length line) <= SIZE_MAX)%Z ->
  CommaSplit_fields (repeat 0 10) (repeat 0 10) 10 line = Some fields ->
  data_list_record fields ->
  version_info (nth 7 fields []) nup sp cup tail ->
  length cup + 1 + length nup + 1 <= 16 ->
  SysInfoLineParser_ProductLog info line
  = {| assembly_date := assembly_date info;
       original_firmware := firmware_value (original_firmware info) cup nup |}
  /\ cstring (original_firmware (SysInfoLineParser_ProductLog info line))
     = cstring (cup ++ DASH :: nup)
  /\ (Forall (fun c => c <> NUL) (cup ++ nup) ->
      cstring (original_firmware (SysInfoLineParser_ProductLog info line))
      = cup ++ DASH :: nup).
Proof.
  intros Hsize Hfields Hrec Hver Hfit.
  rewrite (ProductLog_accepts info line fields nup sp cup tail) by assumption.
  cbn [original_firmware]. rewrite firmware_value_cstring.
  repeat split. intros Htext. apply cstring_text.
  apply Forall_app in Htext. destruct Htext as [Hc Hn].
  apply Forall_app. split; [exact Hc|]. constructor; [discriminate|exact Hn].
Qed.

Lemma ProductLog_accepts_record_witness :
  cstring (original_firmware
             (SysInfoLineParser_ProductLog
                unknown_info
                (lit "12,DataList,OK,a,b,c,d,nup:20U  cup:9.0.0 preInstall:RA1,x,y,z")))
  = lit "9.0.0" ++ DASH :: lit "20U".
Proof.
  apply (ProductLog_accepts_record
           unknown_info
           (lit "12,DataList,OK,a,b,c,d,nup:20U  cup:9.0.0 preInstall:RA1,x,y,z")
           [lit "12"; lit "DataList"; lit "OK"; lit "a"; lit "b"; lit "c"; lit "d";
            lit "nup:20U  cup:9.0.0 preInstall:RA1"; lit "x"; lit "y,z"]
           (lit "20U") [SPACE; SPACE] (lit "9.0.0") (lit " preInstall:RA1")).
  - unfold SIZE_MAX. simpl. lia.
  - vm_compute. reflexivity.
  - unfold data_list_record. split; [simpl; lia|]. split; [discriminate|]. repeat split.
  - unfold version_info, no_space, all_space.
    split; [reflexivity|]. split; [repeat constructor|]. split; [discriminate|].
    split; [repeat constructor|]. split; [repeat constructor|].
    right. eexists. reflexivity.
  - simpl. lia.
  - repeat constructor; discriminate.
Defined.

(** X14.  The last record of a log decides [original_firmware]: after a
    well-formed record that fits, followed only by lines that are not
    [DataList] records, the member reads that record's ["cup-nup"],
    whatever lines came before and whatever the member held at first. *)
Theorem ProductLog_last_wins (info : SysInfo) (before after : list (list ascii))
        (line : list ascii) (fields : list (list ascii)) (nup sp cup tail : list ascii) :
  (Z.of_nat (length line) <= SIZE_MAX)%Z ->
  CommaSplit_fields (repeat 0 10) (repeat 0 10) 10 line = Some fields ->
  data_list_record fields ->
  version_info (nth 7 fields []) nup sp cup tail ->
  length cup + 1 + length nup + 1 <= 16 ->
  Forall not_a_record after ->
  cstring (original_firmware
             (fold_left SysInfoLineParser_ProductLog (before ++ line :: after) info))
  = cstring (cup ++ DASH :: nup).
Proof.
  intros Hsize Hfields Hrec Hver Hfit Hafter.
  rewrite fold_left_app. cbn [fold_left].
  rewrite (ProductLog_accepts _ line fields nup sp cup tail) by assumption.
  rewrite ProductLog_ignores_all by exact Hafter.
  cbn [original_firmware]. apply firmware_value_cstring.
Qed.

Lemma ProductLog_last_wins_witness :
  cstring (original_firmware
             (fold_left SysInfoLineParser_ProductLog
                ([lit "12,DataList,OK,a,b,c,d,nup:21E cup:10.1.0 x"]
                   ++ lit "13,DataList,OK,a,b,c,d,nup:20U cup:9.0.0"
                   :: [lit "14,Other,OK"; []]) unknown_info))
  = cstring (lit "9.0.0" ++ DASH :: lit "20U").
Proof.
  apply (ProductLog_last_wins
           unknown_info _ _ _
           [lit "13"; lit "DataList"; lit "OK"; lit "a"; lit "b"; lit "c"; lit "d";
            lit "nup:20U cup:9.0.0"]
           (lit "20U") [SPACE] (lit "9.0.0") []).
  - unfold SIZE_MAX. simpl. lia.
  - vm_compute. reflexivity.
  - unfold data_list_record. split; [simpl; lia|]. split; [discriminate|]. repeat split.
  - unfold version_info, no_space, all_space.
    split; [reflexivity|]. split; [repeat constructor|]. split; [discriminate|].
    split; [repeat constructor|]. split; [repeat constructor|]. now left.
  - simpl. lia.
  - constructor; [|constructor; [|constructor]].
    + split; [unfold SIZE_MAX; simpl; lia|]. eexists. split; [vm_compute; reflexivity|].
      intros (H & _). simpl in H. lia.
    + split; [unfold SIZE_MAX; simpl; lia|]. eexists. split; [vm_compute; reflexivity|].
      intros (H & _). simpl in H. lia.
Defined.

(** * The caller of the two parsers *)

Lemma fold_left_invariant {A B : Type} (P : A -> Prop) (f : A -> B -> A) (l : list B) :
  forall a : A,
    (forall (x : A) (b : B), In b l -> P x -> P (f x b)) -> P a -> P (fold_left f l a).
Proof.
  induction l as [|b l IH]; intros a Hstep Ha; [exact Ha|].
  cbn [fold_left]. apply IH.
  - intros x b' Hin. apply Hstep. now right.
  - apply Hstep; [now left|exact Ha].
Qed.

Lemma cstring_length (a : list ascii) : length (cstring a) <= length a.
Proof.
  induction a as [|c a IH]; cbn [cstring length]; [lia|].
  destruct (Ascii.eqb c NUL); cbn [length]; lia.
Qed.

Lemma strncpy_length (dst src : list ascii) (n : nat) :
  n <= length dst -> length (strncpy dst src n) = length dst.
Proof.
  intros H. unfold strncpy. rewrite !length_app, repeat_length, length_skipn.
  pose proof (cstring_length (firstn n src)) as Hs. rewrite length_firstn in Hs. lia.
Qed.

Lemma strncpy_unknown (dst : list ascii) :
  cstring (strncpy dst (literal "<unknown>") 10) = lit "<unknown>".
Proof. reflexivity. Qed.

Lemma InspectLog_firmware (info : SysInfo) (line : list ascii) :
  original_firmware (SysInfoLineParser_InspectLog info line) = original_firmware info.
Proof.
  unfold SysInfoLineParser_InspectLog.
  destruct (length line <? length s_commentUpdated); [reflexivity|].
  destruct (negb (Z.eqb (memcmp line s_commentUpdated (length s_commentUpdated)) 0));
    reflexivity.
Qed.


Lemma ProductLog_date (info : SysInfo) (line : list ascii) :
  (Z.of_nat (length line) <= SIZE_MAX)%Z ->
  assembly_date (SysInfoLineParser_ProductLog info line) = assembly_date info.
Proof.
  intros Hsize.
  destruct (ProductLog_cases info line Hsize)
    as [->|(fields & nup & sp & cup & tail & _ & _ & _ & _ & ->)]; reflexivity.
Qed.


Lemma fits_size (l : list ascii) : fits l -> (Z.of_nat (length l) <= SIZE_MAX)%Z.
Proof. intros [_ H]. unfold BUFFER_SIZE, SIZE_MAX in *. lia. Qed.

Lemma ParseText_fold {Ctx : Type} (line_parser : Ctx -> list ascii -> Ctx)
      (file : FIL) (context : Ctx) :
  exists ls : list (list ascii),
    SysInfo_lines file = Some ls /\ Forall fits ls /\
    SysInfo_ParseText file line_parser context = Some (fold_left line_parser ls context).
Proof.
  destruct (lines_fit file) as (ls & Hls & Hfit).
  exists ls. split; [exact Hls|]. split; [exact Hfit|].
  rewrite ParseText_lines, Hls. reflexivity.
Qed.


Lemma ProductLog_firmware_only (info info' : SysInfo) (line : list ascii) :
  original_firmware info = original_firmware info' ->
  original_firmware (SysInfoLineParser_ProductLog info line)
  = original_firmware (SysInfoLineParser_ProductLog info' line).
Proof.
  intros E. unfold SysInfoLineParser_ProductLog.
  destruct (SysInfo_CommaSplit (repeat 0 10) (repeat 0 10) 10 line)
    as [[[entry_count entries] entry_lengths]|]; [|exact E].
  repeat match goal with
         | |- context [if ?c then _ else _] => destruct c
         | |- context [let '(_, _) := ?p in _] => destruct p
         end; cbn [original_firmware]; try exact E.
  now rewrite E.
Qed.

Lemma fold_ProductLog_firmware_only (lines : list (list ascii)) :
  forall info info' : SysInfo,
    original_firmware info = original_firmware info' ->
    original_firmware (fold_left SysInfoLineParser_ProductLog lines info)
    = original_firmware (fold_left SysInfoLineParser_ProductLog lines info').
Proof.
  induction lines as [|l lines IH]; intros info info' E; [exact E|].
  cbn [fold_left]. apply IH. now apply ProductLog_firmware_only.
Qed.

(** X16.  The two logs do not interfere: what [GetSysInfo_TWLN] leaves in
    [assembly_date] does not depend on the product log, what it leaves in
    [original_firmware] does not depend on the inspect log, and neither
    depends on how the reads of the two files are cut into batches. *)
Theorem TWLN_logs_independent (info : SysInfo) (inspect_log inspect_log' : option FIL)
        (product_log product_log' : option FIL) :
  (exists a b c : SysInfo,
      GetSysInfo_TWLN info inspect_log product_log = Some a /\
      GetSysInfo_TWLN info inspect_log product_log' = Some b /\
      GetSysInfo_TWLN info inspect_log' product_log = Some c /\
      assembly_date a = assembly_date b /\
      original_firmware a = original_firmware c)
  /\ forall chunks chunks' : list (list ascii),
      Forall (fun c => c <> []) chunks -> Forall (fun c => c <> []) chunks' ->
      GetSysInfo_TWLN info (Some (chunked chunks)) (Some (chunked chunks'))
      = GetSysInfo_TWLN info (Some (whole (concat chunks))) (Some (whole (concat chunks'))).
Proof.
  split.
  - unfold GetSysInfo_TWLN. cbn [assembly_date original_firmware].
    set (info0 := {| assembly_date := strncpy (assembly_date info) (literal "<unknown>") 10;
                     original_firmware :=
                       strncpy (original_firmware info) (literal "<unknown>") 10 |}).
    assert (Hinspect : forall log : option FIL,
               exists info1 : SysInfo,
                 match log with
                 | Some file => SysInfo_ParseText file SysInfoLineParser_InspectLog info0
                 | None => Some info0
                 end = Some info1 /\
                 original_firmware info1 = original_firmware info0).
    { intros [file|]; [|exists info0; auto].
      destruct (ParseText_fold SysInfoLineParser_InspectLog file info0)
        as (ls & _ & _ & Hrun).
      eexists. split; [exact Hrun|].
      apply (fold_left_invariant (fun i => original_firmware i = original_firmware info0));
        [|reflexivity].
      intros x l _ Hx. now rewrite InspectLog_firmware. }
    assert (Hproduct : forall (log : option FIL) (info1 : SysInfo),
               exists (info2 : SysInfo) (ls : list (list ascii)),
                 match log with
                 | Some file => SysInfo_ParseText file SysInfoLineParser_ProductLog info1
                 | None => Some info1
                 end = Some info2 /\
                 info2 = fold_left SysInfoLineParser_ProductLog ls info1 /\
                 Forall fits ls /\
                 (forall info1', match log with
                                 | Some file =>
                                     SysInfo_ParseText file SysInfoLineParser_ProductLog info1'
                                 | None => Some info1'
                                 end = Some (fold_left SysInfoLineParser_ProductLog ls info1'))).
    { intros [file|] info1.
      - destruct (lines_fit file) as (ls & Hls & Hfit).
        exists (fold_left SysInfoLineParser_ProductLog ls info1), ls.
        repeat split; auto; intros; rewrite ParseText_lines, Hls; reflexivity.
      - exists info1, []. repeat split; auto. }
    destruct (Hinspect inspect_log) as (i1 & -> & Hf1).
    destruct (Hinspect inspect_log') as (i1' & -> & Hf1').
    destruct (Hproduct product_log i1) as (a & ls & -> & -> & Hfit & Hany).
    destruct (Hproduct product_log' i1) as (b & ls' & -> & -> & Hfit' & _).
    rewrite (Hany i1').
    eexists _, _, _. split; [reflexivity|]. split; [reflexivity|]. split; [reflexivity|].
    split.
    + transitivity (assembly_date i1).
      * apply (fold_left_invariant (fun i => assembly_date i = assembly_date i1));
          [|reflexivity].
        intros x l Hin Hx. rewrite ProductLog_date; [exact Hx|].
        apply fits_size. exact (proj1 (Forall_forall _ _) Hfit l Hin).
      * symmetry.
        apply (fold_left_invariant (fun i => assembly_date i = assembly_date i1));
          [|reflexivity].
        intros x l Hin Hx. rewrite ProductLog_date; [exact Hx|].
        apply fits_size. exact (proj1 (Forall_forall _ _) Hfit' l Hin).
    + apply fold_ProductLog_firmware_only. now rewrite Hf1, Hf1'.
  - intros chunks chunks' Hne Hne'. unfold GetSysInfo_TWLN.
    rewrite !ParseText_bytes.
    now rewrite !file_bytes_chunked, !file_bytes_whole by assumption.
Qed.

Lemma TWLN_logs_independent_witness :
  GetSysInfo_TWLN unknown_info
                  (Some (chunked [lit "CommentUpda"; lit "ted=2011" ++ [CR]; [LF]]))
                  (Some (chunked [lit "1,DataList,OK,a,b,c,d,nup:1"; lit "U cup:2.0"]))
  = GetSysInfo_TWLN unknown_info
                    (Some (whole (concat [lit "CommentUpda"; lit "ted=2011" ++ [CR]; [LF]])))
                    (Some (whole (concat [lit "1,DataList,OK,a,b,c,d,nup:1";
                                          lit "U cup:2.0"]))).
Proof.
  destruct (TWLN_logs_independent unknown_info None None None None) as [_ H].
  apply H; repeat constructor; discriminate.
Defined.

(** * Decoding a card identification register *)






Lemma land_15 (x : Z) : (0 <= Z.land x 15 < 16)%Z.
Proof.
  change 15%Z with (Z.ones 4). rewrite Z.land_ones by lia.
  change (2 ^ 4)%Z with 16%Z. apply Z.mod_pos_bound. lia.
Qed.

Lemma land_255 (x : Z) : (0 <= Z.land x 255 < 256)%Z.
Proof.
  change 255%Z with (Z.ones 8). rewrite Z.land_ones by lia.
  change (2 ^ 8)%Z with 256%Z. apply Z.mod_pos_bound. lia.
Qed.

(** X18.  The decoded dates are bounded whatever the register holds: the
    month is at most 15, the year of an SD card lies in 2000..2255, and the
    year of an eMMC lies in 2010..2025 and determines the four bits it was
    decoded from. *)
Theorem decoded_dates_bounded (getle16 getle32 getbe16 : list Z -> Z) (emmc : bool)
        (cid : list Z) (out : Sdmmc.sdmmc_cid) :
  let out' := Sdmmc.sdmmc_decode_cid getle16 getle32 getbe16 emmc cid out in
  (0 <= Sdmmc.date_mon out' <= 15)%Z /\
  (emmc = false -> (2000 <= Sdmmc.date_yr out' <= 2255)%Z) /\
  (emmc = true ->
   (2010 <= Sdmmc.date_yr out' <= 2025)%Z /\
   Z.land (Sdmmc.byte_at cid 0) 15 = ((Sdmmc.date_yr out' - 1997) mod 16)%Z).
Proof.
  intros out'. subst out'. unfold Sdmmc.sdmmc_decode_cid.
  destruct emmc; cbn [negb Sdmmc.date_mon Sdmmc.date_yr].
  - pose proof (land_15 (Z.shiftr (Sdmmc.byte_at cid 0) 4)) as Hmon.
    pose proof (land_15 (Sdmmc.byte_at cid 0)) as Hyr.
    change (2 ^ 16)%Z with 65536%Z.
    rewrite (Z.mod_small (Z.land (Sdmmc.byte_at cid 0) 15 + 1997)) by lia.
    split; [lia|]. split; [discriminate|]. intros _.
    destruct (Z.ltb_spec (Z.land (Sdmmc.byte_at cid 0) 15 + 1997) 2010).
    + rewrite Z.mod_small by lia. split; [lia|].
      replace (Z.land (Sdmmc.byte_at cid 0) 15 + 1997 + 16 - 1997)%Z
        with (Z.land (Sdmmc.byte_at cid 0) 15 + 1 * 16)%Z by lia.
      rewrite Z.mod_add by lia. symmetry. apply Z.mod_small. lia.
    + split; [lia|].
      replace (Z.land (Sdmmc.byte_at cid 0) 15 + 1997 - 1997)%Z
        with (Z.land (Sdmmc.byte_at cid 0) 15) by lia.
      symmetry. apply Z.mod_small. lia.
  - pose proof (land_15 (getle16 (skipn 0 cid))) as Hmon.
    pose proof (land_255 (Z.shiftr (getle16 (skipn 0 cid)) 4)) as Hyr.
    change (2 ^ 16)%Z with 65536%Z. change (2 ^ 8)%Z with 256%Z.
    rewrite !Z.mod_small by lia.
    split; [lia|]. split; [intros _; lia|discriminate].
Qed.

(** * Formatted output *)

Lemma digit_char_code (d : nat) : d < 10 -> nat_of_ascii (digit_char d) = 48 + d.
Proof. intros H. unfold digit_char. apply nat_ascii_embedding. lia. Qed.

Lemma digits_value_snoc (l : list ascii) (c : ascii) :
  digits_value (l ++ [c]) = 10 * digits_value l + (nat_of_ascii c - 48).
Proof. unfold digits_value. now rewrite fold_left_app. Qed.

Lemma digits_value_zeros (m : nat) (l : list ascii) :
  digits_value (repeat "0"%char m ++ l) = digits_value l.
Proof.
  unfold digits_value. rewrite fold_left_app. f_equal.
  induction m as [|m IH]; [reflexivity|]. cbn [repeat fold_left]. exact IH.
Qed.

Lemma decimal_fuel_spec (fuel : nat) :
  forall k n : nat,
    0 < k -> k <= fuel -> n < 10 ^ k ->
    0 < length (decimal_fuel fuel n) <= k /\
    digits_value (decimal_fuel fuel n) = n /\
    Forall (fun c => 48 <= nat_of_ascii c <= 57) (decimal_fuel fuel n).
Proof.
  induction fuel as [|fuel IH]; intros k n Hk Hfuel Hn; [lia|].
  cbn [decimal_fuel]. destruct (Nat.ltb_spec n 10) as [Hsmall|Hbig].
  - cbn [length]. unfold digits_value. cbn [fold_left].
    rewrite digit_char_code by exact Hsmall. repeat split; try lia.
    constructor; [rewrite digit_char_code by exact Hsmall; lia|constructor].
  - destruct k as [|[|k]]; [lia|simpl in Hn; lia|].
    assert (Hdiv : n / 10 < 10 ^ S k).
    { apply Nat.Div0.div_lt_upper_bound. rewrite <- Nat.pow_succ_r'. exact Hn. }
    destruct (IH (S k) (n / 10)) as (Hlen & Hval & Hdig); [lia|lia|exact Hdiv|].
    pose proof (Nat.mod_upper_bound n 10 ltac:(lia)) as Hmod.
    rewrite length_app, digits_value_snoc, Hval, digit_char_code by exact Hmod.
    cbn [length]. repeat split; try lia.
    + pose proof (Nat.div_mod_eq n 10). lia.
    + apply Forall_app. split; [exact Hdig|].
      constructor; [rewrite digit_char_code by exact Hmod; lia|constructor].
Qed.

Lemma zero_padded_spec (width n : nat) :
  0 < width <= 10 -> n < 10 ^ width ->
  length (zero_padded width n) = width /\
  digits_value (zero_padded width n) = n /\
  Forall (fun c => 48 <= nat_of_ascii c <= 57) (zero_padded width n).
Proof.
  intros Hw Hn. unfold zero_padded, decimal.
  destruct (decimal_fuel_spec 10 width n) as (Hlen & Hval & Hdig); [lia|lia|exact Hn|].
  rewrite length_app, repeat_length, digits_value_zeros.
  repeat split; [lia|exact Hval|].
  apply Forall_app. split; [|exact Hdig].
  apply Forall_forall. intros c Hc. apply repeat_spec in Hc. subst c.
  change (nat_of_ascii "0") with 48. lia.
Qed.

Lemma snprintf_fits (dst text : list ascii) (size : nat) :
  length text < size -> size <= length dst ->
  snprintf dst size text = text ++ NUL :: skipn (S (length text)) dst.
Proof.
  intros Hfit Hsize. destruct size as [|room]; [lia|]. cbn [snprintf].
  rewrite firstn_all2 by lia. apply copy_terminated.
Qed.

Lemma digits_not_nul (l : list ascii) :
  Forall (fun c => 48 <= nat_of_ascii c <= 57) l -> Forall (fun c => c <> NUL) l.
Proof.
  apply Forall_impl. intros c Hc ->. change (nat_of_ascii NUL) with 0 in Hc. lia.
Qed.

(** * The date in the OTP *)

Lemma GetSysInfo_OTP_cases (soc_date : list ascii) (otp : Otp.Otp) :
  (Otp.plausible otp /\
   Otp.GetSysInfo_OTP soc_date otp
   = snprintf (strncpy soc_date (literal "<unknown>") 10) 20
              (Otp.stamp (Otp.timestampYear otp + 1900) (Otp.timestampMonth otp)
                         (Otp.timestampDay otp) (Otp.timestampHour otp)
                         (Otp.timestampMinute otp) (Otp.timestampSecond otp)))
  \/ (~ Otp.plausible otp /\
      Otp.GetSysInfo_OTP soc_date otp = strncpy soc_date (literal "<unknown>") 10).
Proof.
  unfold Otp.GetSysInfo_OTP, Otp.plausible.
  destruct (Nat.ltb_spec (Otp.timestampYear otp + 1900) 2000); [right; split; [lia|reflexivity]|].
  destruct (Nat.eqb_spec (Otp.timestampMonth otp) 0); cbn [orb];
    [right; split; [lia|reflexivity]|].
  destruct (Nat.ltb_spec 12 (Otp.timestampMonth otp)); [right; split; [lia|reflexivity]|].
  destruct (Nat.eqb_spec (Otp.timestampDay otp) 0); cbn [orb];
    [right; split; [lia|reflexivity]|].
  destruct (Nat.ltb_spec 31 (Otp.timestampDay otp)); [right; split; [lia|reflexivity]|].
  destruct (Nat.leb_spec 24 (Otp.timestampHour otp)); [right; split; [lia|reflexivity]|].
  destruct (Nat.leb_spec 60 (Otp.timestampMinute otp)); [right; split; [lia|reflexivity]|].
  destruct (Nat.leb_spec 61 (Otp.timestampSecond otp)); [right; split; [lia|reflexivity]|].
  left. split; [lia|reflexivity].
Qed.

(** X19.  [GetSysInfo_OTP] keeps the 20 bytes of [soc_date].  When the time
    stamp is in the ranges the function asks for (year from 2000 on, month
    1-12, day 1-31, hour below 24, minute below 60, second up to 60), the
    member reads the date in full: 19 characters, nothing cut off, made of
    a four-digit year and five two-digit numbers that read back as the
    values of the time stamp.  Otherwise it reads ["<unknown>"]. *)
Theorem OTP_date (soc_date : list ascii) (otp : Otp.Otp) :
  Otp.bytes otp ->
  length soc_date = 20 ->
  length (Otp.GetSysInfo_OTP soc_date otp) = 20
  /\ (Otp.plausible otp ->
      exists y mo d h mi s : list ascii,
        cstring (Otp.GetSysInfo_OTP soc_date otp)
        = y ++ lit "/" ++ mo ++ lit "/" ++ d ++ lit " " ++ h ++ lit ":" ++ mi ++ lit ":" ++ s /\
        length (cstring (Otp.GetSysInfo_OTP soc_date otp)) = 19 /\
        (length y = 4 /\ digits_value y = Otp.timestampYear otp + 1900) /\
        (length mo = 2 /\ digits_value mo = Otp.timestampMonth otp) /\
        (length d = 2 /\ digits_value d = Otp.timestampDay otp) /\
        (length h = 2 /\ digits_value h = Otp.timestampHour otp) /\
        (length mi = 2 /\ digits_value mi = Otp.timestampMinute otp) /\
        (length s = 2 /\ digits_value s = Otp.timestampSecond otp))
  /\ (~ Otp.plausible otp -> cstring (Otp.GetSysInfo_OTP soc_date otp) = lit "<unknown>").
Proof.
  intros (By & Bmo & Bd & Bh & Bmi & Bs) Hsize.
  assert (Hlen0 : length (strncpy soc_date (literal "<unknown>") 10) = 20)
    by (rewrite strncpy_length; lia).
  destruct (GetSysInfo_OTP_cases soc_date otp) as [[Hp ->]|[Hp ->]].
  - pose proof Hp as (Py & Pmo & Pd & Ph & Pmi & Ps).
    destruct (zero_padded_spec 4 (Otp.timestampYear otp + 1900)) as (Ly & Vy & Dy);
      [lia|simpl; lia|].
    assert (Htwo : forall n, n < 100 ->
              length (zero_padded 2 (n mod 256)) = 2 /\
              digits_value (zero_padded 2 (n mod 256)) = n /\
              Forall (fun c => 48 <= nat_of_ascii c <= 57) (zero_padded 2 (n mod 256))).
    { intros n Hn. rewrite Nat.mod_small by lia. apply zero_padded_spec; [lia|simpl; lia]. }
    destruct (Htwo (Otp.timestampMonth otp)) as (Lmo & Vmo & Dmo); [lia|].
    destruct (Htwo (Otp.timestampDay otp)) as (Ld & Vd & Dd); [lia|].
    destruct (Htwo (Otp.timestampHour otp)) as (Lh & Vh & Dh); [lia|].
    destruct (Htwo (Otp.timestampMinute otp)) as (Lmi & Vmi & Dmi); [lia|].
    destruct (Htwo (Otp.timestampSecond otp)) as (Ls & Vs & Ds); [lia|].
    assert (Hstamp : length (Otp.stamp (Otp.timestampYear otp + 1900) (Otp.timestampMonth otp)
                                       (Otp.timestampDay otp) (Otp.timestampHour otp)
                                       (Otp.timestampMinute otp) (Otp.timestampSecond otp))
                     = 19).
    { unfold Otp.stamp. rewrite !length_app, Ly, Lmo, Ld, Lh, Lmi, Ls. reflexivity. }
    rewrite snprintf_fits by lia.
    split; [rewrite copy_terminated_length; lia|]. split; [|contradiction].
    intros _. rewrite cstring_nul, cstring_text.
    + eexists _, _, _, _, _, _. split; [reflexivity|]. split; [exact Hstamp|]. auto 10.
    + unfold Otp.stamp. rewrite !Forall_app.
      repeat split; try (now apply digits_not_nul);
        (constructor; [discriminate|constructor]).
  - split; [exact Hlen0|]. split; [contradiction|]. intros _. reflexivity.
Qed.

Lemma OTP_date_witness :
  cstring (Otp.GetSysInfo_OTP (repeat "z"%char 20) (Otp.mk_otp 111 3 26 12 0 60))
  = lit "2011/03/26 12:00:60"
  /\ cstring (Otp.GetSysInfo_OTP (repeat "z"%char 20) (Otp.mk_otp 111 2 0 12 0 0))
     = lit "<unknown>".
Proof.
  split.
  - destruct (OTP_date (repeat "z"%char 20) (Otp.mk_otp 111 3 26 12 0 60))
      as (_ & H & _); [unfold Otp.bytes; simpl; lia|reflexivity|].
    destruct H as (y & mo & d & h & mi & s & E & _);
      [unfold Otp.plausible; simpl; lia|].
    vm_compute. reflexivity.
  - destruct (OTP_date (repeat "z"%char 20) (Otp.mk_otp 111 2 0 12 0 0))
      as (_ & _ & H); [unfold Otp.bytes; simpl; lia|reflexivity|].
    apply H. unfold Otp.plausible. simpl. lia.
Defined.

(** * The serial number in SecureInfo *)

Lemma array_set_app {A : Type} (u w : list A) (k : nat) (v : A) :
  array_set (u ++ w) (length u + k) v = u ++ array_set w k v.
Proof.
  unfold array_set. rewrite firstn_app, firstn_all2 by lia.
  replace (length u + k - length u) with k by lia.
  replace (S (length u + k)) with (length u + S k) by lia.
  rewrite skipn_past, <- app_assoc. reflexivity.
Qed.

Lemma array_set_first {A : Type} (a : list A) (x : nat) (v : A) :
  x < length a -> firstn (x + 1) (array_set a x v) = firstn x a ++ [v].
Proof.
  intros H. unfold array_set.
  assert (Hl : length (firstn x a) = x) by (rewrite length_firstn; lia).
  replace (firstn x a ++ v :: skipn (S x) a) with ((firstn x a ++ [v]) ++ skipn (S x) a)
    by (rewrite <- app_assoc; reflexivity).
  apply firstn_len. rewrite length_app, Hl. reflexivity.
Qed.

Lemma array_set_rest {A : Type} (a : list A) (x k : nat) (v : A) :
  x < length a -> skipn (x + 1 + k) (array_set a x v) = skipn (x + 1 + k) a.
Proof.
  intros H. unfold array_set.
  assert (Hl : length (firstn x a) = x) by (rewrite length_firstn; lia).
  replace (firstn x a ++ v :: skipn (S x) a) with ((firstn x a ++ [v]) ++ skipn (S x) a)
    by (rewrite <- app_assoc; reflexivity).
  replace (x + 1 + k) with (length (firstn x a ++ [v]) + k) at 1
    by (rewrite length_app, Hl; reflexivity).
  rewrite skipn_past, skipn_skipn. f_equal. lia.
Qed.

Lemma parity_succ (n : nat) : ((n + 1) mod 2 =? 0) = negb (n mod 2 =? 0).
Proof.
  pose proof (Nat.div_mod_eq n 2). pose proof (Nat.div_mod_eq (n + 1) 2).
  pose proof (Nat.mod_upper_bound n 2 ltac:(lia)).
  pose proof (Nat.mod_upper_bound (n + 1) 2 ltac:(lia)).
  destruct (Nat.eqb_spec ((n + 1) mod 2) 0); destruct (Nat.eqb_spec (n mod 2) 0);
    cbn [negb]; try reflexivity; lia.
Qed.

Lemma printable_not_nul (c : ascii) : Secure.printable c -> Ascii.eqb c NUL = false.
Proof.
  intros H. apply Ascii.eqb_neq. intros ->. unfold Secure.printable in H.
  change (nat_of_ascii NUL) with 0 in H. lia.
Qed.

Lemma printable_accepted (c : ascii) :
  Secure.printable c -> (nat_of_ascii c <? 32) || (126 <? nat_of_ascii c) = false.
Proof.
  intros [H1 H2]. apply orb_false_iff. split; apply Nat.ltb_ge; lia.
Qed.

(** What the loop has noted after a run of printable characters. *)
Lemma note_chars (s : list ascii) :
  forall st : Secure.serial_scan,
    let st' := fold_left Secure.note_char s st in
    Secure.got_serial st' = Secure.got_serial st /\
    Secure.digits st' = Secure.digits st + length (Secure.serial_digits s) /\
    3 * Secure.evens st' + Secure.odds st'
    = 3 * Secure.evens st + Secure.odds st
      + Secure.checksum (Secure.digits st mod 2 =? 0) (Secure.serial_digits s).
Proof.
  induction s as [|c s IH]; intros st; cbn [fold_left].
  - cbn. repeat split; lia.
  - destruct (IH (Secure.note_char st c)) as (Hgot & Hdig & Hsum).
    cbv zeta. rewrite Hgot, Hdig, Hsum. clear IH Hgot Hdig Hsum.
    unfold Secure.serial_digits, Secure.note_char. cbn [filter]. unfold isdigit.
    destruct ((48 <=? nat_of_ascii c) && (nat_of_ascii c <=? 57));
      cbn [Secure.got_serial Secure.digits Secure.evens Secure.odds map length
           Secure.checksum].
    + rewrite parity_succ.
      destruct (Secure.digits st mod 2 =? 0); cbn [negb]; repeat split; lia.
    + repeat split.
Qed.

Lemma scan_serial_length (steps : nat) :
  forall (x : nat) (data serial : list ascii) (st : Secure.serial_scan),
    x + steps <= length serial ->
    length (fst (Secure.scan_serial steps x data serial st)) = length serial.
Proof.
  induction steps as [|steps IH]; intros x data serial st Hin; [reflexivity|].
  cbn [Secure.scan_serial].
  destruct (Ascii.eqb (nth x data NUL) NUL); [cbn [fst]; apply array_set_length; lia|].
  destruct ((nat_of_ascii (nth x data NUL) <? 32) || (126 <? nat_of_ascii (nth x data NUL)));
    [cbn [fst]; apply array_set_length; lia|].
  rewrite IH by (rewrite array_set_length; lia). apply array_set_length. lia.
Qed.

(** The loop over a serial number of printable characters that fills the
    array or ends in a zero byte. *)
Lemma scan_serial_text (s : list ascii) :
  forall (x steps : nat) (data serial : list ascii) (st : Secure.serial_scan),
    Forall Secure.printable s ->
    (forall i, i < length s -> nth (x + i) data NUL = nth i s NUL) ->
    length s = steps \/ (length s < steps /\ nth (x + length s) data NUL = NUL) ->
    snd (Secure.scan_serial steps x data serial st) = fold_left Secure.note_char s st.
Proof.
  induction s as [|c s IH]; intros x steps data serial st Hs Hdata Hend.
  - cbn [length fold_left] in *. destruct Hend as [<- | [Hlt Hnul]]; [reflexivity|].
    destruct steps as [|steps]; [lia|]. cbn [Secure.scan_serial].
    rewrite Nat.add_0_r in Hnul. rewrite Hnul. reflexivity.
  - inversion Hs as [|? ? Hc Hs']; subst. cbn [length fold_left] in *.
    destruct steps as [|steps]; [lia|]. cbn [Secure.scan_serial].
    assert (Hch : nth x data NUL = c).
    { rewrite <- (Nat.add_0_r x). rewrite (Hdata 0) by lia. reflexivity. }
    rewrite Hch, (printable_not_nul c Hc), (printable_accepted c Hc).
    apply IH; [exact Hs'| |].
    + intros i Hi. replace (x + 1 + i) with (x + S i) by lia.
      rewrite Hdata by lia. reflexivity.
    + replace (x + 1 + length s) with (x + S (length s)) by lia.
      destruct Hend as [H | [H1 H2]]; [left; lia | right; split; [lia | exact H2]].
Qed.

(** The loop over printable characters followed by a byte it rejects. *)
Lemma scan_serial_rejects (s : list ascii) :
  forall (x steps : nat) (data serial : list ascii) (st : Secure.serial_scan) (b : ascii),
    Forall Secure.printable s ->
    (forall i, i < length s -> nth (x + i) data NUL = nth i s NUL) ->
    nth (x + length s) data NUL = b ->
    b <> NUL -> ~ Secure.printable b ->
    length s < steps -> x + steps <= length serial ->
    Secure.got_serial (snd (Secure.scan_serial steps x data serial st)) = false /\
    fst (Secure.scan_serial steps x data serial st)
    = firstn x serial ++ (s ++ [b]) ++ skipn (x + length s + 1) serial.
Proof.
  induction s as [|c s IH]; intros x steps data serial st b Hs Hdata Hb Hnul Hbad Hlt Hin.
  - cbn [length] in *. destruct steps as [|steps]; [lia|]. cbn [Secure.scan_serial].
    rewrite Nat.add_0_r in *. rewrite Hb.
    replace (Ascii.eqb b NUL) with false by (symmetry; now apply Ascii.eqb_neq).
    replace ((nat_of_ascii b <? 32) || (126 <? nat_of_ascii b)) with true.
    + split; [reflexivity|]. cbn [fst app]. unfold array_set. f_equal. f_equal. f_equal. lia.
    + symmetry. apply orb_true_iff. unfold Secure.printable in Hbad.
      destruct (Nat.ltb_spec (nat_of_ascii b) 32); [now left|].
      right. apply Nat.ltb_lt. lia.
  - inversion Hs as [|? ? Hc Hs']; subst. cbn [length] in *.
    destruct steps as [|steps]; [lia|]. cbn [Secure.scan_serial].
    assert (Hch : nth x data NUL = c).
    { rewrite <- (Nat.add_0_r x). rewrite (Hdata 0) by lia. reflexivity. }
    rewrite Hch, (printable_not_nul c Hc), (printable_accepted c Hc).
    assert (Hdata' : forall i, i < length s -> nth (x + 1 + i) data NUL = nth i s NUL).
    { intros i Hi. replace (x + 1 + i) with (x + S i) by lia.
      rewrite Hdata by lia. reflexivity. }
    assert (Hb' : nth (x + 1 + length s) data NUL = nth (x + S (length s)) data NUL)
      by (f_equal; lia).
    assert (Hlt' : length s < steps) by lia.
    assert (Hin' : x + 1 + steps <= length (array_set serial x c))
      by (rewrite array_set_length by lia; lia).
    destruct (IH (x + 1) steps data (array_set serial x c) (Secure.note_char st c)
                 (nth (x + S (length s)) data NUL) Hs' Hdata' Hb' Hnul Hbad Hlt' Hin')
      as [Hgot Hser].
    split; [exact Hgot|]. rewrite Hser.
    rewrite array_set_first by lia.
    replace (x + 1 + length s + 1) with (x + 1 + (length s + 1)) by lia.
    rewrite array_set_rest by lia. rewrite <- !app_assoc. cbn [app].
    do 4 f_equal. f_equal. lia.
Qed.








Lemma array_set_at {A : Type} (u w : list A) (v : A) :
  array_set (u ++ w) (length u) v = u ++ array_set w 0 v.
Proof. rewrite <- (Nat.add_0_r (length u)) at 1. apply array_set_app. Qed.

Lemma printable_text (s : list ascii) :
  Forall Secure.printable s -> Forall (fun c => c <> NUL) s.
Proof.
  intros H. eapply Forall_impl; [|exact H]. intros c Hc.
  apply Ascii.eqb_neq, printable_not_nul, Hc.
Qed.

(** Lines 236-237 on a serial number that fills the member or ends in a
    zero byte: the text, then zero bytes to the end of the array. *)
Lemma serial_copied (ser s rest : list ascii) :
  length ser = 16 -> length (s ++ rest) = 15 ->
  Forall Secure.printable s ->
  rest = [] \/ (exists tail, rest = NUL :: tail) ->
  array_set (strncpy ser (s ++ rest) 15) 15 NUL = s ++ repeat NUL (16 - length s).
Proof.
  intros Hser Hlen Hs Hrest.
  assert (Hc : cstring (s ++ rest) = s).
  { destruct Hrest as [-> | [tail ->]].
    - rewrite app_nil_r. apply cstring_text, printable_text, Hs.
    - rewrite cstring_nul. apply cstring_text, printable_text, Hs. }
  rewrite length_app in Hlen.
  unfold strncpy. rewrite firstn_all2 by (rewrite length_app; lia). rewrite Hc.
  transitivity (array_set (s ++ repeat NUL (15 - length s) ++ skipn 15 ser)
                          (length s + (15 - length s)) NUL); [f_equal; lia|].
  rewrite array_set_app. f_equal.
  transitivity (array_set (repeat NUL (15 - length s) ++ skipn 15 ser)
                          (length (repeat NUL (15 - length s)) + 0) NUL);
    [f_equal; rewrite repeat_length; lia|].
  rewrite array_set_app. unfold array_set. cbn [firstn app].
  rewrite skipn_skipn, skipn_all2 by lia.
  replace (16 - length s) with ((15 - length s) + 1) by lia.
  rewrite repeat_app. reflexivity.
Qed.

Lemma check_digit_spec (odds evens : nat) :
  exists c, c < 10 /\ Secure.check_digit odds evens = digit_char c /\
            (3 * evens + odds + c) mod 10 = 0.
Proof.
  unfold Secure.check_digit.
  pose proof (Nat.div_mod_eq (3 * evens + odds) 10) as Hdm.
  pose proof (Nat.mod_upper_bound (3 * evens + odds) 10 ltac:(lia)) as Hr.
  set (q := (3 * evens + odds) / 10) in *. set (r := (3 * evens + odds) mod 10) in *.
  cbv zeta. destruct (Nat.eqb_spec (10 - r) 10) as [E | E].
  - exists 0. split; [lia|]. split; [reflexivity|].
    rewrite Nat.add_0_r. fold r. lia.
  - exists (10 - r). split; [lia|]. split.
    + unfold digit_char. f_equal. lia.
    + replace (3 * evens + odds + (10 - r)) with ((q + 1) * 10) by lia.
      apply Nat.Div0.mod_mul.
Qed.

Lemma checksum_app (a b : list nat) :
  forall p : bool,
    Secure.checksum p (a ++ b)
    = Secure.checksum p a
      + Secure.checksum (if Nat.even (length a) then p else negb p) b.
Proof.
  induction a as [|d a IH]; intros p; [reflexivity|].
  cbn [app Secure.checksum length]. rewrite IH, Nat.even_succ, <- Nat.negb_even.
  destruct (Nat.even (length a)); cbn [negb]; [|rewrite negb_involutive]; lia.
Qed.

Lemma serial_digits_app (a b : list ascii) :
  Secure.serial_digits (a ++ b) = Secure.serial_digits a ++ Secure.serial_digits b.
Proof. unfold Secure.serial_digits. rewrite filter_app, map_app. reflexivity. Qed.

Lemma serial_digits_digit (c : nat) : c < 10 -> Secure.serial_digits [digit_char c] = [c].
Proof.
  intros H. unfold Secure.serial_digits, isdigit. cbn [filter].
  rewrite (digit_char_code c H).
  replace ((48 <=? 48 + c) && (48 + c <=? 57)) with true.
  - cbn [map]. rewrite (digit_char_code c H). f_equal. lia.
  - symmetry. apply andb_true_iff. split; apply Nat.leb_le; lia.
Qed.

Section SecureInfo.

Variable regionNameLong : nat -> list ascii.
Variable SMDH_NUM_REGIONS : nat.
Variable region_text : Secure.region_string -> list ascii.
Variable IS_DEVKIT : bool.
Variable IS_O3DS : bool.
Variable MODEL_OLD_3DS : nat.
Variable MODEL_OLD_3DS_XL : nat.
Variable MODEL_NEW_3DS : nat.

Lemma choose_sub_model_length (m : nat) (sub : list ascii) (d1 d2 : ascii) :
  length sub = 16 ->
  length (Secure.choose_sub_model IS_DEVKIT IS_O3DS MODEL_OLD_3DS MODEL_OLD_3DS_XL
            MODEL_NEW_3DS m sub d1 d2) = 16.
Proof.
  intros H. unfold Secure.choose_sub_model.
  repeat match goal with
         | |- context [if ?b then _ else _] => destruct b
         end; try exact H; rewrite strncpy_length; lia.
Qed.

(** The serial number the function leaves when the file holds a serial of
    printable characters. *)
Lemma serial_of_text (info : Secure.fields) (data : Secure.SecureInfo)
      (other : option Secure.SecureInfo) (s rest : list ascii) :
  length (Secure.serial info) = 16 ->
  Secure.data_serial data = s ++ rest ->
  length (s ++ rest) = 15 ->
  Forall Secure.printable s ->
  rest = [] \/ (exists tail, rest = NUL :: tail) ->
  exists st,
    st = fold_left Secure.note_char s Secure.scan_start /\
    Secure.serial (Secure.GetSysInfo_SecureInfo regionNameLong SMDH_NUM_REGIONS region_text
                     IS_DEVKIT IS_O3DS MODEL_OLD_3DS MODEL_OLD_3DS_XL MODEL_NEW_3DS
                     info (Some data) other)
    = if (length s <? 15) && (Secure.digits st =? 8)
      then array_set (array_set (s ++ repeat NUL (16 - length s)) (length s)
                                (Secure.check_digit (Secure.odds st) (Secure.evens st)))
                     (length s + 1) NUL
      else s ++ repeat NUL (16 - length s).
Proof.
  intros Hinfo Hdata Hlen Hs Hrest.
  exists (fold_left Secure.note_char s Secure.scan_start). split; [reflexivity|].
  unfold Secure.GetSysInfo_SecureInfo.
  set (ser0 := strncpy (Secure.serial info) (literal "<unknown>") 10).
  assert (Hser0 : length ser0 = 16) by (unfold ser0; rewrite strncpy_length; lia).
  pose proof (scan_serial_length 15 0 (Secure.data_serial data) ser0 Secure.scan_start
                ltac:(lia)) as Hl.
  assert (Hst : snd (Secure.scan_serial 15 0 (Secure.data_serial data) ser0
                       Secure.scan_start)
                = fold_left Secure.note_char s Secure.scan_start).
  { apply scan_serial_text; [exact Hs| |].
    - intros i Hi. rewrite Hdata. cbn [Nat.add]. apply app_nth1. exact Hi.
    - rewrite length_app in Hlen.
      destruct Hrest as [-> | [tail ->]].
      + left. cbn [length] in Hlen. lia.
      + right. cbn [length] in Hlen. split; [lia|].
        rewrite Hdata. cbn [Nat.add]. rewrite app_nth2 by lia.
        rewrite Nat.sub_diag. reflexivity. }
  destruct (Secure.scan_serial 15 0 (Secure.data_serial data) ser0 Secure.scan_start)
    as [ser st]. cbn [fst snd] in Hl, Hst. subst st.
  destruct (note_chars s Secure.scan_start) as (Hgot & _ & _). cbv zeta in Hgot.
  rewrite Hgot. cbn [Secure.got_serial Secure.scan_start negb Secure.serial].
  rewrite Hdata, (serial_copied ser s rest) by (assumption || lia).
  assert (Hc : length (cstring (s ++ repeat NUL (16 - length s))) = length s).
  { rewrite length_app in Hlen.
    replace (16 - length s) with (S (15 - length s)) by lia. cbn [repeat].
    rewrite cstring_nul, cstring_text by (apply printable_text, Hs). reflexivity. }
  rewrite Hc. reflexivity.
Qed.

(** X20.  A serial number of printable characters that holds exactly eight
    digits and leaves room in the member gets a ninth digit appended, and
    with it the digits of the serial, weighted 1 and 3 in turn from the
    first, add up to a multiple of ten.  A serial that fills all fifteen
    bytes, or holds another number of digits, is shown as it is. *)
Theorem serial_check_digit (info : Secure.fields) (data : Secure.SecureInfo)
        (other : option Secure.SecureInfo) (s rest : list ascii) :
  length (Secure.serial info) = 16 ->
  Secure.data_serial data = s ++ rest ->
  length (s ++ rest) = 15 ->
  Forall Secure.printable s ->
  rest = [] \/ (exists tail, rest = NUL :: tail) ->
  let out :=
    cstring (Secure.serial
               (Secure.GetSysInfo_SecureInfo regionNameLong SMDH_NUM_REGIONS region_text
                  IS_DEVKIT IS_O3DS MODEL_OLD_3DS MODEL_OLD_3DS_XL MODEL_NEW_3DS
                  info (Some data) other)) in
  (length s < 15 -> length (Secure.serial_digits s) = 8 ->
   exists c, c < 10 /\ out = s ++ [digit_char c] /\
             Secure.checksum true (Secure.serial_digits out) mod 10 = 0) /\
  (length s = 15 \/ length (Secure.serial_digits s) <> 8 -> out = s).
Proof.
  intros Hinfo Hdata Hlen Hs Hrest out.
  destruct (serial_of_text info data other s rest Hinfo Hdata Hlen Hs Hrest)
    as (st & Hst & Hser).
  destruct (note_chars s Secure.scan_start) as (_ & Hdig & Hsum).
  cbv zeta in Hdig, Hsum. rewrite <- Hst in Hdig, Hsum.
  change (Secure.digits Secure.scan_start) with 0 in Hdig, Hsum.
  change (Secure.evens Secure.scan_start) with 0 in Hsum.
  change (Secure.odds Secure.scan_start) with 0 in Hsum.
  change (0 mod 2 =? 0) with true in Hsum.
  cbn [Nat.add Nat.mul] in Hdig, Hsum.
  assert (Hplain : cstring (s ++ repeat NUL (16 - length s)) = s).
  { rewrite length_app in Hlen.
    replace (16 - length s) with (S (15 - length s)) by lia. cbn [repeat].
    rewrite cstring_nul. apply cstring_text, printable_text, Hs. }
  unfold out. rewrite Hser. clear out Hser. split.
  - intros Hroom Hd.
    replace (length s <? 15) with true by (symmetry; apply Nat.ltb_lt; exact Hroom).
    replace (Secure.digits st =? 8) with true by (symmetry; apply Nat.eqb_eq; lia).
    cbn [andb].
    destruct (check_digit_spec (Secure.odds st) (Secure.evens st)) as (c & Hc & -> & Hmod).
    exists c. split; [exact Hc|].
    assert (Hout : cstring
                     (array_set
                        (array_set (s ++ repeat NUL (16 - length s)) (length s)
                                   (digit_char c))
                        (length s + 1) NUL)
                   = s ++ [digit_char c]).
    { replace (16 - length s) with (S (S (14 - length s))) by lia. cbn [repeat].
      rewrite array_set_at. unfold array_set at 2. cbn [firstn skipn app].
      rewrite array_set_app. unfold array_set. cbn [firstn skipn app].
      replace (s ++ digit_char c :: NUL :: repeat NUL (14 - length s))
        with ((s ++ [digit_char c]) ++ NUL :: repeat NUL (14 - length s))
        by (rewrite <- app_assoc; reflexivity).
      rewrite cstring_nul. apply cstring_text. apply Forall_app. split.
      - apply printable_text, Hs.
      - constructor; [|constructor]. intros E.
        pose proof (digit_char_code c Hc) as Hcode. rewrite E in Hcode.
        change (nat_of_ascii NUL) with 0 in Hcode. lia. }
    rewrite Hout. split; [reflexivity|].
    rewrite serial_digits_app, checksum_app, Hd, (serial_digits_digit c Hc).
    cbn [Nat.even Secure.checksum]. rewrite <- Hsum.
    replace (Secure.evens st + (Secure.evens st + (Secure.evens st + 0)) + Secure.odds st
             + (c + 0))
      with (3 * Secure.evens st + Secure.odds st + c) by lia.
    exact Hmod.
  - intros Hcase.
    replace ((length s <? 15) && (Secure.digits st =? 8)) with false; [exact Hplain|].
    symmetry. apply andb_false_iff. destruct Hcase as [H | H].
    + left. apply Nat.ltb_ge. lia.
    + right. apply Nat.eqb_neq. lia.
Qed.

(** X21.  Every write of the function stays inside the member it goes to:
    whatever the two files hold, the four arrays keep the sizes of their
    declarations. *)
Theorem SecureInfo_in_bounds (info : Secure.fields)
        (secure_A secure_B : option Secure.SecureInfo) :
  Secure.sized info ->
  Secure.sized
    (Secure.GetSysInfo_SecureInfo regionNameLong SMDH_NUM_REGIONS region_text
       IS_DEVKIT IS_O3DS MODEL_OLD_3DS MODEL_OLD_3DS_XL MODEL_NEW_3DS
       info secure_A secure_B).
Proof.
  intros (Hsub & Hser & Hsys & Hsal). unfold Secure.GetSysInfo_SecureInfo.
  set (sub0 := strncpy (Secure.sub_model info) (literal "<unknown>") 10).
  set (ser0 := strncpy (Secure.serial info) (literal "<unknown>") 10).
  set (sys0 := strncpy (Secure.system_region info) (literal "<unknown>") 10).
  set (sal0 := strncpy (Secure.sales_region info) (literal "<unknown>") 10).
  assert (Hsub0 : length sub0 = 16) by (unfold sub0; rewrite strncpy_length; lia).
  assert (Hser0 : length ser0 = 16) by (unfold ser0; rewrite strncpy_length; lia).
  assert (Hsys0 : length sys0 = 65) by (unfold sys0; rewrite strncpy_length; lia).
  assert (Hsal0 : length sal0 = 65) by (unfold sal0; rewrite strncpy_length; lia).
  destruct (match secure_A with Some data => Some data | None => secure_B end)
    as [data|]; [|repeat split; assumption].
  set (sys1 := if Secure.data_region data <? SMDH_NUM_REGIONS
               then array_set (strncpy sys0 (regionNameLong (Secure.data_region data)) 65)
                              64 NUL
               else sys0).
  assert (Hsys1 : length sys1 = 65).
  { unfold sys1. destruct (Secure.data_region data <? SMDH_NUM_REGIONS); [|exact Hsys0].
    rewrite array_set_length; rewrite strncpy_length; lia. }
  pose proof (scan_serial_length 15 0 (Secure.data_serial data) ser0 Secure.scan_start
                ltac:(lia)) as Hl.
  destruct (Secure.scan_serial 15 0 (Secure.data_serial data) ser0 Secure.scan_start)
    as [ser st]. cbn [fst] in Hl.
  destruct (negb (Secure.got_serial st)).
  - repeat split; cbn [Secure.sub_model Secure.serial Secure.system_region
                       Secure.sales_region]; lia.
  - assert (Hser2 : length (array_set (strncpy ser (Secure.data_serial data) 15) 15 NUL)
                    = 16)
      by (rewrite array_set_length; rewrite strncpy_length; lia).
    unfold Secure.sized.
    cbn [Secure.sub_model Secure.serial Secure.system_region Secure.sales_region].
    split; [apply choose_sub_model_length; exact Hsub0|].
    split; [|split; [exact Hsys1|]].
    + destruct (Nat.ltb_spec
                  (length (cstring (array_set (strncpy ser (Secure.data_serial data) 15)
                                              15 NUL)))
                  (16 - 1)) as [Hlt | Hge]; cbn [andb]; [|exact Hser2].
      destruct (Secure.digits st =? 8); [|exact Hser2].
      rewrite array_set_length; rewrite array_set_length; lia.
    + destruct (negb (Ascii.eqb (Secure.second_letter st) NUL)); [|exact Hsal0].
      rewrite array_set_length; rewrite strncpy_length; lia.
Qed.

(** X22.  A byte below [' '] or above ['~'] in the serial number makes the
    function return at once: the sub-model and the sales region stay
    [<unknown>], and [serial] is left holding the bytes copied so far, the
    rejected byte included, over what remains of [<unknown>]. *)
Theorem rejected_serial_left_in_place (info : Secure.fields) (data : Secure.SecureInfo)
        (other : option Secure.SecureInfo) (s rest : list ascii) (b : ascii) :
  length (Secure.serial info) = 16 ->
  Secure.data_serial data = s ++ b :: rest ->
  length (s ++ b :: rest) = 15 ->
  Forall Secure.printable s ->
  b <> NUL -> ~ Secure.printable b ->
  let out :=
    Secure.GetSysInfo_SecureInfo regionNameLong SMDH_NUM_REGIONS region_text
      IS_DEVKIT IS_O3DS MODEL_OLD_3DS MODEL_OLD_3DS_XL MODEL_NEW_3DS
      info (Some data) other in
  cstring (Secure.sub_model out) = lit "<unknown>" /\
  cstring (Secure.sales_region out) = lit "<unknown>" /\
  Secure.serial out
  = s ++ [b] ++ skipn (length s + 1)
                      (strncpy (Secure.serial info) (literal "<unknown>") 10).
Proof.
  intros Hinfo Hdata Hlen Hs Hnul Hbad out. unfold out, Secure.GetSysInfo_SecureInfo.
  set (ser0 := strncpy (Secure.serial info) (literal "<unknown>") 10).
  assert (Hser0 : length ser0 = 16) by (unfold ser0; rewrite strncpy_length; lia).
  rewrite length_app in Hlen. cbn [length] in Hlen.
  destruct (scan_serial_rejects s 0 15 (Secure.data_serial data) ser0 Secure.scan_start b)
    as [Hgot Hser]; try assumption; try lia.
  - intros i Hi. rewrite Hdata. cbn [Nat.add]. apply app_nth1. exact Hi.
  - rewrite Hdata. cbn [Nat.add]. rewrite app_nth2 by lia.
    rewrite Nat.sub_diag. reflexivity.
  - destruct (Secure.scan_serial 15 0 (Secure.data_serial data) ser0 Secure.scan_start)
      as [ser st]. cbn [fst snd] in Hgot, Hser. rewrite Hgot. cbn [negb].
    cbn [Secure.sub_model Secure.serial Secure.sales_region].
    split; [apply strncpy_unknown|]. split; [apply strncpy_unknown|].
    rewrite Hser. cbn [firstn Nat.add app]. rewrite <- app_assoc. reflexivity.
Qed.




End SecureInfo.

Lemma serial_check_digit_witness :
  exists c,
    c < 10 /\
    cstring (Secure.serial
               (Secure.GetSysInfo_SecureInfo
                  (fun _ => literal "Europe") 7 (fun _ => literal "Europe")
                  false false 0 1 2
                  (Secure.mk_fields 0 (repeat NUL 16) (repeat NUL 16) (repeat NUL 65)
                                    (repeat NUL 65))
                  (Some (Secure.mk_secure 2 (lit "CW40123456" ++ repeat NUL 5))) None))
    = lit "CW40123456" ++ [digit_char c] /\
    Secure.checksum true
      (Secure.serial_digits
         (cstring (Secure.serial
                     (Secure.GetSysInfo_SecureInfo
                        (fun _ => literal "Europe") 7 (fun _ => literal "Europe")
                        false false 0 1 2
                        (Secure.mk_fields 0 (repeat NUL 16) (repeat NUL 16)
                                          (repeat NUL 65) (repeat NUL 65))
                        (Some (Secure.mk_secure 2 (lit "CW40123456" ++ repeat NUL 5)))
                        None)))) mod 10 = 0.
Proof.
  destruct (serial_check_digit
              (fun _ => literal "Europe") 7 (fun _ => literal "Europe") false false 0 1 2
              (Secure.mk_fields 0 (repeat NUL 16) (repeat NUL 16) (repeat NUL 65)
                                (repeat NUL 65))
              (Secure.mk_secure 2 (lit "CW40123456" ++ repeat NUL 5)) None
              (lit "CW40123456") (repeat NUL 5)) as [H _].
  - reflexivity.
  - reflexivity.
  - reflexivity.
  - repeat constructor; vm_compute; intros E; discriminate E.
  - right. exists (repeat NUL 4). reflexivity.
  - apply H; [simpl; lia | reflexivity].
Defined.

Lemma SecureInfo_in_bounds_witness :
  Secure.sized
    (Secure.GetSysInfo_SecureInfo
       (fun _ => literal "Europe") 7 (fun _ => literal "Europe") false false 0 1 2
       (Secure.mk_fields 0 (repeat NUL 16) (repeat NUL 16) (repeat NUL 65) (repeat NUL 65))
       None (Some (Secure.mk_secure 2 (lit "CW40123456" ++ repeat NUL 5)))).
Proof.
  apply SecureInfo_in_bounds. unfold Secure.sized. simpl. repeat split.
Defined.

Lemma rejected_serial_left_in_place_witness :
  let out :=
    Secure.GetSysInfo_SecureInfo
      (fun _ => literal "Europe") 7 (fun _ => literal "Europe") false false 0 1 2
      (Secure.mk_fields 0 (repeat NUL 16) (repeat NUL 16) (repeat NUL 65) (repeat NUL 65))
      (Some (Secure.mk_secure 2 (lit "CW4" ++ "001"%char :: repeat NUL 11))) None in
  cstring (Secure.sub_model out) = lit "<unknown>" /\
  cstring (Secure.sales_region out) = lit "<unknown>" /\
  Secure.serial out
  = lit "CW4" ++ ["001"%char]
    ++ skipn (length (lit "CW4") + 1)
             (strncpy (repeat NUL 16) (literal "<unknown>") 10).
Proof.
  apply (rejected_serial_left_in_place
           (fun _ => literal "Europe") 7 (fun _ => literal "Europe") false false 0 1 2
           (Secure.mk_fields 0 (repeat NUL 16) (repeat NUL 16) (repeat NUL 65)
                             (repeat NUL 65))
           (Secure.mk_secure 2 (lit "CW4" ++ "001"%char :: repeat NUL 11)) None
           (lit "CW4") (repeat NUL 11) "001"%char).
  - reflexivity.
  - reflexivity.
  - reflexivity.
  - repeat constructor; vm_compute; intros E; discriminate E.
  - discriminate.
  - intros [H _]. vm_compute in H. lia.
Defined.


